(** * gazebo_ros_actor_command: the actor's per-tick motion controller

    A shallow embedding of [src/gazebo_ros_actor_command.cpp]
    (class [GazeboRosActorCommand]) and the properties of its control loop.

    Modelling conventions.

    - A C++ [double] is a real number ([R]); rounding and overflow are left
      out.  The one place where the program can leave the finite values is the
      quotient [yaw.Radian() / dt] of the odometry twist, so that field has
      the type [double] below, and [fdiv] is IEEE-754 division of two finite
      values.
    - [ignition::math::Quaterniond(roll, pitch, yaw)] is kept as the Euler
      triple it is built from.  [Euler()] of the engine extracts its angles
      with [atan2], so an angle comes back wrapped into (-PI, PI].  For the
      heading of the actor this changes the angle by full turns only, and
      the controller uses a heading through [cos], [sin] and [Normalize]:
      [Quaterniond.Euler] reads the triple back as it is stored.  The
      angular rate of a velocity command goes through the same round trip
      (lines 300-301, 318-319) and is a number, not an angle: it is read
      back wrapped, by [Quaterniond.EulerZ].
    - [std::vector::at] throws [std::out_of_range]; [OnUpdate] therefore
      returns an [option], [None] being the exception.
    - [trajectoryInfo_] is taken as installed (Reset found both clips), so that
      [trajectoryInfo_->type] is a field of the state.  A property of the
      ticks that follow [Load] on a fresh plugin states that the actor has
      both clips; without them the pointer is null and a tick dereferences
      it (lines 232, 297).
    - The three callback queues deliver their messages one at a time; a run of
      the plugin is a list of events ([Event], [run]). *)

From Stdlib Require Import Reals Lra Lia List String Bool Arith.
Import ListNotations.

Open Scope R_scope.

(** ** <cmath> and the math libraries *)

(** [atan2] of the C library on finite arguments. *)
Definition atan2 (y x : R) : R :=
  if Rlt_dec 0 x then atan (y / x)
  else if Rlt_dec x 0 then
         if Rle_dec 0 y then atan (y / x) + PI else atan (y / x) - PI
       else if Rlt_dec 0 y then PI / 2
            else if Rlt_dec y 0 then - (PI / 2)
                 else 0.

(** A [double] that may have left the finite values. *)
Inductive double : Type :=
| Finite (r : R)
| Infinity (negative : bool)
| NaN.

(** IEEE-754 division [a / b] of finite values; a zero divisor is [+0]
    (a difference of two equal times). *)
Definition fdiv (a b : R) : double :=
  if Req_dec_T b 0 then
    if Req_dec_T a 0 then NaN
    else Infinity (if Rlt_dec a 0 then true else false)
  else Finite (a / b).

Module Vector2d.
Record t : Type := mk { X : R; Y : R }.

Definition sub (a b : t) : t := mk (X a - X b) (Y a - Y b).
Definition Length (v : t) : R := sqrt (X v * X v + Y v * Y v).
Definition div (v : t) (k : R) : t := mk (X v / k) (Y v / k).
End Vector2d.

Module Vector3d.
Record t : Type := mk { X : R; Y : R; Z : R }.

Definition Zero : t := mk 0 0 0.
Definition sub (a b : t) : t := mk (X a - X b) (Y a - Y b) (Z a - Z b).
Definition Length (v : t) : R :=
  sqrt (X v * X v + Y v * Y v + Z v * Z v).
Definition set_X (x : R) (v : t) : t := mk x (Y v) (Z v).
Definition set_Y (y : R) (v : t) : t := mk (X v) y (Z v).
End Vector3d.

(** [ignition::math::Angle::Normalize]. *)
Definition Normalize (value : R) : R := atan2 (sin value) (cos value).

(** [ignition::math::Quaterniond], by its Euler angles. *)
Module Quaterniond.
Record t : Type := mk { Roll : R; Pitch : R; Yaw : R }.

Definition Euler (q : t) : Vector3d.t :=
  Vector3d.mk (Roll q) (Pitch q) (Yaw q).

(** [Quaterniond(0, 0, yaw).Euler().Z()] as ignition math computes it: the
    quaternion has [qw = cos (yaw / 2)], [qz = sin (yaw / 2)] and
    [qx = qy = 0], and [Euler()] extracts the yaw as
    [atan2 (2 (qx qy + qw qz)) (qw qw + qx qx - qy qy - qz qz)]. *)
Definition EulerZ (yaw : R) : R :=
  let qw := cos (yaw / 2) in
  let qx := 0 in
  let qy := 0 in
  let qz := sin (yaw / 2) in
  atan2 (2 * (qx * qy + qw * qz))
        (qw * qw + qx * qx - qy * qy - qz * qz).
End Quaterniond.

Module Pose3d.
Record t : Type := mk { Pos : Vector3d.t; Rot : Quaterniond.t }.

Definition set_Pos (p : Vector3d.t) (a : t) : t := mk p (Rot a).
Definition set_Rot (q : Quaterniond.t) (a : t) : t := mk (Pos a) q.
End Pose3d.

(** ** ROS messages *)

(** [geometry_msgs::Quaternion] / [tf2::Quaternion]. *)
Record Quaternion : Type :=
  mkQuaternion { q_x : R; q_y : R; q_z : R; q_w : R }.

(** [tf2::Quaternion::setRPY]. *)
Definition setRPY (roll pitch yaw : R) : Quaternion :=
  let halfYaw := yaw * (1 / 2) in
  let halfPitch := pitch * (1 / 2) in
  let halfRoll := roll * (1 / 2) in
  let cosYaw := cos halfYaw in
  let sinYaw := sin halfYaw in
  let cosPitch := cos halfPitch in
  let sinPitch := sin halfPitch in
  let cosRoll := cos halfRoll in
  let sinRoll := sin halfRoll in
  mkQuaternion
    (sinRoll * cosPitch * cosYaw - cosRoll * sinPitch * sinYaw)
    (cosRoll * sinPitch * cosYaw + sinRoll * cosPitch * sinYaw)
    (cosRoll * cosPitch * sinYaw - sinRoll * sinPitch * cosYaw)
    (cosRoll * cosPitch * cosYaw + sinRoll * sinPitch * sinYaw).

(** [geometry_msgs::Twist]. *)
Record Twist : Type :=
  mkTwist { linear : Vector3d.t; angular : Vector3d.t }.

(** [geometry_msgs::Pose], the payload of a [PoseStamped]. *)
Record Pose : Type :=
  mkPose { position : Vector3d.t; orientation : Quaternion }.

(** [nav_msgs::Path]. *)
Record Path : Type := mkPath { poses : list Pose }.

(** The fields of [nav_msgs::Odometry] that [OnUpdate] writes; every other
    field keeps the zero of the default-constructed message. *)
Record Odometry : Type :=
  mkOdometry {
      frame_id : string;
      pose_position_x : R;
      pose_position_y : R;
      pose_orientation : Quaternion;
      twist_linear_x : R;
      twist_linear_y : R;
      twist_angular_z : double
    }.

Definition set_twist_linear_x (v : R) (o : Odometry) : Odometry :=
  mkOdometry (frame_id o) (pose_position_x o) (pose_position_y o)
             (pose_orientation o) v (twist_linear_y o) (twist_angular_z o).
Definition set_twist_linear_y (v : R) (o : Odometry) : Odometry :=
  mkOdometry (frame_id o) (pose_position_x o) (pose_position_y o)
             (pose_orientation o) (twist_linear_x o) v (twist_angular_z o).
Definition set_twist_angular_z (v : double) (o : Odometry) : Odometry :=
  mkOdometry (frame_id o) (pose_position_x o) (pose_position_y o)
             (pose_orientation o) (twist_linear_x o) (twist_linear_y o) v.

(** ** The plugin's state *)

Definition WALKING_ANIMATION : string := "walking".
Definition STANDING_ANIMATION : string := "standing".

(** The host's [physics::Actor]: world pose and script (animation) time. *)
Record Actor : Type :=
  mkActor { WorldPose : Pose3d.t; ScriptTime : R }.

(** The members of [GazeboRosActorCommand] the control loop uses.
    [actor_pub_] is the list of published odometry records, newest first. *)
Record State : Type :=
  mkState {
      follow_mode_ : string;
      lin_tolerance_ : R;
      lin_velocity_ : R;
      ang_tolerance_ : R;
      ang_velocity_ : R;
      animation_factor_ : R;
      default_rotation_ : R;
      abort_ : bool;
      idx_ : nat;
      target_poses_ : list Vector3d.t;
      target_pose_ : Vector3d.t;
      cmd_queue_ : list Vector3d.t;
      target_vel_ : Pose3d.t;
      trajectoryInfo_type : string;
      last_update_ : R;
      actor_ : Actor;
      actor_pub_ : list Odometry
    }.

Definition set_abort_ (v : bool) (s : State) : State :=
  mkState (follow_mode_ s) (lin_tolerance_ s) (lin_velocity_ s)
          (ang_tolerance_ s) (ang_velocity_ s) (animation_factor_ s)
          (default_rotation_ s) v (idx_ s) (target_poses_ s)
          (target_pose_ s) (cmd_queue_ s) (target_vel_ s)
          (trajectoryInfo_type s) (last_update_ s) (actor_ s) (actor_pub_ s).
Definition set_idx_ (v : nat) (s : State) : State :=
  mkState (follow_mode_ s) (lin_tolerance_ s) (lin_velocity_ s)
          (ang_tolerance_ s) (ang_velocity_ s) (animation_factor_ s)
          (default_rotation_ s) (abort_ s) v (target_poses_ s)
          (target_pose_ s) (cmd_queue_ s) (target_vel_ s)
          (trajectoryInfo_type s) (last_update_ s) (actor_ s) (actor_pub_ s).
Definition set_target_poses_ (v : list Vector3d.t) (s : State) : State :=
  mkState (follow_mode_ s) (lin_tolerance_ s) (lin_velocity_ s)
          (ang_tolerance_ s) (ang_velocity_ s) (animation_factor_ s)
          (default_rotation_ s) (abort_ s) (idx_ s) v
          (target_pose_ s) (cmd_queue_ s) (target_vel_ s)
          (trajectoryInfo_type s) (last_update_ s) (actor_ s) (actor_pub_ s).
Definition set_target_pose_ (v : Vector3d.t) (s : State) : State :=
  mkState (follow_mode_ s) (lin_tolerance_ s) (lin_velocity_ s)
          (ang_tolerance_ s) (ang_velocity_ s) (animation_factor_ s)
          (default_rotation_ s) (abort_ s) (idx_ s) (target_poses_ s)
          v (cmd_queue_ s) (target_vel_ s)
          (trajectoryInfo_type s) (last_update_ s) (actor_ s) (actor_pub_ s).
Definition set_cmd_queue_ (v : list Vector3d.t) (s : State) : State :=
  mkState (follow_mode_ s) (lin_tolerance_ s) (lin_velocity_ s)
          (ang_tolerance_ s) (ang_velocity_ s) (animation_factor_ s)
          (default_rotation_ s) (abort_ s) (idx_ s) (target_poses_ s)
          (target_pose_ s) v (target_vel_ s)
          (trajectoryInfo_type s) (last_update_ s) (actor_ s) (actor_pub_ s).
Definition set_target_vel_ (v : Pose3d.t) (s : State) : State :=
  mkState (follow_mode_ s) (lin_tolerance_ s) (lin_velocity_ s)
          (ang_tolerance_ s) (ang_velocity_ s) (animation_factor_ s)
          (default_rotation_ s) (abort_ s) (idx_ s) (target_poses_ s)
          (target_pose_ s) (cmd_queue_ s) v
          (trajectoryInfo_type s) (last_update_ s) (actor_ s) (actor_pub_ s).
Definition set_trajectoryInfo_type (v : string) (s : State) : State :=
  mkState (follow_mode_ s) (lin_tolerance_ s) (lin_velocity_ s)
          (ang_tolerance_ s) (ang_velocity_ s) (animation_factor_ s)
          (default_rotation_ s) (abort_ s) (idx_ s) (target_poses_ s)
          (target_pose_ s) (cmd_queue_ s) (target_vel_ s)
          v (last_update_ s) (actor_ s) (actor_pub_ s).
Definition set_last_update_ (v : R) (s : State) : State :=
  mkState (follow_mode_ s) (lin_tolerance_ s) (lin_velocity_ s)
          (ang_tolerance_ s) (ang_velocity_ s) (animation_factor_ s)
          (default_rotation_ s) (abort_ s) (idx_ s) (target_poses_ s)
          (target_pose_ s) (cmd_queue_ s) (target_vel_ s)
          (trajectoryInfo_type s) v (actor_ s) (actor_pub_ s).
Definition set_actor_ (v : Actor) (s : State) : State :=
  mkState (follow_mode_ s) (lin_tolerance_ s) (lin_velocity_ s)
          (ang_tolerance_ s) (ang_velocity_ s) (animation_factor_ s)
          (default_rotation_ s) (abort_ s) (idx_ s) (target_poses_ s)
          (target_pose_ s) (cmd_queue_ s) (target_vel_ s)
          (trajectoryInfo_type s) (last_update_ s) v (actor_pub_ s).
Definition set_actor_pub_ (v : list Odometry) (s : State) : State :=
  mkState (follow_mode_ s) (lin_tolerance_ s) (lin_velocity_ s)
          (ang_tolerance_ s) (ang_velocity_ s) (animation_factor_ s)
          (default_rotation_ s) (abort_ s) (idx_ s) (target_poses_ s)
          (target_pose_ s) (cmd_queue_ s) (target_vel_ s)
          (trajectoryInfo_type s) (last_update_ s) (actor_ s) v.

(** ** Command handlers *)

(** [GazeboRosActorCommand::VelCallback]: a fresh [Vector3d] (all zero) gets
    [linear.x] and [angular.z] and is pushed on [cmd_queue_]. *)
Definition VelCallback (s : State) (msg : Twist) : State :=
  let vel_cmd := Vector3d.Zero in
  let vel_cmd :=
    Vector3d.mk (Vector3d.X (linear msg)) (Vector3d.Y vel_cmd)
                (Vector3d.Z vel_cmd) in
  let vel_cmd :=
    Vector3d.mk (Vector3d.X vel_cmd) (Vector3d.Y vel_cmd)
                (Vector3d.Z (angular msg)) in
  set_cmd_queue_ (cmd_queue_ s ++ [vel_cmd]) s.

(** [GazeboRosActorCommand::AbortCallback]. *)
Definition AbortCallback (s : State) (data : bool) : State :=
  set_abort_ data s.

Section PathIngestion.

(** The yaw that [tf2::Matrix3x3(quat).getRPY] extracts from an
    orientation. *)
Variable getRPY_yaw : Quaternion -> R.

(** The body of the loop of [PathCallback]: one pose to one target. *)
Definition PathCallback_target (pose : Pose) : Vector3d.t :=
  let x := Vector3d.X (position pose) in
  let y := Vector3d.Y (position pose) in
  let yaw := getRPY_yaw (orientation pose) in
  Vector3d.mk x y yaw.

(** [GazeboRosActorCommand::PathCallback]. *)
Definition PathCallback (s : State) (msg : Path) : State :=
  let s := set_target_poses_ [] s in
  let s := set_idx_ 0%nat s in
  let s := set_abort_ false s in
  fold_left
    (fun s pose =>
       set_target_poses_ (target_poses_ s ++ [PathCallback_target pose]) s)
    (poses msg) s.

End PathIngestion.

(** [GazeboRosActorCommand::ChooseNewTarget]; [None] when [at] throws. *)
Definition ChooseNewTarget (s : State) : option State :=
  let s := set_idx_ (S (idx_ s)) s in
  match nth_error (target_poses_ s) (idx_ s) with
  | Some p => Some (set_target_pose_ p s)
  | None => None
  end.

(** [GazeboRosActorCommand::Reset], for an actor that has the clips named by
    [skelAnims]; [None] when [at] throws. *)
Definition Reset (skelAnims : list string) (s : State) : option State :=
  let s := set_last_update_ 0 s in
  let s := set_idx_ 0%nat s in
  let pose := WorldPose (actor_ s) in
  let s :=
    set_target_poses_
      (target_poses_ s ++
         [Vector3d.mk (Vector3d.X (Pose3d.Pos pose))
                      (Vector3d.Y (Pose3d.Pos pose))
                      (Quaterniond.Yaw (Pose3d.Rot pose))]) s in
  match nth_error (target_poses_ s) (idx_ s) with
  | None => None
  | Some p =>
      let s := set_target_pose_ p s in
      if negb (existsb (String.eqb WALKING_ANIMATION) skelAnims) then Some s
      else if negb (existsb (String.eqb STANDING_ANIMATION) skelAnims)
           then Some s
           else Some (set_trajectoryInfo_type STANDING_ANIMATION s)
  end.

(** ** The tick *)

(** Lines 239-261 of [OnUpdate]: the guard on [abort_] and on the empty list,
    and the choice of the target.  The result is the state and the local
    [pos].  [target_poses_.size() - 1] is only computed on a non-empty list,
    where the unsigned subtraction does not wrap. *)
Definition OnUpdate_path_target (s : State) (pose : Pose3d.t)
           (pos : Vector2d.t) (distance : R)
  : option (State * Vector2d.t) :=
  if abort_ s || (match target_poses_ s with [] => true | _ => false end) then
    let s := set_target_poses_ [] s in
    let s :=
      set_target_pose_
        (Vector3d.set_X (Vector3d.X (Pose3d.Pos pose)) (target_pose_ s)) s in
    let s :=
      set_target_pose_
        (Vector3d.set_Y (Vector3d.Y (Pose3d.Pos pose)) (target_pose_ s)) s in
    let s := set_idx_ 0%nat s in
    Some (s, Vector2d.mk 0 0)
  else if Rlt_dec distance (lin_tolerance_ s) then
    if (idx_ s <? List.length (target_poses_ s) - 1)%nat then
      match ChooseNewTarget s with
      | None => None
      | Some s =>
          Some (s,
                Vector2d.mk
                  (Vector3d.X (target_pose_ s) - Vector3d.X (Pose3d.Pos pose))
                  (Vector3d.Y (target_pose_ s) - Vector3d.Y (Pose3d.Pos pose)))
      end
    else
      Some (set_trajectoryInfo_type STANDING_ANIMATION s, Vector2d.mk 0 0)
  else Some (s, pos).

(** Lines 263-275: the unit direction vector. *)
Definition OnUpdate_path_direction (pos : Vector2d.t) : Vector2d.t :=
  if Req_dec_T (Vector2d.Length pos) 0 then pos
  else Vector2d.div pos (Vector2d.Length pos).

(** Lines 268-275: the angular displacement towards the target. *)
Definition OnUpdate_path_yaw (s : State) (rpy : Vector3d.t)
           (pos : Vector2d.t) : R :=
  if Req_dec_T (Vector2d.Length pos) 0 then 0
  else Normalize (atan2 (Vector2d.Y pos) (Vector2d.X pos)
                  + default_rotation_ s - Vector3d.Z rpy).

(** Lines 277-294: turn in place or move, on the normalised [pos]. *)
Definition OnUpdate_path_steer (s : State) (dt : R) (rpy : Vector3d.t)
           (pos : Vector2d.t) (yaw : R)
           (pose : Pose3d.t) (human_odom : Odometry)
  : Pose3d.t * Odometry :=
  let rot_sign := if Rlt_dec yaw 0 then -1 else 1 in
  if Rgt_dec (Rabs yaw) (ang_tolerance_ s) then
    let pose :=
      Pose3d.set_Rot
        (Quaterniond.mk (default_rotation_ s) 0
                        (Vector3d.Z rpy + rot_sign * ang_velocity_ s * dt))
        pose in
    let human_odom :=
      set_twist_angular_z (Finite (rot_sign * ang_velocity_ s)) human_odom in
    (pose, human_odom)
  else
    let pose :=
      Pose3d.set_Pos
        (Vector3d.set_X (Vector3d.X (Pose3d.Pos pose)
                         + Vector2d.X pos * lin_velocity_ s * dt)
                        (Pose3d.Pos pose)) pose in
    let pose :=
      Pose3d.set_Pos
        (Vector3d.set_Y (Vector3d.Y (Pose3d.Pos pose)
                         + Vector2d.Y pos * lin_velocity_ s * dt)
                        (Pose3d.Pos pose)) pose in
    let human_odom :=
      set_twist_linear_x (Vector2d.X pos * lin_velocity_ s) human_odom in
    let human_odom :=
      set_twist_linear_y (Vector2d.Y pos * lin_velocity_ s) human_odom in
    let pose :=
      Pose3d.set_Rot
        (Quaterniond.mk (default_rotation_ s) 0 (Vector3d.Z rpy + yaw))
        pose in
    let human_odom := set_twist_angular_z (fdiv yaw dt) human_odom in
    (pose, human_odom).

(** Lines 231-294: the branch [follow_mode_ == "path"]. *)
Definition OnUpdate_path (s : State) (dt : R) (rpy : Vector3d.t)
           (pose : Pose3d.t) (human_odom : Odometry)
  : option (State * Pose3d.t * Odometry) :=
  let s := set_trajectoryInfo_type WALKING_ANIMATION s in
  let target_pos_2d :=
    Vector2d.mk (Vector3d.X (target_pose_ s)) (Vector3d.Y (target_pose_ s)) in
  let current_pos_2d :=
    Vector2d.mk (Vector3d.X (Pose3d.Pos pose))
                (Vector3d.Y (Pose3d.Pos pose)) in
  let pos := Vector2d.sub target_pos_2d current_pos_2d in
  let distance := Vector2d.Length pos in
  match OnUpdate_path_target s pose pos distance with
  | None => None
  | Some (s, pos) =>
      let pos := OnUpdate_path_direction pos in
      let yaw := OnUpdate_path_yaw s rpy pos in
      let '(pose, human_odom) :=
        OnUpdate_path_steer s dt rpy pos yaw pose human_odom in
      Some (s, pose, human_odom)
  end.

(** Lines 296-319: the branch [follow_mode_ == "velocity"]. *)
Definition OnUpdate_velocity (s : State) (dt : R) (rpy : Vector3d.t)
           (pose : Pose3d.t) (human_odom : Odometry)
  : State * Pose3d.t * Odometry :=
  let s := set_trajectoryInfo_type WALKING_ANIMATION s in
  let s :=
    match cmd_queue_ s with
    | [] => s
    | front :: rest =>
        let s :=
          set_target_vel_
            (Pose3d.set_Pos
               (Vector3d.set_X (Vector3d.X front)
                               (Pose3d.Pos (target_vel_ s)))
               (target_vel_ s)) s in
        let s :=
          set_target_vel_
            (Pose3d.set_Rot (Quaterniond.mk 0 0 (Vector3d.Z front))
                            (target_vel_ s)) s in
        set_cmd_queue_ rest s
    end in
  let heading :=
    Vector3d.Z (Quaterniond.Euler (Pose3d.Rot pose)) - default_rotation_ s in
  let v := Vector3d.X (Pose3d.Pos (target_vel_ s)) in
  let w :=
    Quaterniond.EulerZ (Quaterniond.Yaw (Pose3d.Rot (target_vel_ s))) in
  let pose :=
    Pose3d.set_Pos
      (Vector3d.set_X (Vector3d.X (Pose3d.Pos pose) + v * cos heading * dt)
                      (Pose3d.Pos pose)) pose in
  let pose :=
    Pose3d.set_Pos
      (Vector3d.set_Y (Vector3d.Y (Pose3d.Pos pose) + v * sin heading * dt)
                      (Pose3d.Pos pose)) pose in
  let human_odom := set_twist_linear_x (v * cos heading) human_odom in
  let human_odom := set_twist_linear_y (v * sin heading) human_odom in
  let pose :=
    Pose3d.set_Rot
      (Quaterniond.mk (default_rotation_ s) 0 (Vector3d.Z rpy + w * dt))
      pose in
  let human_odom := set_twist_angular_z (Finite w) human_odom in
  (s, pose, human_odom).

(** Lines 220-229: the odometry record filled from the pose read at the
    start of the tick. *)
Definition OnUpdate_odom (s : State) (pose : Pose3d.t) (rpy : Vector3d.t)
  : Odometry :=
  mkOdometry "map"
             (Vector3d.X (Pose3d.Pos pose))
             (Vector3d.Y (Pose3d.Pos pose))
             (setRPY 0 0 (Vector3d.Z rpy - default_rotation_ s))
             0 0 (Finite 0).

(** Lines 322-331: publish, then move the actor and its animation clock. *)
Definition OnUpdate_commit (s : State) (simTime : R) (pose : Pose3d.t)
           (human_odom : Odometry) : State :=
  let s := set_actor_pub_ (human_odom :: actor_pub_ s) s in
  let displacement :=
    Vector3d.sub (Pose3d.Pos pose) (Pose3d.Pos (WorldPose (actor_ s))) in
  let distanceTraveled := Vector3d.Length displacement in
  let s := set_actor_ (mkActor pose (ScriptTime (actor_ s))) s in
  let s :=
    set_actor_
      (mkActor (WorldPose (actor_ s))
               (ScriptTime (actor_ s)
                + distanceTraveled * animation_factor_ s)) s in
  set_last_update_ simTime s.

(** [GazeboRosActorCommand::OnUpdate] at simulation time [simTime]. *)
Definition OnUpdate (s : State) (simTime : R) : option State :=
  let dt := simTime - last_update_ s in
  let pose := WorldPose (actor_ s) in
  let rpy := Quaterniond.Euler (Pose3d.Rot pose) in
  let human_odom := OnUpdate_odom s pose rpy in
  if String.eqb (follow_mode_ s) "path" then
    match OnUpdate_path s dt rpy pose human_odom with
    | None => None
    | Some (s, pose, human_odom) =>
        Some (OnUpdate_commit s simTime pose human_odom)
    end
  else if String.eqb (follow_mode_ s) "velocity" then
    let '(s, pose, human_odom) :=
      OnUpdate_velocity s dt rpy pose human_odom in
    Some (OnUpdate_commit s simTime pose human_odom)
  else Some (OnUpdate_commit s simTime pose human_odom).

(** ** Runs of the plugin *)

(** What the plugin reacts to: the three subscriptions and the world-update
    event of the host engine. *)
Inductive Event : Type :=
| EvVel (msg : Twist)
| EvPath (msg : Path)
| EvAbort (data : bool)
| EvUpdate (simTime : R).

Section Runs.

Variable getRPY_yaw : Quaternion -> R.

Definition step (s : State) (e : Event) : option State :=
  match e with
  | EvVel msg => Some (VelCallback s msg)
  | EvPath msg => Some (PathCallback getRPY_yaw s msg)
  | EvAbort data => Some (AbortCallback s data)
  | EvUpdate simTime => OnUpdate s simTime
  end.

Fixpoint run (s : State) (es : list Event) : option State :=
  match es with
  | [] => Some s
  | e :: es =>
      match step s e with
      | None => None
      | Some s => run s es
      end
  end.

End Runs.

(** Ticks only, at the given simulation times. *)
Fixpoint ticks (s : State) (times : list R) : option State :=
  match times with
  | [] => Some s
  | t :: times =>
      match OnUpdate s t with
      | None => None
      | Some s => ticks s times
      end
  end.

(** ** Vocabulary of the properties *)

(** The pose and the Euler angles a tick reads. *)
Definition tick_pose (s : State) : Pose3d.t := WorldPose (actor_ s).
Definition tick_rpy (s : State) : Vector3d.t :=
  Quaterniond.Euler (Pose3d.Rot (tick_pose s)).

(** The actor's position and heading, and the heading the odometry
    reports. *)
Definition position_of (s : State) : Vector3d.t := Pose3d.Pos (tick_pose s).
Definition heading_of (s : State) : R :=
  Quaterniond.Yaw (Pose3d.Rot (tick_pose s)).
Definition reported_heading (s : State) : R :=
  heading_of s - default_rotation_ s.

(** Planar displacement from the actor to the current target, and its
    length. *)
Definition to_target (s : State) : Vector2d.t :=
  Vector2d.sub
    (Vector2d.mk (Vector3d.X (target_pose_ s)) (Vector3d.Y (target_pose_ s)))
    (Vector2d.mk (Vector3d.X (position_of s)) (Vector3d.Y (position_of s))).
Definition distance_to_target (s : State) : R :=
  Vector2d.Length (to_target s).

(** What the tick from [s] to [s'] measures as travelled distance
    (line 325). *)
Definition distanceTraveled (s s' : State) : R :=
  Vector3d.Length (Vector3d.sub (position_of s') (position_of s)).

(** The index is a position of the waypoint list. *)
Definition idx_valid (s : State) : Prop :=
  target_poses_ s <> [] -> (idx_ s < List.length (target_poses_ s))%nat.

(** Two events that differ at most in the components of a velocity sample
    other than [linear.x] and [angular.z]. *)
Inductive event_agree : Event -> Event -> Prop :=
| agree_vel m1 m2 :
    Vector3d.X (linear m1) = Vector3d.X (linear m2) ->
    Vector3d.Z (angular m1) = Vector3d.Z (angular m2) ->
    event_agree (EvVel m1) (EvVel m2)
| agree_other e : event_agree e e.

(** The linear speed and the angular rate the next velocity tick uses: the
    front of [cmd_queue_] if there is one, else the held [target_vel_].  The
    rate is the one read back from the quaternion that holds it. *)
Definition held_linear (s : State) : R :=
  match cmd_queue_ s with
  | [] => Vector3d.X (Pose3d.Pos (target_vel_ s))
  | front :: _ => Vector3d.X front
  end.
Definition held_angular (s : State) : R :=
  match cmd_queue_ s with
  | [] => Quaterniond.EulerZ (Quaterniond.Yaw (Pose3d.Rot (target_vel_ s)))
  | front :: _ => Quaterniond.EulerZ (Vector3d.Z front)
  end.

(** *** The four ways a path tick treats its target *)

(** The guard of line 239 and the state in which it leaves the
    controller. *)
Definition guard_holds (s : State) : Prop :=
  abort_ s = true \/ target_poses_ s = [].

Definition hold_state (s : State) (pose : Pose3d.t) : State :=
  set_idx_ 0%nat
    (set_target_pose_
       (Vector3d.mk (Vector3d.X (Pose3d.Pos pose))
                    (Vector3d.Y (Pose3d.Pos pose))
                    (Vector3d.Z (target_pose_ s)))
       (set_target_poses_ [] s)).

(** [OnUpdate_path_target] as a relation: hold under the guard, go on to the
    next waypoint, stop at the last one, or keep going. *)
Inductive target_case (s : State) (pose : Pose3d.t) (pos : Vector2d.t)
          (distance : R) : State -> Vector2d.t -> Prop :=
| case_hold :
    guard_holds s ->
    target_case s pose pos distance (hold_state s pose) (Vector2d.mk 0 0)
| case_next p :
    abort_ s = false -> target_poses_ s <> [] ->
    distance < lin_tolerance_ s ->
    (idx_ s < List.length (target_poses_ s) - 1)%nat ->
    nth_error (target_poses_ s) (S (idx_ s)) = Some p ->
    target_case s pose pos distance
                (set_target_pose_ p (set_idx_ (S (idx_ s)) s))
                (Vector2d.mk (Vector3d.X p - Vector3d.X (Pose3d.Pos pose))
                             (Vector3d.Y p - Vector3d.Y (Pose3d.Pos pose)))
| case_done :
    abort_ s = false -> target_poses_ s <> [] ->
    distance < lin_tolerance_ s ->
    ~ (idx_ s < List.length (target_poses_ s) - 1)%nat ->
    target_case s pose pos distance
                (set_trajectoryInfo_type STANDING_ANIMATION s)
                (Vector2d.mk 0 0)
| case_keep :
    abort_ s = false -> target_poses_ s <> [] ->
    ~ distance < lin_tolerance_ s ->
    target_case s pose pos distance s pos.

(** *** The motion of a path tick *)

(** The unit direction vector and the angular error a path tick works with:
    [pos] after lines 239-266 and [yaw] after lines 271-275. *)
Definition motion_vector (s : State) : Vector2d.t :=
  match OnUpdate_path_target (set_trajectoryInfo_type WALKING_ANIMATION s)
                             (tick_pose s) (to_target s)
                             (distance_to_target s) with
  | Some (_, pos) => OnUpdate_path_direction pos
  | None => Vector2d.mk 0 0
  end.
Definition angular_error (s : State) : R :=
  OnUpdate_path_yaw s (tick_rpy s) (motion_vector s).

(** [rot_sign] of line 268. *)
Definition rot_sign (yaw : R) : R := if Rlt_dec yaw 0 then -1 else 1.

(** The pose and the odometry record of a path tick, by the test of
    line 280; [OnUpdate_path_fields] below shows that they are the ones
    [OnUpdate] computes. *)
Definition path_tick_pose (s : State) (dt : R) : Pose3d.t :=
  if Rgt_dec (Rabs (angular_error s)) (ang_tolerance_ s) then
    Pose3d.mk (position_of s)
              (Quaterniond.mk
                 (default_rotation_ s) 0
                 (heading_of s
                  + rot_sign (angular_error s) * ang_velocity_ s * dt))
  else
    Pose3d.mk
      (Vector3d.mk
         (Vector3d.X (position_of s)
          + Vector2d.X (motion_vector s) * lin_velocity_ s * dt)
         (Vector3d.Y (position_of s)
          + Vector2d.Y (motion_vector s) * lin_velocity_ s * dt)
         (Vector3d.Z (position_of s)))
      (Quaterniond.mk (default_rotation_ s) 0
                      (heading_of s + angular_error s)).

Definition path_tick_odom (s : State) (dt : R) : Odometry :=
  if Rgt_dec (Rabs (angular_error s)) (ang_tolerance_ s) then
    mkOdometry "map" (Vector3d.X (position_of s))
               (Vector3d.Y (position_of s))
               (setRPY 0 0 (reported_heading s))
               0 0 (Finite (rot_sign (angular_error s) * ang_velocity_ s))
  else
    mkOdometry "map" (Vector3d.X (position_of s))
               (Vector3d.Y (position_of s))
               (setRPY 0 0 (reported_heading s))
               (Vector2d.X (motion_vector s) * lin_velocity_ s)
               (Vector2d.Y (motion_vector s) * lin_velocity_ s)
               (fdiv (angular_error s) dt).

(** Length of the planar vector (x, y). *)
Definition hypot (x y : R) : R := sqrt (x * x + y * y).

(** ** Example configurations *)

(** [IGN_DTOR] of ignition math: degrees to radians. *)
Definition IGN_DTOR (d : R) : R := d * PI / 180.

(** The members after the defaults of [Load], for an actor standing at
    [pose], with the follow mode [mode] and the rotation offset [offset]
    read from the SDF. *)
Definition Load_defaults (mode : string) (offset : R) (pose : Pose3d.t)
  : State :=
  mkState mode (1 / 10) 1 (IGN_DTOR 5) (IGN_DTOR 10) 4 offset
          false 0%nat [] Vector3d.Zero []
          (Pose3d.mk Vector3d.Zero (Quaterniond.mk 0 0 0))
          STANDING_ANIMATION 0 (mkActor pose 0) [].

Definition origin : Pose3d.t :=
  Pose3d.mk Vector3d.Zero (Quaterniond.mk 0 0 0).

Definition both_clips : list string :=
  [WALKING_ANIMATION; STANDING_ANIMATION].

(** An instance of the yaw extraction, right on yaw-only unit
    quaternions. *)
Definition yaw_of_z_w (q : Quaternion) : R := 2 * atan2 (q_z q) (q_w q).

(** A path-following actor at the origin after [Load] and [Reset]. *)
Definition path_actor_loaded : State :=
  set_trajectoryInfo_type
    STANDING_ANIMATION
    (set_target_pose_
       (Vector3d.mk 0 0 0)
       (set_target_poses_
          [Vector3d.mk 0 0 0]
          (set_idx_ 0%nat
                    (set_last_update_ 0 (Load_defaults "path" 0 origin))))).

(** A path-following actor at the origin whose goal has been aborted. *)
Definition aborted_at_origin : State :=
  set_abort_ true (Load_defaults "path" 0 origin).

(** A path message with the single waypoint (10, 0). *)
Definition path_to_10 : Path :=
  mkPath [mkPose (Vector3d.mk 10 0 0) (mkQuaternion 0 0 0 1)].

(** A path-following actor at the origin with heading [yaw]; its target and
    only waypoint is (10, 0); [lin_velocity] and [offset] are read from the
    SDF, the other parameters are the defaults of [Load]. *)
Definition path_state (lin_velocity offset yaw : R) : State :=
  mkState "path" (1 / 10) lin_velocity (IGN_DTOR 5) (IGN_DTOR 10) 4 offset
          false 0%nat [Vector3d.mk 10 0 0] (Vector3d.mk 10 0 0) []
          (Pose3d.mk Vector3d.Zero (Quaterniond.mk 0 0 0))
          STANDING_ANIMATION 0
          (mkActor (Pose3d.mk Vector3d.Zero (Quaterniond.mk offset 0 yaw)) 0)
          [].

(** It faces its target; it faces its target but has no speed; it faces
    1 radian off. *)
Definition walker : State := path_state 1 0 0.
Definition stalled : State := path_state 0 0 0.
Definition turning : State := path_state 1 0 1.

(** Velocity samples: straight ahead at speed 1; two samples that agree on
    [linear.x] and [angular.z] only. *)
Definition unit_forward : Twist :=
  mkTwist (Vector3d.mk 1 0 0) (Vector3d.mk 0 0 0).
Definition sample_x_only : Twist :=
  mkTwist (Vector3d.mk 1 0 0) (Vector3d.mk 0 0 (1 / 2)).
Definition sample_all_axes : Twist :=
  mkTwist (Vector3d.mk 1 7 (-3)) (Vector3d.mk 5 (-2) (1 / 2)).

(** A velocity-following actor that has received no command, and one that
    has received [unit_forward]. *)
Definition idle : State := Load_defaults "velocity" 0 origin.
Definition cruising : State := VelCallback idle unit_forward.

(** ** Further vocabulary *)

(** The number of world-update events of a run. *)
Fixpoint count_updates (es : list Event) : nat :=
  match es with
  | [] => 0
  | EvUpdate _ :: es => S (count_updates es)
  | _ :: es => count_updates es
  end.

(** The number of velocity samples of a run. *)
Fixpoint count_samples (es : list Event) : nat :=
  match es with
  | [] => 0
  | EvVel _ :: es => S (count_samples es)
  | _ :: es => count_samples es
  end.

(** The configuration that [Load] reads from the SDF. *)
Definition same_parameters (s s' : State) : Prop :=
  follow_mode_ s' = follow_mode_ s /\
  lin_tolerance_ s' = lin_tolerance_ s /\
  lin_velocity_ s' = lin_velocity_ s /\
  ang_tolerance_ s' = ang_tolerance_ s /\
  ang_velocity_ s' = ang_velocity_ s /\
  animation_factor_ s' = animation_factor_ s /\
  default_rotation_ s' = default_rotation_ s.

(** A unit quaternion about the z axis. *)
Definition unit_yaw_only (q : Quaternion) : Prop :=
  q_x q = 0 /\ q_y q = 0 /\ q_z q * q_z q + q_w q * q_w q = 1.

(** The vector [VelCallback] pushes for a sample. *)
Definition vel_cmd_of (msg : Twist) : Vector3d.t :=
  Vector3d.mk (Vector3d.X (linear msg)) 0 (Vector3d.Z (angular msg)).

(** The vectors pushed by the velocity samples of a run, in order, and the
    run without its velocity samples. *)
Fixpoint samples (es : list Event) : list Vector3d.t :=
  match es with
  | [] => []
  | EvVel msg :: es => vel_cmd_of msg :: samples es
  | _ :: es => samples es
  end.

Fixpoint without_samples (es : list Event) : list Event :=
  match es with
  | [] => []
  | EvVel _ :: es => without_samples es
  | e :: es => e :: without_samples es
  end.

(** The part of the state that path and abort commands write, and that the
    path branch of the tick owns. *)
Definition set_goal (a : bool) (i : nat) (l : list Vector3d.t)
           (p : Vector3d.t) (s : State) : State :=
  set_abort_ a (set_idx_ i (set_target_poses_ l (set_target_pose_ p s))).

(** The run without its path and abort commands. *)
Fixpoint without_goals (es : list Event) : list Event :=
  match es with
  | [] => []
  | EvPath _ :: es => without_goals es
  | EvAbort _ :: es => without_goals es
  | e :: es => e :: without_goals es
  end.

(** Simulation times that do not go back: each is at least the one before,
    the first at least [t0]. *)
Fixpoint nondecreasing_from (t0 : R) (times : list R) : Prop :=
  match times with
  | [] => True
  | t :: times => t0 <= t /\ nondecreasing_from t times
  end.

(** ** [Load] *)

Definition set_follow_mode_ (v : string) (s : State) : State :=
  mkState v (lin_tolerance_ s) (lin_velocity_ s)
          (ang_tolerance_ s) (ang_velocity_ s) (animation_factor_ s)
          (default_rotation_ s) (abort_ s) (idx_ s) (target_poses_ s)
          (target_pose_ s) (cmd_queue_ s) (target_vel_ s)
          (trajectoryInfo_type s) (last_update_ s) (actor_ s) (actor_pub_ s).
Definition set_lin_tolerance_ (v : R) (s : State) : State :=
  mkState (follow_mode_ s) v (lin_velocity_ s)
          (ang_tolerance_ s) (ang_velocity_ s) (animation_factor_ s)
          (default_rotation_ s) (abort_ s) (idx_ s) (target_poses_ s)
          (target_pose_ s) (cmd_queue_ s) (target_vel_ s)
          (trajectoryInfo_type s) (last_update_ s) (actor_ s) (actor_pub_ s).
Definition set_lin_velocity_ (v : R) (s : State) : State :=
  mkState (follow_mode_ s) (lin_tolerance_ s) v
          (ang_tolerance_ s) (ang_velocity_ s) (animation_factor_ s)
          (default_rotation_ s) (abort_ s) (idx_ s) (target_poses_ s)
          (target_pose_ s) (cmd_queue_ s) (target_vel_ s)
          (trajectoryInfo_type s) (last_update_ s) (actor_ s) (actor_pub_ s).
Definition set_ang_tolerance_ (v : R) (s : State) : State :=
  mkState (follow_mode_ s) (lin_tolerance_ s) (lin_velocity_ s)
          v (ang_velocity_ s) (animation_factor_ s)
          (default_rotation_ s) (abort_ s) (idx_ s) (target_poses_ s)
          (target_pose_ s) (cmd_queue_ s) (target_vel_ s)
          (trajectoryInfo_type s) (last_update_ s) (actor_ s) (actor_pub_ s).
Definition set_ang_velocity_ (v : R) (s : State) : State :=
  mkState (follow_mode_ s) (lin_tolerance_ s) (lin_velocity_ s)
          (ang_tolerance_ s) v (animation_factor_ s)
          (default_rotation_ s) (abort_ s) (idx_ s) (target_poses_ s)
          (target_pose_ s) (cmd_queue_ s) (target_vel_ s)
          (trajectoryInfo_type s) (last_update_ s) (actor_ s) (actor_pub_ s).
Definition set_animation_factor_ (v : R) (s : State) : State :=
  mkState (follow_mode_ s) (lin_tolerance_ s) (lin_velocity_ s)
          (ang_tolerance_ s) (ang_velocity_ s) v
          (default_rotation_ s) (abort_ s) (idx_ s) (target_poses_ s)
          (target_pose_ s) (cmd_queue_ s) (target_vel_ s)
          (trajectoryInfo_type s) (last_update_ s) (actor_ s) (actor_pub_ s).
Definition set_default_rotation_ (v : R) (s : State) : State :=
  mkState (follow_mode_ s) (lin_tolerance_ s) (lin_velocity_ s)
          (ang_tolerance_ s) (ang_velocity_ s) (animation_factor_ s)
          v (abort_ s) (idx_ s) (target_poses_ s)
          (target_pose_ s) (cmd_queue_ s) (target_vel_ s)
          (trajectoryInfo_type s) (last_update_ s) (actor_ s) (actor_pub_ s).

(** The elements of the plugin's SDF that configure the controller: a field
    is [Some v] when [_sdf->HasElement] finds the element and [_sdf->Get]
    reads [v] from it.  The three topic names only name the subscriptions
    and are left out. *)
Record SDF : Type :=
  mkSDF {
      sdf_follow_mode : option string;
      sdf_linear_tolerance : option R;
      sdf_linear_velocity : option R;
      sdf_angular_tolerance : option R;
      sdf_angular_velocity : option R;
      sdf_animation_factor : option R;
      sdf_default_rotation : option R
    }.

(** One [if (_sdf->HasElement(..)) member = _sdf->Get(..)] of [Load]. *)
Definition override {A : Type} (element : option A)
           (set : A -> State -> State) (s : State) : State :=
  match element with
  | Some v => set v s
  | None => s
  end.

(** [GazeboRosActorCommand::Load] on the members of the controller:
    [ros_isInitialized] is [ros::isInitialized()], [_model] the actor the
    plugin is attached to and [skelAnims] the names of its skeleton
    animations.  The subscriptions, the queue threads and the connection of
    [OnUpdate] to the world-update event are what delivers the events of a
    run.  [None] when [at] throws. *)
Definition Load (ros_isInitialized : bool) (_model : Actor)
           (skelAnims : list string) (_sdf : SDF) (s : State)
  : option State :=
  let s := set_follow_mode_ "velocity" s in
  let s := set_lin_tolerance_ (1 / 10) s in
  let s := set_lin_velocity_ 1 s in
  let s := set_ang_tolerance_ (IGN_DTOR 5) s in
  let s := set_ang_velocity_ (IGN_DTOR 10) s in
  let s := set_animation_factor_ 4 s in
  let s := set_abort_ false s in
  let s := override (sdf_follow_mode _sdf) set_follow_mode_ s in
  let s := override (sdf_linear_tolerance _sdf) set_lin_tolerance_ s in
  let s := override (sdf_linear_velocity _sdf) set_lin_velocity_ s in
  let s := override (sdf_angular_tolerance _sdf) set_ang_tolerance_ s in
  let s := override (sdf_angular_velocity _sdf) set_ang_velocity_ s in
  let s := override (sdf_animation_factor _sdf) set_animation_factor_ s in
  let s := override (sdf_default_rotation _sdf) set_default_rotation_ s in
  if negb ros_isInitialized then Some s
  else
    let s := set_actor_ _model s in
    Reset skelAnims s.

(** The value a parameter has after [Load]. *)
Definition configured {A : Type} (element : option A) (default : A) : A :=
  match element with
  | Some v => v
  | None => default
  end.

(** The target [Reset] computes from the pose of an actor. *)
Definition pose_target (a : Actor) : Vector3d.t :=
  Vector3d.mk (Vector3d.X (Pose3d.Pos (WorldPose a)))
              (Vector3d.Y (Pose3d.Pos (WorldPose a)))
              (Quaterniond.Yaw (Pose3d.Rot (WorldPose a))).

(** ** Further example configurations *)

(** The walker of above after an abort command. *)
Definition aborted_walker : State := set_abort_ true walker.

(** A path-following actor at the origin, at the first of the two waypoints
    (0, 0) and (10, 0). *)
Definition at_first_of_two : State :=
  mkState "path" (1 / 10) 1 (IGN_DTOR 5) (IGN_DTOR 10) 4 0
          false 0%nat [Vector3d.mk 0 0 0; Vector3d.mk 10 0 0]
          (Vector3d.mk 0 0 0) []
          (Pose3d.mk Vector3d.Zero (Quaterniond.mk 0 0 0))
          STANDING_ANIMATION 0 (mkActor origin 0) [].

(** An aborted path-following actor configured with the angular tolerance
    -1. *)
Definition spinner : State :=
  mkState "path" (1 / 10) 1 (-1) (IGN_DTOR 10) 4 0
          true 0%nat [] Vector3d.Zero []
          (Pose3d.mk Vector3d.Zero (Quaterniond.mk 0 0 0))
          STANDING_ANIMATION 0 (mkActor origin 0) [].

(** An actor whose SDF names a follow mode the plugin does not know. *)
Definition misconfigured : State := Load_defaults "waypoints" 0 origin.

(** A path message with the waypoints (5, 0) and (10, 0). *)
Definition path_via_5 : Path :=
  mkPath [mkPose (Vector3d.mk 5 0 0) (mkQuaternion 0 0 0 1);
          mkPose (Vector3d.mk 10 0 0) (mkQuaternion 0 0 0 1)].

(** An SDF that only selects the follow mode "path". *)
Definition sdf_path_only : SDF :=
  mkSDF (Some "path"%string) None None None None None None.

(** Runs used as examples. *)
Definition samples_between_ticks : list Event :=
  [EvVel unit_forward; EvUpdate 1; EvVel sample_x_only; EvUpdate 2].
Definition goals_between_ticks : list Event :=
  [EvPath path_to_10; EvVel unit_forward; EvUpdate 1; EvAbort true;
   EvUpdate 2].

(** * Properties *)

(** ** Real arithmetic and trigonometry *)

Lemma Length_zero : Vector2d.Length (Vector2d.mk 0 0) = 0.
Proof.
  unfold Vector2d.Length. cbn.
  replace (0 * 0 + 0 * 0) with 0 by ring. apply sqrt_0.
Qed.

Lemma Length_nonneg (pos : Vector2d.t) : 0 <= Vector2d.Length pos.
Proof. apply sqrt_pos. Qed.

Lemma zero_vector_of_components (u : Vector2d.t) :
  Vector2d.X u = 0 -> Vector2d.Y u = 0 -> Vector2d.Length u = 0.
Proof.
  intros Hx Hy. unfold Vector2d.Length. rewrite Hx, Hy.
  replace (0 * 0 + 0 * 0) with 0 by ring. apply sqrt_0.
Qed.

Lemma Length_zero_components (u : Vector2d.t) :
  Vector2d.Length u = 0 -> Vector2d.X u = 0 /\ Vector2d.Y u = 0.
Proof.
  intros H. unfold Vector2d.Length in H.
  apply sqrt_eq_0 in H; [|nra].
  split; nra.
Qed.

Lemma Length_div (pos : Vector2d.t) :
  Vector2d.Length pos <> 0 ->
  Vector2d.Length (Vector2d.div pos (Vector2d.Length pos)) = 1.
Proof.
  intros H. pose proof (Length_nonneg pos) as Hp.
  unfold Vector2d.div, Vector2d.Length at 1. cbn.
  set (d := Vector2d.Length pos) in *.
  replace (Vector2d.X pos / d * (Vector2d.X pos / d)
           + Vector2d.Y pos / d * (Vector2d.Y pos / d))
    with ((Vector2d.X pos * Vector2d.X pos
           + Vector2d.Y pos * Vector2d.Y pos) / (d * d))
    by (field; exact H).
  replace (Vector2d.X pos * Vector2d.X pos + Vector2d.Y pos * Vector2d.Y pos)
    with (d * d).
  - replace (d * d / (d * d)) with 1 by (field; exact H). apply sqrt_1.
  - unfold d, Vector2d.Length. apply sqrt_sqrt. nra.
Qed.

Lemma Length3_self (p : Vector3d.t) :
  Vector3d.Length (Vector3d.sub p p) = 0.
Proof.
  unfold Vector3d.Length, Vector3d.sub. cbn.
  match goal with |- sqrt ?e = 0 => replace e with 0 by ring end.
  apply sqrt_0.
Qed.

Lemma Vector3d_eta (p : Vector3d.t) x y :
  x = Vector3d.X p -> y = Vector3d.Y p ->
  Vector3d.mk x y (Vector3d.Z p) = p.
Proof. intros -> ->. destruct p. reflexivity. Qed.

Lemma moved_sq (dx dy d k : R) :
  d <> 0 -> d * d = dx * dx + dy * dy ->
  (dx - dx / d * k) * (dx - dx / d * k)
  + (dy - dy / d * k) * (dy - dy / d * k)
  = (d - k)².
Proof.
  intros Hd H.
  transitivity ((dx * dx + dy * dy) * ((1 - k / d) * (1 - k / d))).
  - field. exact Hd.
  - rewrite <- H. unfold Rsqr. field. exact Hd.
Qed.

Lemma last_cons (l : list R) :
  forall a d, last (a :: l) d = last l a.
Proof.
  induction l as [|b l IH]; intros a d; [reflexivity|].
  change (last (a :: b :: l) d) with (last (b :: l) d).
  rewrite (IH b d), (IH b a). reflexivity.
Qed.

Lemma hypot_pos x y : x <> 0 \/ y <> 0 -> 0 < hypot x y.
Proof.
  intros H. apply sqrt_lt_R0. destruct H; nra.
Qed.

Lemma hypot_sqr x y : hypot x y * hypot x y = x * x + y * y.
Proof. apply sqrt_sqrt. nra. Qed.

Lemma hypot_ratio x y :
  x <> 0 -> sqrt (1 + (y / x)²) = hypot x y / Rabs x.
Proof.
  intros Hx.
  assert (Ha : 0 < Rabs x) by (apply Rabs_pos_lt; exact Hx).
  assert (Hs : sqrt (1 + (y / x)²) * Rabs x = hypot x y).
  { rewrite <- (sqrt_Rsqr_abs x), <- sqrt_mult.
    - unfold hypot. f_equal. unfold Rsqr. field. exact Hx.
    - unfold Rsqr. nra.
    - apply Rle_0_sqr. }
  rewrite <- Hs. field. lra.
Qed.

Lemma atan2_cos_sin x y :
  x <> 0 \/ y <> 0 ->
  cos (atan2 y x) = x / hypot x y /\ sin (atan2 y x) = y / hypot x y.
Proof.
  intros H. pose proof (hypot_pos x y H) as Hr.
  unfold atan2.
  destruct (Rlt_dec 0 x) as [Hx | Hx].
  - rewrite cos_atan, sin_atan, hypot_ratio by lra.
    rewrite Rabs_right by lra. split; field; lra.
  - destruct (Rlt_dec x 0) as [Hx' | Hx'].
    + assert (Hc : cos (atan (y / x)) = - x / hypot x y).
      { rewrite cos_atan, hypot_ratio by lra.
        rewrite Rabs_left by lra. field; lra. }
      assert (Hs : sin (atan (y / x)) = - y / hypot x y).
      { rewrite sin_atan, hypot_ratio by lra.
        rewrite Rabs_left by lra. field; lra. }
      destruct (Rle_dec 0 y).
      * rewrite neg_cos, neg_sin, Hc, Hs. split; field; lra.
      * unfold Rminus. rewrite cos_plus, sin_plus, cos_neg, sin_neg.
        rewrite cos_PI, sin_PI, Hc, Hs. split; field; lra.
    + assert (x = 0) by lra. subst x.
      assert (Hy : y <> 0) by (destruct H; [lra | assumption]).
      assert (Hh : hypot 0 y = Rabs y).
      { unfold hypot. replace (0 * 0 + y * y) with (y²) by (unfold Rsqr; ring).
        apply sqrt_Rsqr_abs. }
      rewrite Hh.
      destruct (Rlt_dec 0 y).
      * rewrite cos_PI2, sin_PI2, Rabs_right by lra. split; field; lra.
      * destruct (Rlt_dec y 0); [|lra].
        rewrite cos_neg, sin_neg, cos_PI2, sin_PI2, Rabs_left by lra.
        split; field; lra.
Qed.

Lemma atan2_east : forall x y, x = 1 -> y = 0 -> atan2 y x = 0.
Proof.
  intros x y -> ->. unfold atan2.
  destruct (Rlt_dec 0 1); [|lra].
  replace (0 / 1) with 0 by field. apply atan_0.
Qed.

Lemma Normalize_cos_sin a :
  cos (Normalize a) = cos a /\ sin (Normalize a) = sin a.
Proof.
  unfold Normalize.
  assert (H1 : hypot (cos a) (sin a) = 1).
  { unfold hypot. replace (cos a * cos a + sin a * sin a) with 1.
    - apply sqrt_1.
    - pose proof (sin2_cos2 a) as H. unfold Rsqr in H. lra. }
  assert (H : cos a <> 0 \/ sin a <> 0).
  { pose proof (sin2_cos2 a) as H. unfold Rsqr in H.
    destruct (Req_dec (cos a) 0) as [E | E]; [right | left; exact E].
    intros E'. rewrite E, E' in H. lra. }
  destruct (atan2_cos_sin (cos a) (sin a) H) as [Hc Hs].
  rewrite Hc, Hs, H1. split; field.
Qed.

Lemma Normalize_small a :
  - (PI / 2) < a < PI / 2 -> Normalize a = a.
Proof.
  intros H. unfold Normalize, atan2.
  assert (Hc : 0 < cos a) by (apply cos_gt_0; lra).
  destruct (Rlt_dec 0 (cos a)); [|lra].
  change (sin a / cos a) with (tan a). apply atan_tan. exact H.
Qed.

(** The yaw read back from [Quaterniond(0, 0, yaw)] is the yaw wrapped into
    (-PI, PI]. *)
Lemma EulerZ_Normalize (yaw : R) : Quaterniond.EulerZ yaw = Normalize yaw.
Proof.
  unfold Quaterniond.EulerZ, Normalize. cbv zeta.
  assert (Hs : sin yaw = 2 * sin (yaw / 2) * cos (yaw / 2)).
  { rewrite <- sin_2a. f_equal. field. }
  assert (Hc : cos yaw
               = cos (yaw / 2) * cos (yaw / 2) - sin (yaw / 2) * sin (yaw / 2)).
  { rewrite <- cos_2a. f_equal. field. }
  rewrite Hs, Hc. f_equal; ring.
Qed.

Lemma EulerZ_small (yaw : R) :
  - (PI / 2) < yaw < PI / 2 -> Quaterniond.EulerZ yaw = yaw.
Proof. intros H. rewrite EulerZ_Normalize. apply Normalize_small. exact H. Qed.

Lemma EulerZ_0 : Quaterniond.EulerZ 0 = 0.
Proof. apply EulerZ_small. pose proof PI2_RGT_0. lra. Qed.

Lemma setRPY_yaw_only (yaw : R) :
  setRPY 0 0 yaw = mkQuaternion 0 0 (sin (yaw / 2)) (cos (yaw / 2)).
Proof.
  unfold setRPY. cbv zeta.
  replace (0 * (1 / 2)) with 0 by lra.
  replace (yaw * (1 / 2)) with (yaw / 2) by lra.
  rewrite sin_0, cos_0. f_equal; ring.
Qed.

Lemma IGN_DTOR_5_bounds : 0 < IGN_DTOR 5 < 1.
Proof.
  unfold IGN_DTOR. pose proof PI_RGT_0. pose proof PI_4. lra.
Qed.

(** ** The choice of the target (lines 239-261) *)

Lemma guard_holds_dec (s : State) :
  {guard_holds s} + {abort_ s = false /\ target_poses_ s <> []}.
Proof.
  unfold guard_holds.
  destruct (abort_ s); [left; left; reflexivity|].
  destruct (target_poses_ s); [left; right; reflexivity|].
  right; split; [reflexivity | discriminate].
Qed.

Lemma guard_test (s : State) :
  abort_ s || (match target_poses_ s with [] => true | _ => false end) = true
  <-> guard_holds s.
Proof.
  unfold guard_holds.
  destruct (abort_ s), (target_poses_ s); simpl; split; intros H;
    try tauto; destruct H; discriminate.
Qed.

Lemma at_next_in_bounds (s : State) :
  (idx_ s < List.length (target_poses_ s) - 1)%nat ->
  exists p, nth_error (target_poses_ s) (S (idx_ s)) = Some p.
Proof.
  intros H.
  destruct (nth_error (target_poses_ s) (S (idx_ s))) eqn:E; [eauto|].
  apply nth_error_None in E. lia.
Qed.

Lemma ChooseNewTarget_eq (s : State) :
  ChooseNewTarget s
  = match nth_error (target_poses_ s) (S (idx_ s)) with
    | Some p => Some (set_target_pose_ p (set_idx_ (S (idx_ s)) s))
    | None => None
    end.
Proof. reflexivity. Qed.

Lemma ChooseNewTarget_in_bounds (s : State) :
  (idx_ s < List.length (target_poses_ s) - 1)%nat ->
  exists p,
    nth_error (target_poses_ s) (S (idx_ s)) = Some p /\
    ChooseNewTarget s = Some (set_target_pose_ p (set_idx_ (S (idx_ s)) s)).
Proof.
  intros H. destruct (at_next_in_bounds s H) as [p Hp].
  exists p. split; [exact Hp|].
  rewrite ChooseNewTarget_eq, Hp. reflexivity.
Qed.

Lemma OnUpdate_path_target_case (s : State) pose pos distance :
  exists s1 pos1,
    OnUpdate_path_target s pose pos distance = Some (s1, pos1) /\
    target_case s pose pos distance s1 pos1.
Proof.
  unfold OnUpdate_path_target.
  destruct (guard_holds_dec s) as [Hg | [Ha Hl]].
  - apply guard_test in Hg as Hb. rewrite Hb.
    eexists _, _. split; [reflexivity|].
    apply case_hold. exact Hg.
  - assert (Hb : abort_ s
                 || (match target_poses_ s with [] => true | _ => false end)
                 = false).
    { rewrite Ha. destruct (target_poses_ s); [congruence | reflexivity]. }
    rewrite Hb.
    destruct (Rlt_dec distance (lin_tolerance_ s)) as [Hd | Hd].
    + destruct (Nat.ltb_spec (idx_ s) (List.length (target_poses_ s) - 1))
        as [Hi | Hi].
      * destruct (ChooseNewTarget_in_bounds s Hi) as [p [Hp Hc]].
        rewrite Hc. eexists _, _. split; [reflexivity|].
        cbn. now apply case_next.
      * eexists _, _. split; [reflexivity|].
        apply case_done; auto. lia.
    + eexists _, _. split; [reflexivity|]. now apply case_keep.
Qed.

Lemma OnUpdate_path_target_keep (s : State) pose pos d :
  abort_ s = false -> target_poses_ s <> [] -> ~ d < lin_tolerance_ s ->
  OnUpdate_path_target s pose pos d = Some (s, pos).
Proof.
  intros Ha Hl Hd. unfold OnUpdate_path_target. rewrite Ha.
  destruct (target_poses_ s); [congruence|]. cbn [orb].
  destruct (Rlt_dec d (lin_tolerance_ s)); [tauto | reflexivity].
Qed.

Lemma OnUpdate_path_target_done (s : State) pose pos d :
  abort_ s = false -> target_poses_ s <> [] -> d < lin_tolerance_ s ->
  ~ (idx_ s < List.length (target_poses_ s) - 1)%nat ->
  OnUpdate_path_target s pose pos d
  = Some (set_trajectoryInfo_type STANDING_ANIMATION s, Vector2d.mk 0 0).
Proof.
  intros Ha Hl Hd Hi. unfold OnUpdate_path_target. rewrite Ha.
  destruct (target_poses_ s) as [|p l] eqn:E; [congruence|]. cbn [orb].
  destruct (Rlt_dec d (lin_tolerance_ s)); [|tauto].
  destruct (Nat.ltb_spec (idx_ s) (List.length (p :: l) - 1));
    [tauto | reflexivity].
Qed.

Lemma OnUpdate_path_target_hold (s : State) pose pos d :
  guard_holds s ->
  OnUpdate_path_target s pose pos d
  = Some (hold_state s pose, Vector2d.mk 0 0).
Proof.
  intros Hg. unfold OnUpdate_path_target.
  apply guard_test in Hg. rewrite Hg. reflexivity.
Qed.

Lemma target_case_guard (s : State) pose pos d s1 pos1 :
  guard_holds s ->
  target_case s pose pos d s1 pos1 ->
  s1 = hold_state s pose /\ pos1 = Vector2d.mk 0 0.
Proof.
  intros Hg C. destruct C as [_ | p Ha Hl | Ha Hl | Ha Hl]; [auto | | |];
    destruct Hg as [Hg | Hg]; congruence.
Qed.

Lemma target_case_keep_inv (s : State) pose pos d s1 pos1 :
  abort_ s = false -> target_poses_ s <> [] -> ~ d < lin_tolerance_ s ->
  target_case s pose pos d s1 pos1 -> s1 = s /\ pos1 = pos.
Proof.
  intros Ha Hl Hd C.
  destruct C as [Hg | p Ha' Hl' Hd' Hi Hp | Ha' Hl' Hd' Hi | Ha' Hl' Hd'];
    try tauto; destruct Hg; congruence.
Qed.

Lemma target_case_done_inv (s : State) pose pos d s1 pos1 :
  abort_ s = false -> target_poses_ s <> [] -> d < lin_tolerance_ s ->
  ~ (idx_ s < List.length (target_poses_ s) - 1)%nat ->
  target_case s pose pos d s1 pos1 ->
  s1 = set_trajectoryInfo_type STANDING_ANIMATION s /\
  pos1 = Vector2d.mk 0 0.
Proof.
  intros Ha Hl Hd Hi C.
  destruct C as [Hg | p Ha' Hl' Hd' Hi' Hp | Ha' Hl' Hd' Hi' | Ha' Hl' Hd'];
    try tauto; destruct Hg; congruence.
Qed.

Lemma target_case_next_inv (s : State) pose pos d s1 pos1 :
  abort_ s = false -> target_poses_ s <> [] -> d < lin_tolerance_ s ->
  (idx_ s < List.length (target_poses_ s) - 1)%nat ->
  target_case s pose pos d s1 pos1 ->
  trajectoryInfo_type s1 = trajectoryInfo_type s.
Proof.
  intros Ha Hl Hd Hi C.
  destruct C as [Hg | p Ha' Hl' Hd' Hi' Hp | Ha' Hl' Hd' Hi' | Ha' Hl' Hd'];
    try tauto; try reflexivity; destruct Hg; congruence.
Qed.

Lemma target_case_params (s : State) pose pos d s1 pos1 :
  target_case s pose pos d s1 pos1 ->
  follow_mode_ s1 = follow_mode_ s /\
  lin_tolerance_ s1 = lin_tolerance_ s /\
  lin_velocity_ s1 = lin_velocity_ s /\
  ang_tolerance_ s1 = ang_tolerance_ s /\
  ang_velocity_ s1 = ang_velocity_ s /\
  animation_factor_ s1 = animation_factor_ s /\
  default_rotation_ s1 = default_rotation_ s /\
  abort_ s1 = abort_ s /\
  actor_ s1 = actor_ s /\
  actor_pub_ s1 = actor_pub_ s.
Proof. intros C. destruct C; cbn; auto 12. Qed.

Lemma target_case_vector (s : State) pose s1 pos1 :
  target_case s pose
              (Vector2d.sub
                 (Vector2d.mk (Vector3d.X (target_pose_ s))
                              (Vector3d.Y (target_pose_ s)))
                 (Vector2d.mk (Vector3d.X (Pose3d.Pos pose))
                              (Vector3d.Y (Pose3d.Pos pose))))
              (Vector2d.Length
                 (Vector2d.sub
                    (Vector2d.mk (Vector3d.X (target_pose_ s))
                                 (Vector3d.Y (target_pose_ s)))
                    (Vector2d.mk (Vector3d.X (Pose3d.Pos pose))
                                 (Vector3d.Y (Pose3d.Pos pose)))))
              s1 pos1 ->
  Vector2d.Length pos1 <> 0 ->
  abort_ s = false /\ target_poses_ s <> [] /\
  Vector2d.X pos1 = Vector3d.X (target_pose_ s1) - Vector3d.X (Pose3d.Pos pose) /\
  Vector2d.Y pos1 = Vector3d.Y (target_pose_ s1) - Vector3d.Y (Pose3d.Pos pose).
Proof.
  intros C H.
  inversion C as [Hg E1 E2 | p Ha Hl Hd Hi Hp E1 E2 | Ha Hl Hd Hi E1 E2
                  | Ha Hl Hd E1 E2]; subst.
  - destruct (H Length_zero).
  - cbn. auto.
  - destruct (H Length_zero).
  - cbn. auto.
Qed.

Lemma target_case_idx_valid (s : State) pose pos d s1 pos1 :
  idx_valid s ->
  target_case s pose pos d s1 pos1 ->
  idx_valid s1.
Proof.
  intros Hv C. destruct C as [Hg | p Ha Hl Hd Hi Hp | Ha Hl Hd Hi | Ha Hl Hd].
  - intros H. cbn in H. congruence.
  - intros _. cbn. lia.
  - exact Hv.
  - exact Hv.
Qed.

(** ** Direction, angular error and steering (lines 263-294) *)

Lemma direction_zero :
  OnUpdate_path_direction (Vector2d.mk 0 0) = Vector2d.mk 0 0.
Proof.
  unfold OnUpdate_path_direction.
  destruct (Req_dec_T (Vector2d.Length (Vector2d.mk 0 0)) 0) as [_ | H];
    [reflexivity | destruct (H Length_zero)].
Qed.

Lemma direction_nonzero (pos : Vector2d.t) :
  Vector2d.Length pos <> 0 ->
  OnUpdate_path_direction pos = Vector2d.div pos (Vector2d.Length pos).
Proof.
  intros H. unfold OnUpdate_path_direction.
  destruct (Req_dec_T (Vector2d.Length pos) 0); [tauto | reflexivity].
Qed.

(** The direction is the zero vector or a unit vector. *)
Lemma Length_direction (pos : Vector2d.t) :
  Vector2d.Length (OnUpdate_path_direction pos) <> 0 ->
  Vector2d.Length pos <> 0 /\
  Vector2d.Length (OnUpdate_path_direction pos) = 1.
Proof.
  intros H. unfold OnUpdate_path_direction in *.
  destruct (Req_dec_T (Vector2d.Length pos) 0) as [E | E]; [tauto|].
  split; [exact E | apply Length_div; exact E].
Qed.

Lemma yaw_zero (s : State) rpy :
  OnUpdate_path_yaw s rpy (Vector2d.mk 0 0) = 0.
Proof.
  unfold OnUpdate_path_yaw.
  destruct (Req_dec_T (Vector2d.Length (Vector2d.mk 0 0)) 0) as [_ | H];
    [reflexivity | destruct (H Length_zero)].
Qed.

(** The heading that the move branch sets, seen through the rotation offset,
    points along the unit direction vector. *)
Lemma snapped_heading_is_bearing (s : State) rpy (u : Vector2d.t) :
  Vector2d.Length u = 1 ->
  let yaw := OnUpdate_path_yaw s rpy u in
  cos (Vector3d.Z rpy + yaw - default_rotation_ s) = Vector2d.X u /\
  sin (Vector3d.Z rpy + yaw - default_rotation_ s) = Vector2d.Y u.
Proof.
  intros Hu yaw. unfold yaw, OnUpdate_path_yaw.
  destruct (Req_dec_T (Vector2d.Length u) 0) as [E | _]; [lra|].
  set (b := atan2 (Vector2d.Y u) (Vector2d.X u)).
  set (a := b + default_rotation_ s - Vector3d.Z rpy).
  destruct (Normalize_cos_sin a) as [Hc Hs].
  assert (Hb : cos b = Vector2d.X u /\ sin b = Vector2d.Y u).
  { assert (Hn : Vector2d.X u <> 0 \/ Vector2d.Y u <> 0).
    { destruct (Req_dec (Vector2d.X u) 0) as [Ex | Ex]; [|left; exact Ex].
      right. intros Ey. unfold Vector2d.Length in Hu.
      rewrite Ex, Ey in Hu.
      replace (0 * 0 + 0 * 0) with 0 in Hu by ring.
      rewrite sqrt_0 in Hu. lra. }
    destruct (atan2_cos_sin _ _ Hn) as [H1 H2].
    change (hypot (Vector2d.X u) (Vector2d.Y u))
      with (Vector2d.Length u) in H1, H2.
    rewrite Hu in H1, H2. fold b in H1, H2.
    rewrite H1, H2. split; field. }
  replace (Vector3d.Z rpy + Normalize a - default_rotation_ s)
    with ((Vector3d.Z rpy - default_rotation_ s) + Normalize a) by ring.
  rewrite cos_plus, sin_plus, Hc, Hs, <- cos_plus, <- sin_plus.
  replace (Vector3d.Z rpy - default_rotation_ s + a) with b
    by (unfold a; ring).
  exact Hb.
Qed.

(** The steering step leaves the position alone when it turns, and the
    heading is the only thing it turns. *)
Lemma steer_turn (s : State) dt rpy pos yaw pose odom :
  Rabs yaw > ang_tolerance_ s ->
  OnUpdate_path_steer s dt rpy pos yaw pose odom
  = (Pose3d.set_Rot
       (Quaterniond.mk
          (default_rotation_ s) 0
          (Vector3d.Z rpy
           + (if Rlt_dec yaw 0 then -1 else 1) * ang_velocity_ s * dt))
       pose,
     set_twist_angular_z
       (Finite ((if Rlt_dec yaw 0 then -1 else 1) * ang_velocity_ s)) odom).
Proof.
  intros H. unfold OnUpdate_path_steer.
  destruct (Rgt_dec (Rabs yaw) (ang_tolerance_ s)); [reflexivity | tauto].
Qed.

Lemma steer_move (s : State) dt rpy pos yaw pose odom :
  ~ Rabs yaw > ang_tolerance_ s ->
  OnUpdate_path_steer s dt rpy pos yaw pose odom
  = (Pose3d.mk
       (Vector3d.mk
          (Vector3d.X (Pose3d.Pos pose) + Vector2d.X pos * lin_velocity_ s * dt)
          (Vector3d.Y (Pose3d.Pos pose) + Vector2d.Y pos * lin_velocity_ s * dt)
          (Vector3d.Z (Pose3d.Pos pose)))
       (Quaterniond.mk (default_rotation_ s) 0 (Vector3d.Z rpy + yaw)),
     mkOdometry (frame_id odom) (pose_position_x odom) (pose_position_y odom)
                (pose_orientation odom)
                (Vector2d.X pos * lin_velocity_ s)
                (Vector2d.Y pos * lin_velocity_ s)
                (fdiv yaw dt)).
Proof.
  intros H. unfold OnUpdate_path_steer.
  destruct (Rgt_dec (Rabs yaw) (ang_tolerance_ s)); [tauto | reflexivity].
Qed.

(** With a zero motion vector the steering step keeps the position, whatever
    the tolerances, the speeds and the elapsed time. *)
Lemma steer_zero_position (s : State) dt rpy pose odom :
  Pose3d.Pos
    (fst (OnUpdate_path_steer
            s dt rpy (OnUpdate_path_direction (Vector2d.mk 0 0))
            (OnUpdate_path_yaw s rpy
                               (OnUpdate_path_direction (Vector2d.mk 0 0)))
            pose odom))
  = Pose3d.Pos pose.
Proof.
  rewrite direction_zero, yaw_zero.
  destruct (Rgt_dec (Rabs 0) (ang_tolerance_ s)) as [H | H].
  - rewrite (steer_turn _ _ _ _ _ _ _ H). reflexivity.
  - rewrite (steer_move _ _ _ _ _ _ _ H). cbn.
    apply Vector3d_eta; ring.
Qed.

(** ** No tick throws *)

(** The path branch never throws. *)
Lemma OnUpdate_path_total (s : State) dt rpy pose odom :
  exists s1 pose1 odom1,
    OnUpdate_path s dt rpy pose odom = Some (s1, pose1, odom1).
Proof.
  unfold OnUpdate_path.
  match goal with
  | |- context [OnUpdate_path_target ?a ?b ?c ?d] =>
      destruct (OnUpdate_path_target_case a b c d) as [s1 [p1 [E _]]];
      rewrite E
  end.
  match goal with
  | |- context [OnUpdate_path_steer ?a ?b ?c ?d ?e ?f ?g] =>
      destruct (OnUpdate_path_steer a b c d e f g) as [q o]
  end.
  eauto.
Qed.

(** No tick throws, in any state. *)
Lemma OnUpdate_total (s : State) (simTime : R) :
  exists s', OnUpdate s simTime = Some s'.
Proof.
  unfold OnUpdate.
  destruct (String.eqb (follow_mode_ s) "path").
  - match goal with
    | |- context [OnUpdate_path ?a ?b ?c ?d ?e] =>
        destruct (OnUpdate_path_total a b c d e) as [s1 [q [o E]]];
        rewrite E
    end.
    eauto.
  - destruct (String.eqb (follow_mode_ s) "velocity"); [|eauto].
    match goal with
    | |- context [OnUpdate_velocity ?a ?b ?c ?d ?e] =>
        destruct (OnUpdate_velocity a b c d e) as [[s1 q] o]
    end.
    eauto.
Qed.

Lemma ticks_total (times : list R) :
  forall s, exists s', ticks s times = Some s'.
Proof.
  induction times as [|t times IH]; intros s; simpl; [eauto|].
  destruct (OnUpdate_total s t) as [s1 E]. rewrite E. apply IH.
Qed.

Lemma run_total getRPY_yaw (es : list Event) :
  forall s, exists s', run getRPY_yaw s es = Some s'.
Proof.
  induction es as [|e es IH]; intros s; simpl; [eauto|].
  destruct e; simpl; try apply IH.
  destruct (OnUpdate_total s simTime) as [s1 E]. rewrite E. apply IH.
Qed.

(** ** Unfolding a tick *)

Lemma OnUpdate_path_eq (s : State) (simTime : R) :
  follow_mode_ s = "path"%string ->
  exists s1 pos1,
    target_case (set_trajectoryInfo_type WALKING_ANIMATION s) (tick_pose s)
                (to_target s) (distance_to_target s) s1 pos1 /\
    OnUpdate_path_target (set_trajectoryInfo_type WALKING_ANIMATION s)
                         (tick_pose s) (to_target s) (distance_to_target s)
    = Some (s1, pos1) /\
    OnUpdate s simTime
    = Some (OnUpdate_commit
              s1 simTime
              (fst (OnUpdate_path_steer
                      s1 (simTime - last_update_ s) (tick_rpy s)
                      (OnUpdate_path_direction pos1)
                      (OnUpdate_path_yaw s1 (tick_rpy s)
                                         (OnUpdate_path_direction pos1))
                      (tick_pose s)
                      (OnUpdate_odom s (tick_pose s) (tick_rpy s))))
              (snd (OnUpdate_path_steer
                      s1 (simTime - last_update_ s) (tick_rpy s)
                      (OnUpdate_path_direction pos1)
                      (OnUpdate_path_yaw s1 (tick_rpy s)
                                         (OnUpdate_path_direction pos1))
                      (tick_pose s)
                      (OnUpdate_odom s (tick_pose s) (tick_rpy s))))).
Proof.
  intros Hm. unfold OnUpdate. rewrite Hm. simpl String.eqb. cbv iota.
  unfold OnUpdate_path.
  destruct (OnUpdate_path_target_case
              (set_trajectoryInfo_type WALKING_ANIMATION s) (tick_pose s)
              (to_target s) (distance_to_target s)) as [s1 [pos1 [E C]]].
  exists s1, pos1. split; [exact C|]. split; [exact E|].
  change (WorldPose (actor_ s)) with (tick_pose s).
  change (Quaterniond.Euler (Pose3d.Rot (tick_pose s))) with (tick_rpy s).
  change (OnUpdate_path_target
            (set_trajectoryInfo_type WALKING_ANIMATION s) (tick_pose s)
            (to_target s) (distance_to_target s) = Some (s1, pos1)) in E.
  cbv zeta.
  match goal with
  | |- context [OnUpdate_path_target ?a ?b ?c ?d] =>
      change (OnUpdate_path_target a b c d)
        with (OnUpdate_path_target
                (set_trajectoryInfo_type WALKING_ANIMATION s) (tick_pose s)
                (to_target s) (distance_to_target s))
  end.
  rewrite E.
  destruct (OnUpdate_path_steer _ _ _ _ _ _ _) as [q o]. reflexivity.
Qed.

Lemma OnUpdate_velocity_eq (s : State) (simTime : R) :
  follow_mode_ s = "velocity"%string ->
  OnUpdate s simTime
  = Some (let '(s1, pose, human_odom) :=
            OnUpdate_velocity s (simTime - last_update_ s) (tick_rpy s)
                              (tick_pose s)
                              (OnUpdate_odom s (tick_pose s) (tick_rpy s)) in
          OnUpdate_commit s1 simTime pose human_odom).
Proof.
  intros Hm. unfold OnUpdate. rewrite Hm. simpl String.eqb. cbv iota.
  change (WorldPose (actor_ s)) with (tick_pose s).
  change (Quaterniond.Euler (Pose3d.Rot (tick_pose s))) with (tick_rpy s).
  cbv zeta.
  destruct (OnUpdate_velocity _ _ _ _ _) as [[s1 q] o]. reflexivity.
Qed.

Lemma OnUpdate_other_eq (s : State) (simTime : R) :
  follow_mode_ s <> "path"%string ->
  follow_mode_ s <> "velocity"%string ->
  OnUpdate s simTime
  = Some (OnUpdate_commit s simTime (tick_pose s)
                          (OnUpdate_odom s (tick_pose s) (tick_rpy s))).
Proof.
  intros H1 H2. unfold OnUpdate.
  apply String.eqb_neq in H1. apply String.eqb_neq in H2.
  rewrite H1, H2. reflexivity.
Qed.

Lemma OnUpdate_commit_target (s : State) t pose odom :
  target_poses_ (OnUpdate_commit s t pose odom) = target_poses_ s /\
  idx_ (OnUpdate_commit s t pose odom) = idx_ s /\
  target_pose_ (OnUpdate_commit s t pose odom) = target_pose_ s /\
  abort_ (OnUpdate_commit s t pose odom) = abort_ s /\
  follow_mode_ (OnUpdate_commit s t pose odom) = follow_mode_ s /\
  trajectoryInfo_type (OnUpdate_commit s t pose odom)
  = trajectoryInfo_type s.
Proof. cbn. auto 10. Qed.

Lemma OnUpdate_velocity_target (s : State) dt rpy pose odom :
  let s1 := fst (fst (OnUpdate_velocity s dt rpy pose odom)) in
  target_poses_ s1 = target_poses_ s /\ idx_ s1 = idx_ s /\
  target_pose_ s1 = target_pose_ s /\ abort_ s1 = abort_ s /\
  follow_mode_ s1 = follow_mode_ s /\
  trajectoryInfo_type s1 = WALKING_ANIMATION.
Proof.
  unfold OnUpdate_velocity. cbn.
  destruct (cmd_queue_ s); cbn; auto 10.
Qed.

Lemma OnUpdate_velocity_fields (s : State) (simTime : R) :
  follow_mode_ s = "velocity"%string ->
  let dt := simTime - last_update_ s in
  let h := reported_heading s in
  exists s',
    OnUpdate s simTime = Some s' /\
    tick_pose s'
    = Pose3d.mk
        (Vector3d.mk
           (Vector3d.X (position_of s) + held_linear s * cos h * dt)
           (Vector3d.Y (position_of s) + held_linear s * sin h * dt)
           (Vector3d.Z (position_of s)))
        (Quaterniond.mk (default_rotation_ s) 0
                        (heading_of s + held_angular s * dt)) /\
    actor_pub_ s'
    = mkOdometry "map" (Vector3d.X (position_of s))
                 (Vector3d.Y (position_of s)) (setRPY 0 0 h)
                 (held_linear s * cos h) (held_linear s * sin h)
                 (Finite (held_angular s))
        :: actor_pub_ s /\
    cmd_queue_ s' = tl (cmd_queue_ s) /\
    Vector3d.X (Pose3d.Pos (target_vel_ s')) = held_linear s /\
    Quaterniond.EulerZ (Quaterniond.Yaw (Pose3d.Rot (target_vel_ s')))
    = held_angular s /\
    follow_mode_ s' = follow_mode_ s /\
    default_rotation_ s' = default_rotation_ s /\
    last_update_ s' = simTime /\
    trajectoryInfo_type s' = WALKING_ANIMATION /\
    ScriptTime (actor_ s')
    = ScriptTime (actor_ s) + distanceTraveled s s' * animation_factor_ s.
Proof.
  intros Hm dt h. rewrite (OnUpdate_velocity_eq s simTime Hm).
  unfold OnUpdate_velocity, held_linear, held_angular.
  destruct (cmd_queue_ s) as [|front rest] eqn:Q; cbn;
    (eexists; split; [reflexivity|]); cbn; rewrite ?Q; auto 12.
Qed.

Lemma OnUpdate_path_fields (s : State) (simTime : R) :
  follow_mode_ s = "path"%string ->
  exists s' s1 pos1,
    OnUpdate s simTime = Some s' /\
    target_case (set_trajectoryInfo_type WALKING_ANIMATION s) (tick_pose s)
                (to_target s) (distance_to_target s) s1 pos1 /\
    motion_vector s = OnUpdate_path_direction pos1 /\
    tick_pose s' = path_tick_pose s (simTime - last_update_ s) /\
    actor_pub_ s'
    = path_tick_odom s (simTime - last_update_ s) :: actor_pub_ s /\
    target_poses_ s' = target_poses_ s1 /\
    idx_ s' = idx_ s1 /\
    target_pose_ s' = target_pose_ s1 /\
    trajectoryInfo_type s' = trajectoryInfo_type s1 /\
    last_update_ s' = simTime /\
    ScriptTime (actor_ s')
    = ScriptTime (actor_ s)
      + distanceTraveled s s' * animation_factor_ s /\
    default_rotation_ s' = default_rotation_ s /\
    follow_mode_ s' = follow_mode_ s /\
    abort_ s' = abort_ s.
Proof.
  intros Hm.
  destruct (OnUpdate_path_eq s simTime Hm) as [s1 [pos1 [C [E0 E]]]].
  eexists _, s1, pos1. split; [exact E|]. split; [exact C|].
  assert (Hmv : motion_vector s = OnUpdate_path_direction pos1).
  { unfold motion_vector. rewrite E0. reflexivity. }
  split; [exact Hmv|].
  destruct (target_case_params _ _ _ _ _ _ C)
    as [Hfm [_ [Hlv [Hat [Hav [Haf [Hdr [Hab [Hac Hpub]]]]]]]]].
  cbn in Hfm, Hlv, Hat, Hav, Haf, Hdr, Hab, Hac, Hpub.
  assert (Hyaw : OnUpdate_path_yaw s1 (tick_rpy s)
                                   (OnUpdate_path_direction pos1)
                 = angular_error s).
  { unfold angular_error. rewrite Hmv. unfold OnUpdate_path_yaw.
    rewrite Hdr. reflexivity. }
  rewrite Hyaw. rewrite <- Hmv.
  unfold path_tick_pose, path_tick_odom, rot_sign, distanceTraveled.
  destruct (Rgt_dec (Rabs (angular_error s)) (ang_tolerance_ s)) as [H | H].
  - rewrite steer_turn by (rewrite Hat; exact H).
    cbn. rewrite Hav, Hdr, Hpub, Hac, Haf, Hfm, Hab. auto 15.
  - rewrite steer_move by (rewrite Hat; exact H).
    cbn. rewrite Hlv, Hdr, Hpub, Hac, Haf, Hfm, Hab. auto 15.
Qed.

(** A path tick under the guard of line 239: the list is cleared, the target
    snaps to the actor, the index is 0, the actor stays where it is, and the
    clip is the one line 232 selected. *)
Lemma OnUpdate_hold (s : State) (simTime : R) :
  follow_mode_ s = "path"%string ->
  guard_holds s ->
  exists s',
    OnUpdate s simTime = Some s' /\
    position_of s' = position_of s /\
    target_poses_ s' = [] /\ idx_ s' = 0%nat /\
    Vector3d.X (target_pose_ s') = Vector3d.X (position_of s) /\
    Vector3d.Y (target_pose_ s') = Vector3d.Y (position_of s) /\
    trajectoryInfo_type s' = WALKING_ANIMATION /\
    abort_ s' = abort_ s /\ follow_mode_ s' = follow_mode_ s.
Proof.
  intros Hm Hg.
  destruct (OnUpdate_path_eq s simTime Hm) as [s1 [pos1 [C [_ E]]]].
  apply target_case_guard in C; [|exact Hg]. destruct C as [-> ->].
  eexists. split; [exact E|].
  split; [|cbn; auto 10].
  unfold position_of at 1, tick_pose at 1. cbn [OnUpdate_commit].
  cbn [actor_ set_last_update_ set_actor_ WorldPose].
  apply steer_zero_position.
Qed.

(** Position and script time of the state a tick produces. *)
Lemma OnUpdate_position (s : State) (simTime : R) :
  exists s',
    OnUpdate s simTime = Some s' /\
    ScriptTime (actor_ s')
    = ScriptTime (actor_ s) + distanceTraveled s s' * animation_factor_ s /\
    position_of s'
    = if String.eqb (follow_mode_ s) "path" then
        Pose3d.Pos (path_tick_pose s (simTime - last_update_ s))
      else if String.eqb (follow_mode_ s) "velocity" then
        Vector3d.mk
          (Vector3d.X (position_of s)
           + held_linear s * cos (reported_heading s)
             * (simTime - last_update_ s))
          (Vector3d.Y (position_of s)
           + held_linear s * sin (reported_heading s)
             * (simTime - last_update_ s))
          (Vector3d.Z (position_of s))
      else position_of s.
Proof.
  destruct (String.eqb_spec (follow_mode_ s) "path") as [Hp | Hp].
  - destruct (OnUpdate_path_fields s simTime Hp)
      as [s' [s1 [pos1 [E [_ [_ [Hpose [_ [_ [_ [_ [_ [_ [Hst _]]]]]]]]]]]]]].
    exists s'. split; [exact E|]. split; [exact Hst|].
    unfold position_of at 1. rewrite Hpose. reflexivity.
  - destruct (String.eqb_spec (follow_mode_ s) "velocity") as [Hv | Hv].
    + destruct (OnUpdate_velocity_fields s simTime Hv)
        as [s' [E [Hpose [_ [_ [_ [_ [_ [_ [_ [_ Hst]]]]]]]]]]].
      exists s'. split; [exact E|]. split; [exact Hst|].
      unfold position_of at 1. rewrite Hpose. reflexivity.
    + eexists. split; [apply OnUpdate_other_eq; assumption|].
      split; reflexivity.
Qed.

Lemma motion_vector_keep (s : State) :
  abort_ s = false -> target_poses_ s <> [] ->
  ~ distance_to_target s < lin_tolerance_ s ->
  motion_vector s = OnUpdate_path_direction (to_target s).
Proof.
  intros Ha Hl Hd. unfold motion_vector.
  rewrite OnUpdate_path_target_keep; auto.
Qed.

Lemma motion_vector_done (s : State) :
  abort_ s = false -> target_poses_ s <> [] ->
  distance_to_target s < lin_tolerance_ s ->
  ~ (idx_ s < List.length (target_poses_ s) - 1)%nat ->
  motion_vector s = Vector2d.mk 0 0.
Proof.
  intros Ha Hl Hd Hi. unfold motion_vector.
  rewrite OnUpdate_path_target_done; auto. apply direction_zero.
Qed.

Lemma motion_vector_hold (s : State) :
  guard_holds s -> motion_vector s = Vector2d.mk 0 0.
Proof.
  intros Hg. unfold motion_vector.
  rewrite OnUpdate_path_target_hold; auto. apply direction_zero.
Qed.

Lemma angular_error_zero_vector (s : State) :
  motion_vector s = Vector2d.mk 0 0 -> angular_error s = 0.
Proof. intros H. unfold angular_error. rewrite H. apply yaw_zero. Qed.

Lemma distance_same_place (s s' : State) :
  target_pose_ s' = target_pose_ s -> position_of s' = position_of s ->
  distance_to_target s' = distance_to_target s.
Proof.
  intros Ht Hp. unfold distance_to_target, to_target. rewrite Ht, Hp.
  reflexivity.
Qed.

(** The position a moving tick reaches is at distance [|d - step|] of the
    target. *)
Lemma distance_after_move (s s' : State) (step : R) :
  0 < distance_to_target s ->
  target_pose_ s' = target_pose_ s ->
  Vector3d.X (position_of s')
  = Vector3d.X (position_of s)
    + Vector2d.X (to_target s) / distance_to_target s * step ->
  Vector3d.Y (position_of s')
  = Vector3d.Y (position_of s)
    + Vector2d.Y (to_target s) / distance_to_target s * step ->
  distance_to_target s' = Rabs (distance_to_target s - step).
Proof.
  intros Hd Ht Hx Hy.
  rewrite <- sqrt_Rsqr_abs.
  rewrite <- (moved_sq (Vector2d.X (to_target s)) (Vector2d.Y (to_target s))).
  - unfold distance_to_target at 1, Vector2d.Length, to_target at 1 2 3 4.
    rewrite Ht, Hx, Hy. cbn. f_equal. unfold to_target. cbn. ring.
  - lra.
  - unfold distance_to_target, Vector2d.Length. apply sqrt_sqrt. nra.
Qed.

(** ** The command handlers and the index invariant *)

Lemma PathCallback_loop getRPY_yaw (ps : list Pose) :
  forall s,
    let s' :=
      fold_left
        (fun s pose =>
           set_target_poses_
             (target_poses_ s ++ [PathCallback_target getRPY_yaw pose]) s)
        ps s in
    target_poses_ s'
    = target_poses_ s ++ map (PathCallback_target getRPY_yaw) ps /\
    idx_ s' = idx_ s /\ abort_ s' = abort_ s /\
    target_pose_ s' = target_pose_ s.
Proof.
  induction ps as [|p ps IH]; intros s; simpl.
  - rewrite app_nil_r. auto.
  - specialize (IH (set_target_poses_
                      (target_poses_ s ++ [PathCallback_target getRPY_yaw p])
                      s)).
    simpl in IH. destruct IH as [H1 [H2 [H3 H4]]].
    rewrite H1, H2, H3, H4. cbn. rewrite <- app_assoc. auto.
Qed.

Lemma PathCallback_fields getRPY_yaw (s : State) (msg : Path) :
  let s' := PathCallback getRPY_yaw s msg in
  target_poses_ s' = map (PathCallback_target getRPY_yaw) (poses msg) /\
  idx_ s' = 0%nat /\ abort_ s' = false /\
  target_pose_ s' = target_pose_ s.
Proof.
  unfold PathCallback.
  pose proof (PathCallback_loop getRPY_yaw (poses msg)
                (set_abort_ false (set_idx_ 0%nat (set_target_poses_ [] s))))
    as H.
  cbn in H. exact H.
Qed.

Lemma VelCallback_agree (s : State) (m1 m2 : Twist) :
  Vector3d.X (linear m1) = Vector3d.X (linear m2) ->
  Vector3d.Z (angular m1) = Vector3d.Z (angular m2) ->
  VelCallback s m1 = VelCallback s m2.
Proof. intros H1 H2. unfold VelCallback. rewrite H1, H2. reflexivity. Qed.

Lemma step_agree getRPY_yaw (s : State) (e1 e2 : Event) :
  event_agree e1 e2 -> step getRPY_yaw s e1 = step getRPY_yaw s e2.
Proof.
  intros H. destruct H as [m1 m2 H1 H2 | e]; [|reflexivity].
  simpl. f_equal. now apply VelCallback_agree.
Qed.

Lemma OnUpdate_idx_valid (s s' : State) (simTime : R) :
  idx_valid s -> OnUpdate s simTime = Some s' -> idx_valid s'.
Proof.
  intros Hv E.
  destruct (String.eqb_spec (follow_mode_ s) "path") as [Hp | Hp].
  - destruct (OnUpdate_path_eq s simTime Hp) as [s1 [pos1 [C [_ E1]]]].
    rewrite E1 in E. injection E as <-.
    apply target_case_idx_valid in C; [exact C | exact Hv].
  - destruct (String.eqb_spec (follow_mode_ s) "velocity") as [Hq | Hq].
    + rewrite (OnUpdate_velocity_eq s simTime Hq) in E.
      pose proof (OnUpdate_velocity_target
                    s (simTime - last_update_ s) (tick_rpy s) (tick_pose s)
                    (OnUpdate_odom s (tick_pose s) (tick_rpy s))) as T.
      destruct (OnUpdate_velocity _ _ _ _ _) as [[s1 q] o].
      injection E as <-. cbn in T. destruct T as [T1 [T2 _]].
      unfold idx_valid in *. cbn. rewrite T1, T2. exact Hv.
    + rewrite (OnUpdate_other_eq s simTime Hp Hq) in E.
      injection E as <-. exact Hv.
Qed.

Lemma step_idx_valid getRPY_yaw (s s' : State) (e : Event) :
  idx_valid s -> step getRPY_yaw s e = Some s' -> idx_valid s'.
Proof.
  intros Hv E. destruct e; simpl in E.
  - injection E as <-. exact Hv.
  - injection E as <-.
    destruct (PathCallback_fields getRPY_yaw s msg) as [H1 [H2 _]].
    unfold idx_valid. rewrite H1, H2.
    destruct (map _ _); [congruence | simpl; lia].
  - injection E as <-. exact Hv.
  - eapply OnUpdate_idx_valid; eauto.
Qed.

Lemma run_idx_valid getRPY_yaw (es : list Event) :
  forall s s', idx_valid s -> run getRPY_yaw s es = Some s' -> idx_valid s'.
Proof.
  induction es as [|e es IH]; intros s s' Hv E; simpl in E.
  - injection E as <-. exact Hv.
  - destruct (step getRPY_yaw s e) as [s1|] eqn:E1; [|discriminate].
    eapply IH; [|exact E]. eapply step_idx_valid; eauto.
Qed.

Lemma Reset_fields skelAnims (s s' : State) :
  Reset skelAnims s = Some s' ->
  idx_ s' = 0%nat /\
  target_poses_ s'
  = target_poses_ s ++
      [Vector3d.mk (Vector3d.X (position_of s)) (Vector3d.Y (position_of s))
                   (heading_of s)].
Proof.
  unfold Reset. cbv zeta.
  destruct (nth_error _ _); [|discriminate].
  destruct (negb _); [|destruct (negb _)]; intros H; injection H as <-;
    split; reflexivity.
Qed.

Lemma Reset_idx_valid skelAnims (s s' : State) :
  Reset skelAnims s = Some s' -> idx_valid s'.
Proof.
  intros H. apply Reset_fields in H. destruct H as [H0 Hl].
  intros _. rewrite H0, Hl, length_app. simpl. lia.
Qed.

(** ** The example actor 10 units from its only waypoint *)

Lemma path_state_distance v o y : distance_to_target (path_state v o y) = 10.
Proof.
  unfold distance_to_target, to_target, Vector2d.Length. cbn.
  replace ((10 - 0) * (10 - 0) + (0 - 0) * (0 - 0)) with (10 * 10) by ring.
  apply sqrt_square. lra.
Qed.

Lemma path_state_motion_vector v o y :
  Vector2d.X (motion_vector (path_state v o y)) = 1 /\
  Vector2d.Y (motion_vector (path_state v o y)) = 0 /\
  Vector2d.Length (motion_vector (path_state v o y)) = 1.
Proof.
  pose proof (path_state_distance v o y) as Hd.
  assert (Hn : Vector2d.Length (to_target (path_state v o y)) <> 0).
  { change (distance_to_target (path_state v o y) <> 0). lra. }
  rewrite motion_vector_keep.
  - rewrite direction_nonzero by exact Hn.
    split; [|split].
    + change (Vector2d.Length (to_target (path_state v o y)))
        with (distance_to_target (path_state v o y)).
      rewrite Hd. cbn. field.
    + change (Vector2d.Length (to_target (path_state v o y)))
        with (distance_to_target (path_state v o y)).
      rewrite Hd. cbn. field.
    + apply Length_div. exact Hn.
  - reflexivity.
  - discriminate.
  - rewrite Hd. cbn. lra.
Qed.

(** The angular error of that actor is minus its reported heading, as long
    as that heading is less than a quarter turn. *)
Lemma path_state_angular_error v o y :
  - (PI / 2) < y - o < PI / 2 ->
  angular_error (path_state v o y) = - (y - o).
Proof.
  intros Hy.
  destruct (path_state_motion_vector v o y) as [Hx [Hy0 Hl]].
  unfold angular_error, OnUpdate_path_yaw.
  destruct (Req_dec_T _ 0) as [E | _]; [lra|].
  rewrite (atan2_east _ _ Hx Hy0). cbn.
  replace (0 + o - y) with (- (y - o)) by ring.
  apply Normalize_small. lra.
Qed.

(** The same actor after a tick, whatever the branch: the new state. *)
Lemma path_state_tick v o y simTime :
  exists s',
    OnUpdate (path_state v o y) simTime = Some s' /\
    tick_pose s' = path_tick_pose (path_state v o y) (simTime - 0) /\
    actor_pub_ s' = [path_tick_odom (path_state v o y) (simTime - 0)] /\
    target_pose_ s' = Vector3d.mk 10 0 0 /\
    trajectoryInfo_type s' = WALKING_ANIMATION.
Proof.
  destruct (OnUpdate_path_fields (path_state v o y) simTime eq_refl)
    as [s' [s1 [pos1 [E [C [_ [Hp [Hpub [_ [_ [Ht [Hty _]]]]]]]]]]]].
  exists s'. split; [exact E|]. split; [exact Hp|]. split; [exact Hpub|].
  pose proof (path_state_distance v o y) as Hd.
  inversion C as [Hg E1 E2 | p Ha Hl Hlt Hi Hn E1 E2 | Ha Hl Hlt Hi E1 E2
                  | Ha Hl Hlt E1 E2]; subst.
  - destruct Hg as [Hg | Hg]; discriminate Hg.
  - rewrite Hd in Hlt. cbn in Hlt. lra.
  - rewrite Hd in Hlt. cbn in Hlt. lra.
  - rewrite Ht, Hty. split; reflexivity.
Qed.

(** ** C1: ticks under an abort *)

Lemma abort_ticks_hold (times : list R) :
  forall s,
    follow_mode_ s = "path"%string -> abort_ s = true ->
    exists s',
      ticks s times = Some s' /\
      position_of s' = position_of s /\
      abort_ s' = true /\ follow_mode_ s' = "path"%string /\
      (times <> [] -> trajectoryInfo_type s' = WALKING_ANIMATION).
Proof.
  induction times as [|t times IH]; intros s Hm Ha.
  - exists s. simpl. repeat split; auto. congruence.
  - destruct (OnUpdate_hold s t Hm (or_introl Ha))
      as [s1 [E [Hp [_ [_ [_ [_ [Hw [Ha1 Hm1]]]]]]]]].
    rewrite Ha in Ha1. rewrite Hm in Hm1.
    destruct (IH s1 Hm1 Ha1) as [s' [E' [Hp' [Ha' [Hm' Hw']]]]].
    exists s'. simpl. rewrite E. split; [exact E'|].
    split; [congruence|]. split; [exact Ha'|]. split; [exact Hm'|].
    intros _. destruct times as [|t' times'].
    + simpl in E'. injection E' as <-. exact Hw.
    + apply Hw'. discriminate.
Qed.

(** C1 (what the code does): in Path-Following mode with the abort flag
    set, any non-empty sequence of ticks leaves the actor's position
    unchanged and keeps the flag set, but the clip selected is "walking",
    not "standing": line 232 selects "walking" and the guarded branch of
    line 239 never selects "standing". *)
Theorem abort_ticks_hold_position_but_walk (s : State) (times : list R) :
  follow_mode_ s = "path"%string -> abort_ s = true -> times <> [] ->
  exists s',
    ticks s times = Some s' /\
    position_of s' = position_of s /\
    abort_ s' = true /\
    trajectoryInfo_type s' = "walking"%string /\
    trajectoryInfo_type s' <> "standing"%string.
Proof.
  intros Hm Ha Hne.
  destruct (abort_ticks_hold times s Hm Ha) as [s' [E [Hp [Ha' [_ Hw]]]]].
  exists s'. repeat split; auto.
  rewrite (Hw Hne). discriminate.
Qed.

Lemma abort_ticks_hold_position_but_walk_witness :
  exists s',
    ticks aborted_at_origin [1; 2; 3] = Some s' /\
    position_of s' = position_of aborted_at_origin /\
    abort_ s' = true /\
    trajectoryInfo_type s' = "walking"%string /\
    trajectoryInfo_type s' <> "standing"%string.
Proof.
  apply (abort_ticks_hold_position_but_walk aborted_at_origin [1; 2; 3]).
  - reflexivity.
  - reflexivity.
  - discriminate.
Defined.

(** ** C2: what a path command replaces *)

(** C2 (what the code does): [PathCallback] replaces the waypoint list by the
    waypoints of the command, resets the index to 0 and clears the abort
    flag, and it leaves the current target [target_pose_] as it was: the
    target is not reset to the first waypoint of the new list. *)
Theorem PathCallback_leaves_target_pose getRPY_yaw (s : State) (msg : Path) :
  target_poses_ (PathCallback getRPY_yaw s msg)
  = map (PathCallback_target getRPY_yaw) (poses msg) /\
  idx_ (PathCallback getRPY_yaw s msg) = 0%nat /\
  abort_ (PathCallback getRPY_yaw s msg) = false /\
  target_pose_ (PathCallback getRPY_yaw s msg) = target_pose_ s.
Proof. exact (PathCallback_fields getRPY_yaw s msg). Qed.

(** The consequence on a path with a single waypoint: the actor at the
    origin receives the path [(10, 0)]; its target is still the origin, and
    the next tick finds the target reached and no further waypoint: the
    actor stands still. *)
Lemma single_waypoint_path_is_not_followed :
  let s := PathCallback yaw_of_z_w path_actor_loaded path_to_10 in
  map Vector3d.X (target_poses_ s) = [10] /\
  target_pose_ s = Vector3d.mk 0 0 0 /\
  exists s',
    OnUpdate s 1 = Some s' /\
    position_of s' = position_of s /\
    target_pose_ s' = Vector3d.mk 0 0 0 /\
    trajectoryInfo_type s' = STANDING_ANIMATION.
Proof.
  intros s. split; [reflexivity|]. split; [reflexivity|].
  assert (Hd : distance_to_target s < lin_tolerance_ s).
  { unfold distance_to_target, to_target, Vector2d.Length. cbn.
    replace ((0 - 0) * (0 - 0) + (0 - 0) * (0 - 0)) with 0 by ring.
    rewrite sqrt_0. lra. }
  destruct (OnUpdate_path_fields s 1 eq_refl)
    as [s' [s1 [pos1 [E [C [Hmv [Hpose [_ [_ [_ [Ht [Hty _]]]]]]]]]]]].
  apply target_case_done_inv in C;
    [| reflexivity | discriminate | exact Hd | cbn; lia].
  destruct C as [-> ->].
  exists s'. split; [exact E|]. split; [|split; [exact Ht | exact Hty]].
  unfold position_of at 1. rewrite Hpose. unfold path_tick_pose.
  rewrite Hmv, direction_zero.
  destruct (Rgt_dec _ _); cbn; [reflexivity|].
  unfold Vector3d.Zero. f_equal; ring.
Qed.

(** ** C3: turn, then move *)

(** C3 (amended): in a Path-Following tick whose motion vector (the
    displacement to the target the tick selects) is not zero, the direction
    [u] is the unit vector from the actor to that target.  If the absolute
    angular error exceeds [ang_tolerance_], the position is unchanged and the
    heading changes by the signed [ang_velocity_] times [dt].  Otherwise the
    position changes by [lin_velocity_ * dt] along [u], which is a change of
    position when [lin_velocity_] and [dt] are both non-zero, and the
    heading changes by the angular error, after which the reported heading
    ([heading - default_rotation_]) points exactly along [u]. *)
Theorem turn_then_move (s : State) (simTime : R) :
  follow_mode_ s = "path"%string ->
  Vector2d.Length (motion_vector s) <> 0 ->
  exists s',
    OnUpdate s simTime = Some s' /\
    let dt := simTime - last_update_ s in
    let u := motion_vector s in
    let err := angular_error s in
    Vector2d.Length u = 1 /\
    (exists d,
        0 < d /\
        Vector3d.X (target_pose_ s') - Vector3d.X (position_of s)
        = d * Vector2d.X u /\
        Vector3d.Y (target_pose_ s') - Vector3d.Y (position_of s)
        = d * Vector2d.Y u) /\
    (Rabs err > ang_tolerance_ s ->
     position_of s' = position_of s /\
     heading_of s' = heading_of s + rot_sign err * ang_velocity_ s * dt) /\
    (Rabs err <= ang_tolerance_ s ->
     Vector3d.X (position_of s')
     = Vector3d.X (position_of s) + Vector2d.X u * lin_velocity_ s * dt /\
     Vector3d.Y (position_of s')
     = Vector3d.Y (position_of s) + Vector2d.Y u * lin_velocity_ s * dt /\
     (lin_velocity_ s <> 0 -> dt <> 0 -> position_of s' <> position_of s) /\
     heading_of s' = heading_of s + err /\
     cos (reported_heading s') = Vector2d.X u /\
     sin (reported_heading s') = Vector2d.Y u).
Proof.
  intros Hm Hu.
  destruct (OnUpdate_path_fields s simTime Hm)
    as [s' [s1 [pos1 [E [C [Hmv [Hp [_ [_ [_ [Ht [_ [_ [_ [Hdr _]]]]]]]]]]]]]]].
  exists s'. split; [exact E|]. cbv zeta.
  rewrite Hmv in Hu. destruct (Length_direction pos1 Hu) as [Hn H1].
  rewrite <- Hmv in H1. split; [exact H1|].
  split.
  { exists (Vector2d.Length pos1).
    destruct (target_case_vector _ _ _ _ C Hn) as [_ [_ [Hx Hy]]].
    pose proof (Length_nonneg pos1) as Hpos.
    rewrite Ht, Hmv, direction_nonzero by exact Hn.
    change (Pose3d.Pos (tick_pose s)) with (position_of s) in Hx, Hy.
    rewrite <- Hx, <- Hy. cbn.
    split; [lra|]. split; field; exact Hn. }
  assert (HP : position_of s'
               = Pose3d.Pos (path_tick_pose s (simTime - last_update_ s)))
    by (unfold position_of; rewrite Hp; reflexivity).
  assert (HH : heading_of s'
               = Quaterniond.Yaw
                   (Pose3d.Rot (path_tick_pose s (simTime - last_update_ s))))
    by (unfold heading_of; rewrite Hp; reflexivity).
  unfold reported_heading. rewrite HP, HH, Hdr. unfold path_tick_pose.
  destruct (Rgt_dec (Rabs (angular_error s)) (ang_tolerance_ s)) as [H | H];
    (split; [intros H'|intros H']); try lra; cbn.
  - split; reflexivity.
  - split; [reflexivity|]. split; [reflexivity|].
    split.
    + intros Hv Hdt Heq. fold (position_of s) in Heq.
      assert (Hx : Vector2d.X (motion_vector s) = 0).
      { apply (f_equal Vector3d.X) in Heq. cbn in Heq.
        assert (Hz : Vector2d.X (motion_vector s)
                     * (lin_velocity_ s * (simTime - last_update_ s)) = 0)
          by lra.
        apply Rmult_integral in Hz. destruct Hz as [Hz | Hz]; [exact Hz|].
        apply Rmult_integral in Hz. tauto. }
      assert (Hy : Vector2d.Y (motion_vector s) = 0).
      { apply (f_equal Vector3d.Y) in Heq. cbn in Heq.
        assert (Hz : Vector2d.Y (motion_vector s)
                     * (lin_velocity_ s * (simTime - last_update_ s)) = 0)
          by lra.
        apply Rmult_integral in Hz. destruct Hz as [Hz | Hz]; [exact Hz|].
        apply Rmult_integral in Hz. tauto. }
      rewrite (zero_vector_of_components _ Hx Hy) in H1. lra.
    + split; [reflexivity|].
      apply (snapped_heading_is_bearing s (tick_rpy s) (motion_vector s) H1).
Qed.

Lemma turn_then_move_witness :
  follow_mode_ walker = "path"%string /\
  Vector2d.Length (motion_vector walker) <> 0 /\
  exists s',
    OnUpdate walker 1 = Some s' /\
    let dt := 1 - last_update_ walker in
    let u := motion_vector walker in
    let err := angular_error walker in
    Vector2d.Length u = 1 /\
    (exists d,
        0 < d /\
        Vector3d.X (target_pose_ s') - Vector3d.X (position_of walker)
        = d * Vector2d.X u /\
        Vector3d.Y (target_pose_ s') - Vector3d.Y (position_of walker)
        = d * Vector2d.Y u) /\
    (Rabs err > ang_tolerance_ walker ->
     position_of s' = position_of walker /\
     heading_of s'
     = heading_of walker + rot_sign err * ang_velocity_ walker * dt) /\
    (Rabs err <= ang_tolerance_ walker ->
     Vector3d.X (position_of s')
     = Vector3d.X (position_of walker)
       + Vector2d.X u * lin_velocity_ walker * dt /\
     Vector3d.Y (position_of s')
     = Vector3d.Y (position_of walker)
       + Vector2d.Y u * lin_velocity_ walker * dt /\
     (lin_velocity_ walker <> 0 -> dt <> 0 ->
      position_of s' <> position_of walker) /\
     heading_of s' = heading_of walker + err /\
     cos (reported_heading s') = Vector2d.X u /\
     sin (reported_heading s') = Vector2d.Y u).
Proof.
  assert (H : Vector2d.Length (motion_vector walker) <> 0).
  { destruct (path_state_motion_vector 1 0 0) as [_ [_ Hl]].
    unfold walker. rewrite Hl. lra. }
  split; [reflexivity|]. split; [exact H|].
  apply (turn_then_move walker 1 eq_refl H).
Defined.

(** C3 as stated fails when [lin_velocity_] is 0: the actor faces its target
    10 units away, the angular error is within tolerance, [dt] is 1, and the
    tick does not move the actor. *)
Lemma turn_then_move_counterexample :
  follow_mode_ stalled = "path"%string /\
  distance_to_target stalled <> 0 /\
  Vector2d.Length (motion_vector stalled) <> 0 /\
  Rabs (angular_error stalled) <= ang_tolerance_ stalled /\
  1 - last_update_ stalled <> 0 /\
  exists s',
    OnUpdate stalled 1 = Some s' /\ position_of s' = position_of stalled.
Proof.
  destruct (path_state_motion_vector 0 0 0) as [_ [_ Hl]].
  assert (He : angular_error stalled = 0).
  { unfold stalled. rewrite path_state_angular_error.
    - ring.
    - pose proof PI2_RGT_0. lra. }
  pose proof IGN_DTOR_5_bounds as Hb.
  split; [reflexivity|].
  split; [unfold stalled; rewrite path_state_distance; lra|].
  split; [unfold stalled; rewrite Hl; lra|].
  split; [rewrite He, Rabs_R0; cbn; lra|].
  split; [cbn; lra|].
  destruct (path_state_tick 0 0 0 1) as [s' [E [Hp _]]].
  exists s'. split; [exact E|].
  unfold position_of at 1. rewrite Hp. unfold path_tick_pose.
  destruct (Rgt_dec _ _); cbn; [reflexivity|].
  unfold Vector3d.Zero. f_equal; ring.
Qed.

(** ** C4: the index stays inside the waypoint list *)

(** C4: from the state [Reset] leaves, every run of the plugin (commands and
    ticks in any order) completes without [at] throwing, and in the state
    it reaches the index is a valid position of the waypoint list whenever
    that list is non-empty; a path tick in a state whose list is empty or
    whose abort flag is set completes as well, by the hold branch: the list
    is (left) empty, the index is 0, the target is the actor's position and
    the actor does not move. *)
Theorem index_always_in_bounds getRPY_yaw skelAnims (s0 s1 : State)
        (es : list Event) :
  Reset skelAnims s0 = Some s1 ->
  exists s,
    run getRPY_yaw s1 es = Some s /\
    (target_poses_ s <> [] -> (idx_ s < List.length (target_poses_ s))%nat) /\
    (forall simTime, exists s', OnUpdate s simTime = Some s') /\
    (forall simTime,
        follow_mode_ s = "path"%string ->
        abort_ s = true \/ target_poses_ s = [] ->
        exists s',
          OnUpdate s simTime = Some s' /\
          target_poses_ s' = [] /\ idx_ s' = 0%nat /\
          Vector3d.X (target_pose_ s') = Vector3d.X (position_of s) /\
          Vector3d.Y (target_pose_ s') = Vector3d.Y (position_of s) /\
          position_of s' = position_of s).
Proof.
  intros HR.
  destruct (run_total getRPY_yaw es s1) as [s E].
  exists s. split; [exact E|]. split; [|split].
  - apply (run_idx_valid getRPY_yaw es s1 s); [|exact E].
    eapply Reset_idx_valid; eauto.
  - intros t. apply OnUpdate_total.
  - intros t Hm Hg.
    destruct (OnUpdate_hold s t Hm Hg)
      as [s' [E' [Hp [Hl [Hi [Hx [Hy _]]]]]]].
    exists s'. auto 10.
Qed.

Lemma index_always_in_bounds_witness :
  exists s,
    run yaw_of_z_w path_actor_loaded
        [EvPath path_to_10; EvUpdate 1; EvAbort true; EvUpdate 2]
    = Some s /\
    (target_poses_ s <> [] -> (idx_ s < List.length (target_poses_ s))%nat) /\
    (forall simTime, exists s', OnUpdate s simTime = Some s') /\
    (forall simTime,
        follow_mode_ s = "path"%string ->
        abort_ s = true \/ target_poses_ s = [] ->
        exists s',
          OnUpdate s simTime = Some s' /\
          target_poses_ s' = [] /\ idx_ s' = 0%nat /\
          Vector3d.X (target_pose_ s') = Vector3d.X (position_of s) /\
          Vector3d.Y (target_pose_ s') = Vector3d.Y (position_of s) /\
          position_of s' = position_of s).
Proof.
  apply (index_always_in_bounds
           yaw_of_z_w both_clips (Load_defaults "path" 0 origin)
           path_actor_loaded).
  reflexivity.
Defined.

(** ** C5: a tick with no elapsed time *)

(** C5 (amended): for every controller state, a tick with [dt = 0]
    leaves the position unchanged and measures a travelled distance of 0 (the
    animation clock does not advance).  The angular rate of the twist of a
    path tick that does not turn in place is the quotient
    [angular error / dt], computed without a guard: at [dt = 0] it is not a
    finite number, and it is NaN when the angular error is 0 too. *)
Theorem zero_dt_tick (s : State) :
  exists s',
    OnUpdate s (last_update_ s) = Some s' /\
    position_of s' = position_of s /\
    distanceTraveled s s' = 0 /\
    ScriptTime (actor_ s') = ScriptTime (actor_ s) /\
    (follow_mode_ s = "path"%string ->
     Rabs (angular_error s) <= ang_tolerance_ s ->
     exists o,
       actor_pub_ s' = o :: actor_pub_ s /\
       twist_angular_z o = fdiv (angular_error s) 0 /\
       (forall r, twist_angular_z o <> Finite r) /\
       (angular_error s = 0 -> twist_angular_z o = NaN)).
Proof.
  destruct (OnUpdate_position s (last_update_ s)) as [s' [E [Hst Hpos]]].
  assert (Hp : position_of s' = position_of s).
  { rewrite Hpos.
    destruct (String.eqb (follow_mode_ s) "path").
    - unfold path_tick_pose. destruct (Rgt_dec _ _); cbn; [reflexivity|].
      apply Vector3d_eta; ring.
    - destruct (String.eqb (follow_mode_ s) "velocity"); [|reflexivity].
      apply Vector3d_eta; ring. }
  assert (Hd : distanceTraveled s s' = 0).
  { unfold distanceTraveled. rewrite Hp. apply Length3_self. }
  exists s'. split; [exact E|]. split; [exact Hp|]. split; [exact Hd|].
  split; [rewrite Hst, Hd; ring|].
  intros Hm Herr.
  destruct (OnUpdate_path_fields s (last_update_ s) Hm)
    as [s2 [s1 [pos1 [E2 [_ [_ [_ [Hpub _]]]]]]]].
  rewrite E in E2. injection E2 as <-.
  eexists. split; [exact Hpub|].
  unfold path_tick_odom.
  destruct (Rgt_dec _ _) as [H | _]; [lra|]. cbn.
  replace (last_update_ s - last_update_ s) with 0 by ring.
  split; [reflexivity|]. unfold fdiv.
  destruct (Req_dec_T 0 0) as [_ | H]; [|lra].
  split.
  - intros r. destruct (Req_dec_T (angular_error s) 0); discriminate.
  - intros H0. destruct (Req_dec_T (angular_error s) 0); [reflexivity | lra].
Qed.

Lemma zero_dt_tick_witness :
  exists s' o,
    OnUpdate aborted_at_origin (last_update_ aborted_at_origin) = Some s' /\
    position_of s' = position_of aborted_at_origin /\
    distanceTraveled aborted_at_origin s' = 0 /\
    actor_pub_ s' = o :: actor_pub_ aborted_at_origin /\
    twist_angular_z o = NaN.
Proof.
  assert (He : angular_error aborted_at_origin = 0).
  { apply angular_error_zero_vector, motion_vector_hold. left. reflexivity. }
  destruct (zero_dt_tick aborted_at_origin) as [s' [E [Hp [Hd [_ H]]]]].
  assert (Hin : Rabs (angular_error aborted_at_origin)
                <= ang_tolerance_ aborted_at_origin).
  { rewrite He, Rabs_R0. pose proof IGN_DTOR_5_bounds. cbn. lra. }
  destruct (H eq_refl Hin) as [o [Hpub [_ [_ Hnan]]]].
  exists s', o. auto 6.
Defined.

(** C5 as stated fails: the aborted actor ticks with [dt = 0]; the angular
    error is 0 and the angular rate published is 0/0, NaN, not 0. *)
Lemma zero_dt_tick_counterexample :
  follow_mode_ aborted_at_origin = "path"%string /\
  angular_error aborted_at_origin = 0 /\
  exists s' o,
    OnUpdate aborted_at_origin (last_update_ aborted_at_origin) = Some s' /\
    actor_pub_ s' = [o] /\
    twist_angular_z o = NaN /\
    twist_angular_z o <> Finite 0.
Proof.
  assert (He : angular_error aborted_at_origin = 0).
  { apply angular_error_zero_vector, motion_vector_hold. left. reflexivity. }
  split; [reflexivity|]. split; [exact He|].
  destruct (OnUpdate_path_fields aborted_at_origin
                                 (last_update_ aborted_at_origin) eq_refl)
    as [s' [s1 [pos1 [E [_ [_ [_ [Hpub _]]]]]]]].
  exists s'. eexists. split; [exact E|]. split; [exact Hpub|].
  unfold path_tick_odom. rewrite He, Rabs_R0.
  pose proof IGN_DTOR_5_bounds as Hb.
  destruct (Rgt_dec 0 (ang_tolerance_ aborted_at_origin)) as [H | _];
    [cbn in H; lra|].
  cbn. unfold fdiv.
  destruct (Req_dec_T (0 - 0) 0) as [_ | H]; [|lra].
  destruct (Req_dec_T 0 0) as [_ | H]; [|lra].
  split; [reflexivity | discriminate].
Qed.

(** ** C6: the odometry record of a tick *)

(** C6 (amended): every tick publishes exactly one odometry record,
    whatever the state and the follow mode.  Its position is the actor's
    position as read at the start of the tick, before the motion of the tick
    is applied; its orientation is the yaw-only rotation by the heading at
    the start of the tick minus [default_rotation_]; its twist is the twist
    of the tick: in velocity mode the held velocity command, with the angular
    rate as the tick reads it back from the quaternion that holds it
    ([held_angular], lines 300-301 and 318-319: the commanded rate wrapped
    into (-PI, PI]); in path mode the turn rate alone on a turning tick, the
    linear velocity along the unit direction with the quotient
    [angular error / dt] on a moving tick. *)
Theorem odometry_of_tick (s : State) (simTime : R) :
  exists s' o,
    OnUpdate s simTime = Some s' /\
    actor_pub_ s' = o :: actor_pub_ s /\
    frame_id o = "map"%string /\
    pose_position_x o = Vector3d.X (position_of s) /\
    pose_position_y o = Vector3d.Y (position_of s) /\
    pose_orientation o
    = mkQuaternion 0 0 (sin (reported_heading s / 2))
                   (cos (reported_heading s / 2)) /\
    (follow_mode_ s = "velocity"%string ->
     twist_linear_x o = held_linear s * cos (reported_heading s) /\
     twist_linear_y o = held_linear s * sin (reported_heading s) /\
     twist_angular_z o = Finite (held_angular s)) /\
    (follow_mode_ s = "path"%string ->
     (Rabs (angular_error s) > ang_tolerance_ s ->
      twist_linear_x o = 0 /\ twist_linear_y o = 0 /\
      twist_angular_z o
      = Finite (rot_sign (angular_error s) * ang_velocity_ s)) /\
     (Rabs (angular_error s) <= ang_tolerance_ s ->
      twist_linear_x o = Vector2d.X (motion_vector s) * lin_velocity_ s /\
      twist_linear_y o = Vector2d.Y (motion_vector s) * lin_velocity_ s /\
      twist_angular_z o
      = fdiv (angular_error s) (simTime - last_update_ s))).
Proof.
  destruct (String.eqb_spec (follow_mode_ s) "path") as [Hp | Hp].
  - destruct (OnUpdate_path_fields s simTime Hp)
      as [s' [s1 [pos1 [E [_ [_ [_ [Hpub _]]]]]]]].
    exists s', (path_tick_odom s (simTime - last_update_ s)).
    split; [exact E|]. split; [exact Hpub|].
    unfold path_tick_odom.
    destruct (Rgt_dec _ _) as [H | H]; cbn;
      rewrite setRPY_yaw_only;
      (repeat (split; [reflexivity|]));
      (split; [intros Hv; congruence|]);
      intros _; split; intros H'; try lra; auto.
  - destruct (String.eqb_spec (follow_mode_ s) "velocity") as [Hv | Hv].
    + destruct (OnUpdate_velocity_fields s simTime Hv)
        as [s' [E [_ [Hpub _]]]].
      eexists s', _. split; [exact E|]. split; [exact Hpub|].
      cbn. rewrite setRPY_yaw_only.
      repeat (split; [reflexivity|]).
      split; [auto | intros Hp'; congruence].
    + eexists _, _. split; [apply OnUpdate_other_eq; assumption|].
      split; [reflexivity|]. cbn.
      change (Quaterniond.Yaw (Pose3d.Rot (tick_pose s)) - default_rotation_ s)
        with (reported_heading s).
      rewrite setRPY_yaw_only.
      repeat (split; [reflexivity|]).
      split; intros; congruence.
Qed.

Lemma odometry_of_tick_witness :
  exists s' o,
    OnUpdate cruising 1 = Some s' /\
    actor_pub_ s' = o :: actor_pub_ cruising /\
    pose_position_x o = Vector3d.X (position_of cruising) /\
    pose_position_y o = Vector3d.Y (position_of cruising) /\
    twist_linear_x o = held_linear cruising * cos (reported_heading cruising) /\
    twist_linear_y o = held_linear cruising * sin (reported_heading cruising) /\
    twist_angular_z o = Finite (held_angular cruising).
Proof.
  destruct (odometry_of_tick cruising 1)
    as [s' [o [E [Hpub [_ [Hx [Hy [_ [Hvel _]]]]]]]]].
  destruct (Hvel eq_refl) as [H1 [H2 H3]].
  exists s', o. auto 10.
Defined.

(** C6 as stated fails: an actor at the origin with the velocity command
    (1, 0) ticks for one second; it moves to x = 1, and the record published
    by that tick has x = 0. *)
Lemma odometry_of_tick_counterexample :
  exists s' o,
    OnUpdate cruising 1 = Some s' /\
    actor_pub_ s' = [o] /\
    Vector3d.X (position_of s') = 1 /\
    pose_position_x o = 0 /\
    pose_position_x o <> Vector3d.X (position_of s').
Proof.
  destruct (OnUpdate_velocity_fields cruising 1 eq_refl)
    as [s' [E [Hp [Hpub _]]]].
  eexists s', _. split; [exact E|]. split; [exact Hpub|].
  assert (Hx : Vector3d.X (position_of s') = 1).
  { unfold position_of at 1. rewrite Hp.
    unfold held_linear, reported_heading, heading_of, position_of, tick_pose.
    cbn. replace (0 - 0) with 0 by ring. rewrite cos_0. ring. }
  split; [exact Hx|]. split; [reflexivity|].
  rewrite Hx. cbn. lra.
Qed.

(** ** C7: the distance to the target across a tick *)

(** C7 (amended): for every non-aborted Path-Following state with a
    non-empty waypoint list, with [d] the distance to the current target.
    If [d] is not below [lin_tolerance_], the tick keeps the target and
    either turns in place, holding [d] (angular error above
    [ang_tolerance_]), or moves the actor to the distance
    [|d - lin_velocity_ * dt|], which is less than [d] exactly when
    [0 < lin_velocity_ * dt < 2 * d].  If [d] is below [lin_tolerance_] and
    there is no further waypoint, the tick holds [d]. *)
Theorem distance_to_target_after_tick (s : State) (simTime : R) :
  follow_mode_ s = "path"%string ->
  abort_ s = false ->
  target_poses_ s <> [] ->
  exists s',
    OnUpdate s simTime = Some s' /\
    let d := distance_to_target s in
    let d' := distance_to_target s' in
    let step := lin_velocity_ s * (simTime - last_update_ s) in
    (~ d < lin_tolerance_ s ->
     target_pose_ s' = target_pose_ s /\
     (Rabs (angular_error s) > ang_tolerance_ s -> d' = d) /\
     (Rabs (angular_error s) <= ang_tolerance_ s ->
      (d = 0 -> d' = 0) /\
      (0 < d -> d' = Rabs (d - step) /\ (d' < d <-> 0 < step < 2 * d)))) /\
    (d < lin_tolerance_ s ->
     ~ (idx_ s < List.length (target_poses_ s) - 1)%nat ->
     target_pose_ s' = target_pose_ s /\ d' = d).
Proof.
  intros Hm Ha Hl.
  destruct (OnUpdate_path_fields s simTime Hm)
    as [s' [s1 [pos1 [E [C [Hmv [Hpose [_ [_ [_ [Ht _]]]]]]]]]]].
  exists s'. split; [exact E|]. cbv zeta.
  assert (HP : position_of s'
               = Pose3d.Pos (path_tick_pose s (simTime - last_update_ s)))
    by (unfold position_of; rewrite Hpose; reflexivity).
  split.
  - intros Hd.
    apply target_case_keep_inv in C; auto. destruct C as [-> ->].
    cbn in Ht. split; [exact Ht|].
    unfold path_tick_pose in HP.
    destruct (Rgt_dec _ _) as [H | H]; (split; [intros H'|intros H']);
      try lra.
    + apply distance_same_place; assumption.
    + cbn in HP. split.
      * intros H0. apply Length_zero_components in H0 as Hc.
        rewrite <- H0. apply distance_same_place; [exact Ht|].
        rewrite HP, Hmv. unfold OnUpdate_path_direction.
        destruct (Req_dec_T _ 0) as [_ | Hne]; [|destruct (Hne H0)].
        destruct Hc as [-> ->]. apply Vector3d_eta; ring.
      * intros H0.
        assert (Hn : Vector2d.Length (to_target s) <> 0)
          by (change (distance_to_target s <> 0); lra).
        rewrite Hmv, direction_nonzero in HP by exact Hn.
        assert (Hd' : distance_to_target s'
                      = Rabs (distance_to_target s
                              - lin_velocity_ s
                                * (simTime - last_update_ s))).
        { apply distance_after_move; [exact H0 | exact Ht | |];
            rewrite HP; cbn;
            change (Vector2d.Length (to_target s))
              with (distance_to_target s); ring. }
        split; [exact Hd'|]. rewrite Hd'.
        unfold Rabs. destruct (Rcase_abs _); split; intros; lra.
  - intros Hd Hi.
    apply target_case_done_inv in C; auto. destruct C as [-> ->].
    cbn in Ht. split; [exact Ht|].
    apply distance_same_place; [exact Ht|].
    rewrite HP. unfold path_tick_pose.
    rewrite Hmv, direction_zero.
    destruct (Rgt_dec _ _); cbn; [reflexivity|].
    apply Vector3d_eta; ring.
Qed.

Lemma distance_to_target_after_tick_witness :
  exists s',
    OnUpdate walker 1 = Some s' /\
    let d := distance_to_target walker in
    let d' := distance_to_target s' in
    let step := lin_velocity_ walker * (1 - last_update_ walker) in
    (~ d < lin_tolerance_ walker ->
     target_pose_ s' = target_pose_ walker /\
     (Rabs (angular_error walker) > ang_tolerance_ walker -> d' = d) /\
     (Rabs (angular_error walker) <= ang_tolerance_ walker ->
      (d = 0 -> d' = 0) /\
      (0 < d -> d' = Rabs (d - step) /\ (d' < d <-> 0 < step < 2 * d)))) /\
    (d < lin_tolerance_ walker ->
     ~ (idx_ walker < List.length (target_poses_ walker) - 1)%nat ->
     target_pose_ s' = target_pose_ walker /\ d' = d).
Proof.
  apply (distance_to_target_after_tick walker 1).
  - reflexivity.
  - reflexivity.
  - discriminate.
Defined.

(** C7 as stated fails: the turning actor is not aborted, its list is not
    empty, it is 10 units from its target with [lin_tolerance_] 1/10, and a
    tick of one second leaves it at the same distance: it turns in place. *)
Lemma distance_to_target_after_tick_counterexample :
  follow_mode_ turning = "path"%string /\
  abort_ turning = false /\
  target_poses_ turning <> [] /\
  exists s',
    OnUpdate turning 1 = Some s' /\
    target_pose_ s' = target_pose_ turning /\
    distance_to_target s' = distance_to_target turning /\
    ~ distance_to_target s' < distance_to_target turning /\
    ~ distance_to_target turning < lin_tolerance_ turning.
Proof.
  split; [reflexivity|]. split; [reflexivity|]. split; [discriminate|].
  destruct (path_state_tick 1 0 1 1) as [s' [E [Hp [_ [Ht _]]]]].
  exists s'. split; [exact E|]. split; [exact Ht|].
  assert (He : angular_error turning = - (1 - 0)).
  { apply path_state_angular_error. pose proof PI2_1. lra. }
  assert (Hd : distance_to_target s' = distance_to_target turning).
  { apply distance_same_place; [exact Ht|].
    unfold position_of at 1. rewrite Hp. unfold path_tick_pose.
    fold turning. rewrite He.
    pose proof IGN_DTOR_5_bounds as Hb.
    destruct (Rgt_dec _ _) as [_ | H]; [reflexivity|].
    exfalso. apply H. cbn [ang_tolerance_ turning path_state].
    replace (- (1 - 0)) with (- (1)) by ring.
    rewrite Rabs_Ropp, Rabs_R1. lra. }
  split; [exact Hd|]. split; [lra|].
  unfold turning. rewrite path_state_distance. cbn. lra.
Qed.

(** ** C8: a held velocity command *)

Lemma held_ticks (v : R) (times : list R) :
  forall s,
    follow_mode_ s = "velocity"%string ->
    tl (cmd_queue_ s) = [] ->
    held_linear s = v -> held_angular s = 0 ->
    exists s' odoms,
      ticks s times = Some s' /\
      last_update_ s' = last times (last_update_ s) /\
      Vector3d.X (position_of s')
      = Vector3d.X (position_of s)
        + v * (last_update_ s' - last_update_ s) * cos (reported_heading s) /\
      Vector3d.Y (position_of s')
      = Vector3d.Y (position_of s)
        + v * (last_update_ s' - last_update_ s) * sin (reported_heading s) /\
      reported_heading s' = reported_heading s /\
      actor_pub_ s' = odoms ++ actor_pub_ s /\
      List.length odoms = List.length times /\
      Forall (fun o => pose_orientation o = setRPY 0 0 (reported_heading s))
             odoms.
Proof.
  induction times as [|t times IH]; intros s Hm Hq Hv Hw.
  - exists s, []. simpl. repeat split; auto; ring.
  - destruct (OnUpdate_velocity_fields s t Hm)
      as [s1 [E [Hp [Ho [Hq1 [Hv1 [Hw1 [Hm1 [Hd1 [Ht1 _]]]]]]]]]].
    assert (Hh : reported_heading s1 = reported_heading s).
    { unfold reported_heading, heading_of. rewrite Hp, Hd1, Hw. cbn.
      unfold heading_of. ring. }
    assert (Hq1' : cmd_queue_ s1 = []) by congruence.
    destruct (IH s1) as [s' [odoms [E' [Hl [Hx [Hy [Hh' [Hpub [Hlen Hall]]]]]]]]].
    + congruence.
    + rewrite Hq1'. reflexivity.
    + unfold held_linear. rewrite Hq1'. congruence.
    + unfold held_angular. rewrite Hq1'. congruence.
    + exists s', (odoms ++ [hd (mkOdometry "" 0 0 (setRPY 0 0 0) 0 0 NaN)
                             (actor_pub_ s1)]).
      simpl ticks. rewrite E.
      split; [exact E'|].
      split; [rewrite Hl, Ht1, last_cons; reflexivity|].
      rewrite Hh in *. rewrite Ht1 in *.
      assert (Hp1 : position_of s1 = Pose3d.Pos (tick_pose s1))
        by reflexivity.
      rewrite Hp1, Hp in Hx, Hy. cbn [Pose3d.Pos Vector3d.X Vector3d.Y] in Hx, Hy.
      split; [rewrite Hx, Hv; ring|].
      split; [rewrite Hy, Hv; ring|].
      split; [exact Hh'|].
      split; [rewrite Hpub, Ho, <- app_assoc; reflexivity|].
      split; [rewrite length_app, Hlen; simpl; lia|].
      apply Forall_app. split; [exact Hall|].
      constructor; [|constructor]. rewrite Ho. reflexivity.
Qed.

(** C8: in Velocity-Following mode, after a velocity command with
    [linear.x = 1] and [angular.z = 0] has been received on an empty
    command queue, any sequence of ticks, of total elapsed time [T] (the time
    of the last tick minus the time of the last update before the command),
    moves the actor by exactly [1 * T] along the heading that the odometry
    reports on each of these ticks, [heading - default_rotation_], whatever
    the value of [default_rotation_] is. *)
Theorem held_unit_velocity_advances_by_T (s : State) (msg : Twist)
        (times : list R) :
  follow_mode_ s = "velocity"%string ->
  cmd_queue_ s = [] ->
  Vector3d.X (linear msg) = 1 ->
  Vector3d.Z (angular msg) = 0 ->
  exists s' odoms,
    ticks (VelCallback s msg) times = Some s' /\
    let T := last times (last_update_ s) - last_update_ s in
    let h := heading_of s - default_rotation_ s in
    Vector3d.X (position_of s') = Vector3d.X (position_of s) + 1 * T * cos h /\
    Vector3d.Y (position_of s') = Vector3d.Y (position_of s) + 1 * T * sin h /\
    heading_of s' - default_rotation_ s' = h /\
    actor_pub_ s' = odoms ++ actor_pub_ s /\
    List.length odoms = List.length times /\
    Forall (fun o => pose_orientation o = setRPY 0 0 h) odoms.
Proof.
  intros Hm Hq Hx Hz.
  destruct (held_ticks 1 times (VelCallback s msg))
    as [s' [odoms [E [Hl [HX [HY [Hh [Hpub [Hlen Hall]]]]]]]]].
  - exact Hm.
  - unfold VelCallback. cbn. rewrite Hq. reflexivity.
  - unfold held_linear, VelCallback. cbn. rewrite Hq. cbn. exact Hx.
  - unfold held_angular, VelCallback. cbn [cmd_queue_ set_cmd_queue_].
    rewrite Hq. cbn [app Vector3d.Z]. rewrite Hz. exact EulerZ_0.
  - exists s', odoms. split; [exact E|].
    change (last_update_ (VelCallback s msg)) with (last_update_ s) in *.
    change (reported_heading (VelCallback s msg))
      with (heading_of s - default_rotation_ s) in *.
    change (position_of (VelCallback s msg)) with (position_of s) in *.
    change (actor_pub_ (VelCallback s msg)) with (actor_pub_ s) in *.
    rewrite Hl in HX, HY. cbv zeta. auto 10.
Qed.

Lemma held_unit_velocity_advances_by_T_witness :
  exists s' odoms,
    ticks (VelCallback (Load_defaults "velocity" (PI / 2) origin) unit_forward)
          [1; 2; 5]
    = Some s' /\
    let T := 5 - 0 in
    let h := 0 - PI / 2 in
    Vector3d.X (position_of s') = 0 + 1 * T * cos h /\
    Vector3d.Y (position_of s') = 0 + 1 * T * sin h /\
    heading_of s' - default_rotation_ s' = h /\
    actor_pub_ s' = odoms ++ [] /\
    List.length odoms = 3%nat /\
    Forall (fun o => pose_orientation o = setRPY 0 0 h) odoms.
Proof.
  apply (held_unit_velocity_advances_by_T
           (Load_defaults "velocity" (PI / 2) origin) unit_forward [1; 2; 5]);
    reflexivity.
Defined.

(** ** C9: the clip a tick selects *)

(** C9 (amended): the clip does not depend on the motion of the tick.  In
    Velocity-Following mode every tick selects "walking", whatever the
    command.  In Path-Following mode, for a non-aborted state with a
    non-empty waypoint list, a tick selects "standing" when the actor is
    within [lin_tolerance_] of its target and there is no further waypoint
    (and the actor then stays where it is), and "walking" in every other
    case, whether the tick moves the actor, turns it in place or, with
    [dt = 0], does nothing. *)
Theorem clip_of_tick (s : State) (simTime : R) :
  exists s',
    OnUpdate s simTime = Some s' /\
    (follow_mode_ s = "velocity"%string ->
     trajectoryInfo_type s' = "walking"%string) /\
    (follow_mode_ s = "path"%string ->
     abort_ s = false ->
     target_poses_ s <> [] ->
     (distance_to_target s < lin_tolerance_ s ->
      ~ (idx_ s < List.length (target_poses_ s) - 1)%nat ->
      trajectoryInfo_type s' = "standing"%string /\
      position_of s' = position_of s) /\
     (~ (distance_to_target s < lin_tolerance_ s /\
         ~ (idx_ s < List.length (target_poses_ s) - 1)%nat) ->
      trajectoryInfo_type s' = "walking"%string)).
Proof.
  destruct (String.eqb_spec (follow_mode_ s) "path") as [Hp | Hp].
  - destruct (OnUpdate_path_fields s simTime Hp)
      as [s' [s1 [pos1 [E [C [Hmv [Hpose [_ [_ [_ [_ [Hty _]]]]]]]]]]]].
    exists s'. split; [exact E|]. split; [congruence|].
    intros _ Ha Hl. split.
    + intros Hd Hi.
      apply target_case_done_inv in C; auto. destruct C as [-> ->].
      split; [exact Hty|].
      unfold position_of at 1. rewrite Hpose. unfold path_tick_pose.
      rewrite Hmv, direction_zero.
      destruct (Rgt_dec _ _); cbn; [reflexivity|].
      apply Vector3d_eta; ring.
    + intros Hn. rewrite Hty.
      destruct (Rlt_dec (distance_to_target s) (lin_tolerance_ s))
        as [Hd | Hd].
      * assert (Hi : (idx_ s < List.length (target_poses_ s) - 1)%nat).
        { destruct (Nat.lt_ge_cases (idx_ s)
                                    (List.length (target_poses_ s) - 1))
            as [Hi | Hi]; [exact Hi|].
          exfalso. apply Hn. split; [exact Hd | lia]. }
        apply target_case_next_inv in C; auto.
      * apply target_case_keep_inv in C; auto. destruct C as [-> _].
        reflexivity.
  - destruct (String.eqb_spec (follow_mode_ s) "velocity") as [Hv | Hv].
    + destruct (OnUpdate_velocity_fields s simTime Hv)
        as [s' [E [_ [_ [_ [_ [_ [_ [_ [_ [Hty _]]]]]]]]]]].
      exists s'. split; [exact E|]. split; [intros _; exact Hty|].
      intros Hp'. congruence.
    + destruct (OnUpdate_total s simTime) as [s' E].
      exists s'. split; [exact E|]. split; intros; congruence.
Qed.

Lemma clip_of_tick_witness :
  (exists s',
      OnUpdate idle 1 = Some s' /\
      trajectoryInfo_type s' = "walking"%string) /\
  (exists s',
      OnUpdate path_actor_loaded 1 = Some s' /\
      trajectoryInfo_type s' = "standing"%string /\
      position_of s' = position_of path_actor_loaded) /\
  (exists s',
      OnUpdate walker 1 = Some s' /\
      trajectoryInfo_type s' = "walking"%string).
Proof.
  split; [|split].
  - destruct (clip_of_tick idle 1) as [s' [E [H _]]].
    exists s'. split; [exact E | exact (H eq_refl)].
  - destruct (clip_of_tick path_actor_loaded 1) as [s' [E [_ H]]].
    assert (Hne : target_poses_ path_actor_loaded <> []) by discriminate.
    destruct (H eq_refl eq_refl Hne) as [Hs _].
    exists s'. split; [exact E|]. apply Hs.
    + unfold distance_to_target, to_target, Vector2d.Length. cbn.
      replace ((0 - 0) * (0 - 0) + (0 - 0) * (0 - 0)) with 0 by ring.
      rewrite sqrt_0. lra.
    + cbn. lia.
  - destruct (clip_of_tick walker 1) as [s' [E [_ H]]].
    assert (Hne : target_poses_ walker <> []) by discriminate.
    destruct (H eq_refl eq_refl Hne) as [_ Hw].
    exists s'. split; [exact E|]. apply Hw. intros [Hd _].
    unfold walker in Hd. rewrite path_state_distance in Hd. cbn in Hd. lra.
Defined.

(** C9 as stated fails: the idle actor has no command, linear speed and
    angular rate are 0, a tick of one second moves nothing, and the clip it
    selects is "walking". *)
Lemma clip_of_tick_counterexample :
  follow_mode_ idle = "velocity"%string /\
  held_linear idle = 0 /\ held_angular idle = 0 /\
  exists s',
    OnUpdate idle 1 = Some s' /\
    position_of s' = position_of idle /\
    heading_of s' = heading_of idle /\
    trajectoryInfo_type s' = "walking"%string /\
    trajectoryInfo_type s' <> "standing"%string.
Proof.
  assert (Hw : held_angular idle = 0).
  { change (held_angular idle) with (Quaterniond.EulerZ 0). exact EulerZ_0. }
  split; [reflexivity|]. split; [reflexivity|]. split; [exact Hw|].
  destruct (OnUpdate_velocity_fields idle 1 eq_refl)
    as [s' [E [Hp [_ [_ [_ [_ [_ [_ [_ [Hty _]]]]]]]]]]].
  exists s'. split; [exact E|].
  unfold position_of at 1, heading_of at 1. rewrite Hp, Hty, Hw.
  unfold held_linear, reported_heading, heading_of,
    position_of, tick_pose.
  cbn. split; [|split; [|split]].
  - unfold Vector3d.Zero. f_equal; ring.
  - ring.
  - reflexivity.
  - discriminate.
Qed.

(** ** C10: what a velocity sample can influence *)

(** C10: two runs of the plugin from the same state whose events agree
    except for the components of the velocity samples other than [linear.x]
    and [angular.z] end in the same state: the same actor pose, the same
    published odometry, the same everything.  Every prefix of the two runs
    is such a pair of runs, so this holds after every tick. *)
Theorem velocity_only_linear_x_angular_z getRPY_yaw (es1 es2 : list Event) :
  Forall2 event_agree es1 es2 ->
  forall s, run getRPY_yaw s es1 = run getRPY_yaw s es2.
Proof.
  induction 1 as [|e1 e2 es1 es2 He Hes IH]; intros s; simpl.
  - reflexivity.
  - rewrite (step_agree getRPY_yaw s e1 e2 He).
    destruct (step getRPY_yaw s e2) as [s1|]; [apply IH | reflexivity].
Qed.

Lemma velocity_only_linear_x_angular_z_witness :
  run yaw_of_z_w (Load_defaults "velocity" 0 origin)
      [EvVel sample_x_only; EvUpdate 1; EvUpdate 2]
  = run yaw_of_z_w (Load_defaults "velocity" 0 origin)
        [EvVel sample_all_axes; EvUpdate 1; EvUpdate 2].
Proof.
  apply (velocity_only_linear_x_angular_z
           yaw_of_z_w
           [EvVel sample_x_only; EvUpdate 1; EvUpdate 2]
           [EvVel sample_all_axes; EvUpdate 1; EvUpdate 2]).
  repeat constructor.
Defined.

(** * Further properties of the code *)

(** ** Runs: what is published, and what never changes *)

Lemma OnUpdate_frame (s s' : State) (simTime : R) :
  OnUpdate s simTime = Some s' ->
  same_parameters s s' /\
  (exists o,
      actor_pub_ s' = o :: actor_pub_ s /\
      pose_orientation o = setRPY 0 0 (reported_heading s)) /\
  Vector3d.Z (position_of s') = Vector3d.Z (position_of s) /\
  last_update_ s' = simTime.
Proof.
  intros E. unfold same_parameters.
  destruct (String.eqb_spec (follow_mode_ s) "path") as [Hp | Hp].
  - destruct (OnUpdate_path_eq s simTime Hp) as [s1 [pos1 [C [_ E1]]]].
    rewrite E1 in E. injection E as <-.
    destruct (target_case_params _ _ _ _ _ _ C)
      as [H1 [H2 [H3 [H4 [H5 [H6 [H7 [_ [_ H8]]]]]]]]].
    cbn in H1, H2, H3, H4, H5, H6, H7, H8.
    split; [cbn; auto 10|].
    split.
    + eexists. split; [cbn; rewrite H8; reflexivity|].
      unfold OnUpdate_path_steer.
      destruct (Rgt_dec _ _); reflexivity.
    + split; [|reflexivity].
      unfold position_of at 1, tick_pose at 1. cbn [OnUpdate_commit].
      cbn [actor_ set_last_update_ set_actor_ WorldPose].
      unfold OnUpdate_path_steer.
      destruct (Rgt_dec _ _); reflexivity.
  - destruct (String.eqb_spec (follow_mode_ s) "velocity") as [Hv | Hv].
    + destruct (OnUpdate_velocity_fields s simTime Hv)
        as [s1 [E1 [Hpose [Hpub [_ [_ [_ [_ [_ [Ht _]]]]]]]]]].
      rewrite E1 in E. injection E as <-.
      split.
      * rewrite (OnUpdate_velocity_eq s simTime Hv) in E1.
        injection E1 as <-. unfold OnUpdate_velocity.
        destruct (cmd_queue_ s); cbn; auto 10.
      * split; [eexists; split; [exact Hpub | reflexivity]|].
        split; [|exact Ht].
        unfold position_of at 1. rewrite Hpose. reflexivity.
    + rewrite (OnUpdate_other_eq s simTime Hp Hv) in E. injection E as <-.
      split; [cbn; auto 10|].
      split; [eexists; split; reflexivity|]. split; reflexivity.
Qed.

Lemma PathCallback_loop_frame {A : Type} (f : State -> A) getRPY_yaw
      (ps : list Pose) :
  (forall v s, f (set_target_poses_ v s) = f s) ->
  forall s,
    f (fold_left
         (fun s pose =>
            set_target_poses_
              (target_poses_ s ++ [PathCallback_target getRPY_yaw pose]) s)
         ps s)
    = f s.
Proof.
  intros Hf. induction ps as [|p ps IH]; intros s; simpl; [reflexivity|].
  rewrite IH. apply Hf.
Qed.

(** [PathCallback] writes the waypoint list, the index and the abort flag
    and nothing else. *)
Lemma PathCallback_frame {A : Type} (f : State -> A) getRPY_yaw
      (s : State) (msg : Path) :
  (forall v s, f (set_target_poses_ v s) = f s) ->
  (forall v s, f (set_idx_ v s) = f s) ->
  (forall v s, f (set_abort_ v s) = f s) ->
  f (PathCallback getRPY_yaw s msg) = f s.
Proof.
  intros H1 H2 H3. unfold PathCallback.
  rewrite (PathCallback_loop_frame f getRPY_yaw (poses msg) H1).
  rewrite H3, H2, H1. reflexivity.
Qed.

Lemma step_frame getRPY_yaw (s s' : State) (e : Event) :
  step getRPY_yaw s e = Some s' ->
  same_parameters s s' /\
  match e with
  | EvUpdate _ =>
      exists o,
        actor_pub_ s' = o :: actor_pub_ s /\
        pose_orientation o = setRPY 0 0 (reported_heading s)
  | _ => actor_pub_ s' = actor_pub_ s /\ actor_ s' = actor_ s
  end.
Proof.
  intros E. destruct e; simpl in E.
  - injection E as <-. unfold same_parameters. cbn. auto 10.
  - injection E as <-. unfold same_parameters.
    repeat split; apply PathCallback_frame; reflexivity.
  - injection E as <-. unfold same_parameters. cbn. auto 10.
  - destruct (OnUpdate_frame s s' simTime E) as [H1 [H2 _]]. auto.
Qed.

Lemma same_parameters_trans (s1 s2 s3 : State) :
  same_parameters s1 s2 -> same_parameters s2 s3 -> same_parameters s1 s3.
Proof.
  unfold same_parameters.
  intros [A1 [A2 [A3 [A4 [A5 [A6 A7]]]]]] [B1 [B2 [B3 [B4 [B5 [B6 B7]]]]]].
  repeat split; congruence.
Qed.

Lemma setRPY_unit_yaw_only (yaw : R) : unit_yaw_only (setRPY 0 0 yaw).
Proof.
  rewrite setRPY_yaw_only. unfold unit_yaw_only. cbn.
  split; [reflexivity|]. split; [reflexivity|].
  pose proof (sin2_cos2 (yaw / 2)) as H. unfold Rsqr in H. exact H.
Qed.

(** X1: in every run of the plugin, in any follow mode, each world-update
    event publishes exactly one odometry record and no command handler
    publishes any: the records published by the run are as many as its
    updates, they are put in front of the records published before, which
    are left as they were, and the orientation of each is a unit quaternion
    about the z axis. *)
Theorem run_publishes_once_per_update getRPY_yaw (es : list Event)
        (s : State) :
  exists s' new,
    run getRPY_yaw s es = Some s' /\
    actor_pub_ s' = new ++ actor_pub_ s /\
    List.length new = count_updates es /\
    Forall (fun o => unit_yaw_only (pose_orientation o)) new.
Proof.
  revert s. induction es as [|e es IH]; intros s.
  - exists s, []. simpl. auto.
  - destruct (run_total getRPY_yaw [e] s) as [s1 E1]. simpl in E1.
    destruct (step getRPY_yaw s e) as [s1'|] eqn:Es; [|discriminate].
    injection E1 as ->.
    destruct (IH s1) as [s' [new [E [Hpub [Hlen Hall]]]]].
    destruct (step_frame getRPY_yaw s s1 e Es) as [_ Hf].
    simpl run. rewrite Es.
    destruct e; try (destruct Hf as [Hf _];
                     exists s', new; rewrite <- Hf; simpl; auto).
    destruct Hf as [o [Ho Hq]].
    exists s', (new ++ [o]). split; [exact E|].
    split; [rewrite Hpub, Ho, <- app_assoc; reflexivity|].
    split; [rewrite length_app, Hlen; simpl; lia|].
    apply Forall_app. split; [exact Hall|].
    constructor; [|constructor]. rewrite Hq. apply setRPY_unit_yaw_only.
Qed.

(** X2: no run of the plugin changes the configuration read by [Load]: the
    follow mode, the two tolerances, the two speeds, the animation factor
    and the rotation offset are the same after any sequence of commands and
    ticks. *)
Theorem run_keeps_parameters getRPY_yaw (es : list Event) (s : State) :
  exists s', run getRPY_yaw s es = Some s' /\ same_parameters s s'.
Proof.
  revert s. induction es as [|e es IH]; intros s.
  - exists s. split; [reflexivity|]. unfold same_parameters. auto 10.
  - simpl run.
    destruct (step getRPY_yaw s e) as [s1|] eqn:Es.
    + destruct (IH s1) as [s' [E Hs]]. exists s'. split; [exact E|].
      destruct (step_frame getRPY_yaw s s1 e Es) as [H1 _].
      eapply same_parameters_trans; eauto.
    + destruct e; simpl in Es; try discriminate.
      destruct (OnUpdate_total s simTime) as [s1 E1]. congruence.
Qed.

(** ** The velocity samples *)

(** X3: in Velocity-Following mode each tick takes exactly one sample from
    the front of [cmd_queue_], in the order the samples were pushed: after
    [n] ticks the queue has lost its first [n] samples; while the queue
    lasts, the angular rates published by these ticks are the [angular.z] of
    those samples in order, each as it is read back from the quaternion that
    holds it (lines 300-301, 318-319), that is wrapped into (-PI, PI]; and
    the held velocity is the last sample taken (the one held before, when
    the queue was empty all along), its angular rate read back the same
    way. *)
Theorem velocity_samples_fifo (times : list R) :
  forall s,
    follow_mode_ s = "velocity"%string ->
    exists s' new,
      ticks s times = Some s' /\
      follow_mode_ s' = "velocity"%string /\
      cmd_queue_ s' = skipn (List.length times) (cmd_queue_ s) /\
      actor_pub_ s' = new ++ actor_pub_ s /\
      ((List.length times <= List.length (cmd_queue_ s))%nat ->
       map twist_angular_z (rev new)
       = map (fun c => Finite (Quaterniond.EulerZ (Vector3d.Z c)))
             (firstn (List.length times) (cmd_queue_ s))) /\
      Vector3d.X (Pose3d.Pos (target_vel_ s'))
      = last (map Vector3d.X (firstn (List.length times) (cmd_queue_ s)))
             (Vector3d.X (Pose3d.Pos (target_vel_ s))) /\
      Quaterniond.EulerZ (Quaterniond.Yaw (Pose3d.Rot (target_vel_ s')))
      = last (map (fun c => Quaterniond.EulerZ (Vector3d.Z c))
                  (firstn (List.length times) (cmd_queue_ s)))
             (Quaterniond.EulerZ
                (Quaterniond.Yaw (Pose3d.Rot (target_vel_ s)))).
Proof.
  induction times as [|t times IH]; intros s Hm.
  - exists s, []. simpl. auto 10.
  - destruct (OnUpdate_velocity_fields s t Hm)
      as [s1 [E [_ [Ho [Hq1 [Hv1 [Hw1 [Hm1 _]]]]]]]].
    rewrite Hm in Hm1.
    destruct (IH s1 Hm1) as [s' [new [E' [Hm' [Hq [Hpub [Htw [Hx Hz]]]]]]]].
    eexists s', (new ++ [_]). simpl ticks. rewrite E.
    split; [exact E'|]. split; [exact Hm'|].
    rewrite Hq1 in Hq, Htw, Hx, Hz. rewrite Hv1 in Hx. rewrite Hw1 in Hz.
    unfold held_linear in Hx. unfold held_angular in Hz, Ho.
    split; [|split; [rewrite Hpub, Ho, <- app_assoc; reflexivity|]].
    + rewrite Hq. destruct (cmd_queue_ s) as [|c q]; simpl.
      * destruct (List.length times); reflexivity.
      * reflexivity.
    + destruct (cmd_queue_ s) as [|c q];
        cbn [tl List.length firstn map] in *.
      * split; [intros H; lia|].
        rewrite firstn_nil in Hx, Hz. cbn [map last] in Hx, Hz. auto.
      * split.
        -- intros H. rewrite rev_app_distr. simpl. f_equal.
           apply Htw. lia.
        -- rewrite !last_cons. auto.
Qed.

(** ** The waypoint list: reset, advance, empty path, abort *)

Lemma Reset_result (skelAnims : list string) (s : State) :
  exists s',
    Reset skelAnims s = Some s' /\
    idx_ s' = 0%nat /\
    last_update_ s' = 0 /\
    target_poses_ s'
    = target_poses_ s
        ++ [Vector3d.mk (Vector3d.X (position_of s))
                        (Vector3d.Y (position_of s)) (heading_of s)] /\
    target_pose_ s'
    = hd (Vector3d.mk (Vector3d.X (position_of s))
                      (Vector3d.Y (position_of s)) (heading_of s))
         (target_poses_ s) /\
    trajectoryInfo_type s'
    = (if existsb (String.eqb WALKING_ANIMATION) skelAnims
          && existsb (String.eqb STANDING_ANIMATION) skelAnims
       then STANDING_ANIMATION else trajectoryInfo_type s) /\
    abort_ s' = abort_ s /\
    cmd_queue_ s' = cmd_queue_ s /\
    actor_ s' = actor_ s.
Proof.
  unfold Reset. cbv zeta.
  set (p := Vector3d.mk _ _ _).
  assert (Hat : nth_error (target_poses_ s ++ [p]) 0
                = Some (hd p (target_poses_ s)))
    by (destruct (target_poses_ s); reflexivity).
  cbn [target_poses_ idx_ set_target_poses_ set_idx_ set_last_update_].
  rewrite Hat.
  destruct (existsb (String.eqb WALKING_ANIMATION) skelAnims);
    [destruct (existsb (String.eqb STANDING_ANIMATION) skelAnims)|];
    cbn [negb andb]; eexists; (split; [reflexivity|]); cbn; auto 10.
Qed.

Lemma target_case_next_full (s : State) pose pos d s1 pos1 :
  abort_ s = false -> target_poses_ s <> [] -> d < lin_tolerance_ s ->
  (idx_ s < List.length (target_poses_ s) - 1)%nat ->
  target_case s pose pos d s1 pos1 ->
  exists p,
    nth_error (target_poses_ s) (S (idx_ s)) = Some p /\
    s1 = set_target_pose_ p (set_idx_ (S (idx_ s)) s) /\
    pos1 = Vector2d.mk (Vector3d.X p - Vector3d.X (Pose3d.Pos pose))
                       (Vector3d.Y p - Vector3d.Y (Pose3d.Pos pose)).
Proof.
  intros Ha Hl Hd Hi C.
  destruct C as [Hg | p Ha' Hl' Hd' Hi' Hp | Ha' Hl' Hd' Hi' | Ha' Hl' Hd'];
    try tauto; try (destruct Hg; congruence).
  exists p. auto.
Qed.

Lemma OnUpdate_next (s : State) (simTime : R) :
  follow_mode_ s = "path"%string ->
  abort_ s = false ->
  distance_to_target s < lin_tolerance_ s ->
  (idx_ s < List.length (target_poses_ s) - 1)%nat ->
  exists s' p,
    OnUpdate s simTime = Some s' /\
    nth_error (target_poses_ s) (S (idx_ s)) = Some p /\
    idx_ s' = S (idx_ s) /\
    target_pose_ s' = p /\
    target_poses_ s' = target_poses_ s /\
    trajectoryInfo_type s' = WALKING_ANIMATION /\
    motion_vector s
    = OnUpdate_path_direction
        (Vector2d.mk (Vector3d.X p - Vector3d.X (position_of s))
                     (Vector3d.Y p - Vector3d.Y (position_of s))).
Proof.
  intros Hm Ha Hd Hi.
  assert (Hl : target_poses_ s <> []).
  { intros H. rewrite H in Hi. simpl in Hi. lia. }
  destruct (OnUpdate_path_fields s simTime Hm)
    as [s' [s1 [pos1 [E [C [Hmv [_ [_ [Hl' [Hi' [Ht [Hty _]]]]]]]]]]]].
  apply target_case_next_full in C; auto.
  destruct C as [p [Hp [-> ->]]].
  exists s', p. cbn in Hp, Hl', Hi', Ht, Hty. auto 10.
Qed.

Lemma hold_ticks (times : list R) :
  forall s,
    follow_mode_ s = "path"%string -> guard_holds s ->
    exists s',
      ticks s times = Some s' /\
      position_of s' = position_of s /\
      abort_ s' = abort_ s /\
      follow_mode_ s' = "path"%string /\
      (times <> [] -> target_poses_ s' = [] /\ idx_ s' = 0%nat).
Proof.
  induction times as [|t times IH]; intros s Hm Hg.
  - exists s. simpl. repeat split; auto; congruence.
  - destruct (OnUpdate_hold s t Hm Hg)
      as [s1 [E [Hp [Hl [Hi [_ [_ [_ [Ha1 Hm1]]]]]]]]].
    rewrite Hm in Hm1.
    destruct (IH s1 Hm1 (or_intror Hl)) as [s' [E' [Hp' [Ha' [Hm' H']]]]].
    exists s'. simpl. rewrite E. split; [exact E'|].
    split; [congruence|]. split; [congruence|]. split; [exact Hm'|].
    intros _. destruct times as [|t' times'].
    + simpl in E'. injection E' as <-. auto.
    + apply H'. discriminate.
Qed.

(** X4: in Path-Following mode a path command without waypoints stops the
    actor: after [PathCallback] on an empty [poses], any sequence of ticks
    leaves the actor where it is, with an empty waypoint list, index 0 and
    the abort flag cleared. *)
Theorem empty_path_holds getRPY_yaw (s : State) (msg : Path)
        (times : list R) :
  follow_mode_ s = "path"%string ->
  poses msg = [] ->
  exists s',
    ticks (PathCallback getRPY_yaw s msg) times = Some s' /\
    position_of s' = position_of s /\
    target_poses_ s' = [] /\ idx_ s' = 0%nat /\ abort_ s' = false.
Proof.
  intros Hm Hp.
  destruct (PathCallback_fields getRPY_yaw s msg) as [Hl [Hi [Ha _]]].
  rewrite Hp in Hl. simpl in Hl.
  assert (Hm' : follow_mode_ (PathCallback getRPY_yaw s msg)
                = "path"%string)
    by (rewrite PathCallback_frame; auto).
  assert (Hpos : position_of (PathCallback getRPY_yaw s msg)
                 = position_of s)
    by (apply PathCallback_frame; reflexivity).
  destruct (hold_ticks times _ Hm' (or_intror Hl))
    as [s' [E [Hp' [Ha' [_ H']]]]].
  exists s'. split; [exact E|]. split; [congruence|].
  destruct times as [|t times].
  - simpl in E. injection E as <-. auto.
  - destruct H' as [H1 H2]; [discriminate|]. split; [exact H1|].
    split; [exact H2 | congruence].
Qed.

(** X5: an abort discards the path.  Once a path tick has run with the
    abort flag set, clearing the flag with [AbortCallback] does not resume
    the motion: the waypoint list is empty and every later tick leaves the
    actor where it was. *)
Theorem cleared_abort_does_not_resume (s : State) (simTime : R)
        (times : list R) :
  follow_mode_ s = "path"%string ->
  abort_ s = true ->
  exists s1 s',
    OnUpdate s simTime = Some s1 /\
    ticks (AbortCallback s1 false) times = Some s' /\
    abort_ s' = false /\
    target_poses_ s' = [] /\
    position_of s' = position_of s.
Proof.
  intros Hm Ha.
  destruct (OnUpdate_hold s simTime Hm (or_introl Ha))
    as [s1 [E [Hp [Hl [Hi [_ [_ [_ [Ha1 Hm1]]]]]]]]].
  rewrite Hm in Hm1.
  destruct (hold_ticks times (AbortCallback s1 false) Hm1 (or_intror Hl))
    as [s' [E' [Hp' [Ha' [_ H']]]]].
  exists s1, s'. split; [exact E|]. split; [exact E'|].
  split; [exact Ha'|].
  split; [|rewrite Hp'; exact Hp].
  destruct times as [|t times].
  - simpl in E'. injection E' as <-. exact Hl.
  - apply H'. discriminate.
Qed.

(** ** Path mode and the velocity samples *)

Lemma OnUpdate_path_target_cmd_queue (q : list Vector3d.t) (s : State)
      pose pos d :
  OnUpdate_path_target (set_cmd_queue_ q s) pose pos d
  = match OnUpdate_path_target s pose pos d with
    | Some (s1, pos1) => Some (set_cmd_queue_ q s1, pos1)
    | None => None
    end.
Proof.
  unfold OnUpdate_path_target.
  cbn [abort_ target_poses_ lin_tolerance_ idx_ set_cmd_queue_].
  destruct (abort_ s || _); [reflexivity|].
  destruct (Rlt_dec d (lin_tolerance_ s)); [|reflexivity].
  destruct (idx_ s <? _)%nat; [|reflexivity].
  rewrite !ChooseNewTarget_eq.
  cbn [abort_ target_poses_ lin_tolerance_ idx_ set_cmd_queue_].
  destruct (nth_error _ _); reflexivity.
Qed.

Lemma OnUpdate_path_cmd_queue (q : list Vector3d.t) (s : State)
      (simTime : R) :
  follow_mode_ s = "path"%string ->
  OnUpdate (set_cmd_queue_ q s) simTime
  = option_map (set_cmd_queue_ q) (OnUpdate s simTime).
Proof.
  intros Hm. unfold OnUpdate.
  cbn [follow_mode_ set_cmd_queue_]. rewrite Hm. simpl String.eqb. cbv iota.
  unfold OnUpdate_path. cbv zeta.
  change (set_trajectoryInfo_type WALKING_ANIMATION (set_cmd_queue_ q s))
    with (set_cmd_queue_ q (set_trajectoryInfo_type WALKING_ANIMATION s)).
  rewrite OnUpdate_path_target_cmd_queue.
  cbn [actor_ target_pose_ last_update_ set_cmd_queue_
              set_trajectoryInfo_type].
  destruct (OnUpdate_path_target _ _ _ _) as [[s1 pos1]|]; [|reflexivity].
  change (OnUpdate_path_yaw (set_cmd_queue_ q s1))
    with (OnUpdate_path_yaw s1).
  change (OnUpdate_path_steer (set_cmd_queue_ q s1))
    with (OnUpdate_path_steer s1).
  change (OnUpdate_odom (set_cmd_queue_ q s)) with (OnUpdate_odom s).
  destruct (OnUpdate_path_steer _ _ _ _ _ _ _) as [pose odom].
  reflexivity.
Qed.

Lemma PathCallback_cmd_queue getRPY_yaw (q : list Vector3d.t) (s : State)
      (msg : Path) :
  PathCallback getRPY_yaw (set_cmd_queue_ q s) msg
  = set_cmd_queue_ q (PathCallback getRPY_yaw s msg).
Proof.
  unfold PathCallback.
  change (set_abort_ false
            (set_idx_ 0%nat (set_target_poses_ [] (set_cmd_queue_ q s))))
    with (set_cmd_queue_ q
            (set_abort_ false (set_idx_ 0%nat (set_target_poses_ [] s)))).
  generalize (set_abort_ false (set_idx_ 0%nat (set_target_poses_ [] s))).
  induction (poses msg) as [|p ps IH]; intros s0; simpl; [reflexivity|].
  rewrite <- IH. reflexivity.
Qed.

Lemma set_cmd_queue_same (s : State) : set_cmd_queue_ (cmd_queue_ s) s = s.
Proof. destruct s. reflexivity. Qed.

Lemma run_path_samples getRPY_yaw (es : list Event) :
  forall s q,
    follow_mode_ s = "path"%string ->
    run getRPY_yaw (set_cmd_queue_ q s) es
    = option_map (set_cmd_queue_ (q ++ samples es))
                 (run getRPY_yaw s (without_samples es)).
Proof.
  induction es as [|e es IH]; intros s q Hm.
  - simpl. rewrite app_nil_r. reflexivity.
  - destruct e as [msg | msg | data | t]; simpl.
    + change (VelCallback (set_cmd_queue_ q s) msg)
        with (set_cmd_queue_ (q ++ [vel_cmd_of msg]) s).
      rewrite IH by exact Hm. rewrite <- app_assoc. reflexivity.
    + rewrite PathCallback_cmd_queue. apply IH.
      rewrite PathCallback_frame; auto.
    + change (AbortCallback (set_cmd_queue_ q s) data)
        with (set_cmd_queue_ q (AbortCallback s data)).
      apply IH. exact Hm.
    + rewrite OnUpdate_path_cmd_queue by exact Hm.
      destruct (OnUpdate s t) as [s1|] eqn:E; simpl; [|reflexivity].
      apply IH. destruct (OnUpdate_frame s s1 t E) as [[H _] _]. congruence.
Qed.

(** X6: in Path-Following mode velocity samples are never read and never
    removed.  A run ends in the state of the same run without its velocity
    samples, except that [cmd_queue_] holds, behind what it held, every
    sample of the run in order. *)
Theorem path_mode_never_reads_samples getRPY_yaw (es : list Event)
        (s : State) :
  follow_mode_ s = "path"%string ->
  exists s' s'',
    run getRPY_yaw s es = Some s' /\
    run getRPY_yaw s (without_samples es) = Some s'' /\
    s' = set_cmd_queue_ (cmd_queue_ s ++ samples es) s''.
Proof.
  intros Hm.
  destruct (run_total getRPY_yaw (without_samples es) s) as [s'' E''].
  exists (set_cmd_queue_ (cmd_queue_ s ++ samples es) s''), s''.
  split; [|split; [exact E'' | reflexivity]].
  rewrite <- (set_cmd_queue_same s) at 1.
  rewrite run_path_samples by exact Hm. rewrite E''. reflexivity.
Qed.

(** ** Velocity mode and the path and abort commands *)

Lemma PathCallback_closed_form getRPY_yaw (s : State) (msg : Path) :
  PathCallback getRPY_yaw s msg
  = set_abort_
      false
      (set_idx_ 0%nat
                (set_target_poses_
                   (map (PathCallback_target getRPY_yaw) (poses msg)) s)).
Proof.
  unfold PathCallback.
  assert (H : forall ps s0,
             fold_left
               (fun s pose =>
                  set_target_poses_
                    (target_poses_ s ++ [PathCallback_target getRPY_yaw pose])
                    s) ps s0
             = set_target_poses_
                 (target_poses_ s0
                    ++ map (PathCallback_target getRPY_yaw) ps) s0).
  { induction ps as [|p ps IH]; intros s0; simpl.
    - rewrite app_nil_r. destruct s0. reflexivity.
    - rewrite IH. cbn [target_poses_ set_target_poses_].
      rewrite <- app_assoc. reflexivity. }
  rewrite H. reflexivity.
Qed.

Lemma OnUpdate_velocity_goal a i l p (s : State) (simTime : R) :
  follow_mode_ s = "velocity"%string ->
  OnUpdate (set_goal a i l p s) simTime
  = option_map (set_goal a i l p) (OnUpdate s simTime).
Proof.
  intros Hm. unfold OnUpdate.
  change (follow_mode_ (set_goal a i l p s)) with (follow_mode_ s).
  rewrite Hm. simpl String.eqb. cbv iota.
  unfold OnUpdate_velocity. cbv zeta.
  change (cmd_queue_
            (set_trajectoryInfo_type WALKING_ANIMATION (set_goal a i l p s)))
    with (cmd_queue_ s).
  change (cmd_queue_ (set_trajectoryInfo_type WALKING_ANIMATION s))
    with (cmd_queue_ s).
  destruct (cmd_queue_ s); reflexivity.
Qed.

Lemma run_velocity_goals getRPY_yaw (es : list Event) :
  forall s a i l p,
    follow_mode_ s = "velocity"%string ->
    exists a' i' l' p',
      run getRPY_yaw (set_goal a i l p s) es
      = option_map (set_goal a' i' l' p')
                   (run getRPY_yaw s (without_goals es)).
Proof.
  induction es as [|e es IH]; intros s a i l p Hm.
  - exists a, i, l, p. reflexivity.
  - destruct e as [msg | msg | data | t]; simpl.
    + change (VelCallback (set_goal a i l p s) msg)
        with (set_goal a i l p (VelCallback s msg)).
      apply IH. exact Hm.
    + rewrite PathCallback_closed_form.
      change (set_abort_ false
                (set_idx_ 0%nat
                   (set_target_poses_
                      (map (PathCallback_target getRPY_yaw) (poses msg))
                      (set_goal a i l p s))))
        with (set_goal false 0%nat
                       (map (PathCallback_target getRPY_yaw) (poses msg))
                       p s).
      apply IH. exact Hm.
    + change (AbortCallback (set_goal a i l p s) data)
        with (set_goal data i l p s).
      apply IH. exact Hm.
    + rewrite OnUpdate_velocity_goal by exact Hm.
      destruct (OnUpdate s t) as [s1|] eqn:E; simpl.
      * apply IH. destruct (OnUpdate_frame s s1 t E) as [[H _] _]. congruence.
      * exists a, i, l, p. reflexivity.
Qed.

Lemma set_goal_same (s : State) :
  set_goal (abort_ s) (idx_ s) (target_poses_ s) (target_pose_ s) s = s.
Proof. destruct s. reflexivity. Qed.

(** X7: in Velocity-Following mode path and abort commands have no effect
    on the actor: a run ends with the same actor pose and animation clock,
    the same published odometry, the same command queue, held velocity,
    clip and update time as the run without its path and abort
    commands. *)
Theorem velocity_mode_ignores_goals getRPY_yaw (es : list Event)
        (s : State) :
  follow_mode_ s = "velocity"%string ->
  exists s' s'',
    run getRPY_yaw s es = Some s' /\
    run getRPY_yaw s (without_goals es) = Some s'' /\
    actor_ s' = actor_ s'' /\
    actor_pub_ s' = actor_pub_ s'' /\
    cmd_queue_ s' = cmd_queue_ s'' /\
    target_vel_ s' = target_vel_ s'' /\
    trajectoryInfo_type s' = trajectoryInfo_type s'' /\
    last_update_ s' = last_update_ s''.
Proof.
  intros Hm.
  destruct (run_total getRPY_yaw (without_goals es) s) as [s'' E''].
  destruct (run_velocity_goals getRPY_yaw es s (abort_ s) (idx_ s)
                               (target_poses_ s) (target_pose_ s) Hm)
    as [a [i [l [p H]]]].
  rewrite set_goal_same, E'' in H. simpl in H.
  exists (set_goal a i l p s''), s''.
  split; [exact H|]. split; [exact E''|]. cbn. auto 10.
Qed.

(** ** The range of the angular error *)

Lemma atan_sign (t : R) :
  (t <= 0 -> atan t <= 0) /\ (0 < t -> 0 < atan t).
Proof.
  split; intros H.
  - destruct H as [H | ->]; [|rewrite atan_0; lra].
    pose proof (atan_increasing t 0 H) as Hi. rewrite atan_0 in Hi. lra.
  - pose proof (atan_increasing 0 t H) as Hi. rewrite atan_0 in Hi. lra.
Qed.

Lemma atan2_range (y x : R) : - PI < atan2 y x <= PI.
Proof.
  pose proof PI_RGT_0 as Hpi. unfold atan2.
  destruct (Rlt_dec 0 x) as [Hx | Hx].
  - pose proof (atan_bound (y / x)). lra.
  - destruct (Rlt_dec x 0) as [Hx' | Hx'].
    + pose proof (atan_bound (y / x)) as Hb.
      destruct (atan_sign (y / x)) as [Hn Hp].
      destruct (Rle_dec 0 y) as [Hy | Hy].
      * assert (y / x <= 0).
        { unfold Rdiv. pose proof (Rinv_lt_0_compat x Hx'). nra. }
        specialize (Hn H). lra.
      * assert (0 < y / x).
        { unfold Rdiv. pose proof (Rinv_lt_0_compat x Hx'). nra. }
        specialize (Hp H). lra.
    + destruct (Rlt_dec 0 y); [lra|]. destruct (Rlt_dec y 0); lra.
Qed.

Lemma Normalize_range (a : R) : - PI < Normalize a <= PI.
Proof. apply atan2_range. Qed.

Lemma Normalize_ext (a b : R) :
  cos a = cos b -> sin a = sin b -> Normalize a = Normalize b.
Proof. intros Hc Hs. unfold Normalize. rewrite Hc, Hs. reflexivity. Qed.

Lemma Normalize_id (a : R) : - PI < a <= PI -> Normalize a = a.
Proof.
  intros [Hl Hu]. pose proof PI_RGT_0 as Hpi.
  destruct (Rlt_dec (- (PI / 2)) a) as [H1 | H1].
  - destruct (Rlt_dec a (PI / 2)) as [H2 | H2].
    + apply Normalize_small. lra.
    + destruct (Req_dec a (PI / 2)) as [-> | Hne].
      * unfold Normalize, atan2. rewrite cos_PI2, sin_PI2.
        destruct (Rlt_dec 0 0); [lra|]. destruct (Rlt_dec 0 0); [lra|].
        destruct (Rlt_dec 0 1); lra.
      * assert (Hc : cos a < 0) by (apply cos_lt_0; lra).
        assert (Hs : 0 <= sin a) by (apply sin_ge_0; lra).
        unfold Normalize, atan2.
        destruct (Rlt_dec 0 (cos a)); [lra|].
        destruct (Rlt_dec (cos a) 0); [|lra].
        destruct (Rle_dec 0 (sin a)); [|lra].
        assert (Ht : sin a / cos a = tan (a - PI)).
        { unfold tan, Rminus. rewrite sin_plus, cos_plus, cos_neg, sin_neg.
          rewrite cos_PI, sin_PI. field. lra. }
        rewrite Ht, atan_tan by lra. ring.
  - destruct (Req_dec a (- (PI / 2))) as [-> | Hne].
    + unfold Normalize, atan2. rewrite cos_neg, sin_neg, cos_PI2, sin_PI2.
      destruct (Rlt_dec 0 0); [lra|]. destruct (Rlt_dec 0 0); [lra|].
      destruct (Rlt_dec 0 (- (1))); [lra|].
      destruct (Rlt_dec (- (1)) 0); lra.
    + assert (Hc : cos a < 0).
      { rewrite <- cos_neg. apply cos_lt_0; lra. }
      assert (Hs : sin a < 0) by (apply sin_lt_0_var; lra).
      unfold Normalize, atan2.
      destruct (Rlt_dec 0 (cos a)); [lra|].
      destruct (Rlt_dec (cos a) 0); [|lra].
      destruct (Rle_dec 0 (sin a)); [lra|].
      assert (Ht : sin a / cos a = tan (a + PI)).
      { unfold tan. rewrite neg_sin, neg_cos. field. lra. }
      rewrite Ht, atan_tan by lra. ring.
Qed.

(** X8: the angular error of a path tick (the local [yaw] of lines
    271-275) is always in the half-open turn (-PI, PI], and it is 0 when
    the tick has no motion vector. *)
Theorem angular_error_range (s : State) :
  - PI < angular_error s <= PI /\
  (Vector2d.Length (motion_vector s) = 0 -> angular_error s = 0).
Proof.
  pose proof PI_RGT_0 as Hpi.
  unfold angular_error, OnUpdate_path_yaw.
  destruct (Req_dec_T (Vector2d.Length (motion_vector s)) 0) as [E | E].
  - split; [lra | reflexivity].
  - split; [apply Normalize_range | tauto].
Qed.

(** ** Ticks that keep their target *)

Lemma Length_scaled (v w : Vector2d.t) (k : R) :
  0 <= k ->
  Vector2d.X w = k * Vector2d.X v -> Vector2d.Y w = k * Vector2d.Y v ->
  Vector2d.Length w = k * Vector2d.Length v.
Proof.
  intros Hk Hx Hy. unfold Vector2d.Length. rewrite Hx, Hy.
  replace (k * Vector2d.X v * (k * Vector2d.X v)
           + k * Vector2d.Y v * (k * Vector2d.Y v))
    with ((k * k) * (Vector2d.X v * Vector2d.X v
                     + Vector2d.Y v * Vector2d.Y v)) by ring.
  rewrite sqrt_mult; [|nra|nra].
  rewrite sqrt_square by exact Hk. reflexivity.
Qed.

(** The unit direction depends on the ray only. *)
Lemma direction_scaled (v w : Vector2d.t) (k : R) :
  0 < k -> Vector2d.Length v <> 0 ->
  Vector2d.X w = k * Vector2d.X v -> Vector2d.Y w = k * Vector2d.Y v ->
  OnUpdate_path_direction w = OnUpdate_path_direction v.
Proof.
  intros Hk Hv Hx Hy.
  assert (Hl : Vector2d.Length w = k * Vector2d.Length v)
    by (apply Length_scaled; [lra | exact Hx | exact Hy]).
  assert (Hw : Vector2d.Length w <> 0).
  { rewrite Hl. apply Rmult_integral_contrapositive. split; [lra | exact Hv]. }
  rewrite !direction_nonzero by assumption.
  unfold Vector2d.div. rewrite Hl, Hx, Hy. f_equal; field; split; lra.
Qed.

(** A path tick that keeps its target. *)
Lemma OnUpdate_keep (s : State) (simTime : R) :
  follow_mode_ s = "path"%string ->
  abort_ s = false -> target_poses_ s <> [] ->
  ~ distance_to_target s < lin_tolerance_ s ->
  exists s',
    OnUpdate s simTime = Some s' /\
    tick_pose s' = path_tick_pose s (simTime - last_update_ s) /\
    motion_vector s = OnUpdate_path_direction (to_target s) /\
    target_pose_ s' = target_pose_ s /\
    target_poses_ s' = target_poses_ s /\
    idx_ s' = idx_ s /\
    abort_ s' = false /\
    trajectoryInfo_type s' = WALKING_ANIMATION /\
    last_update_ s' = simTime /\
    same_parameters s s'.
Proof.
  intros Hm Ha Hl Hd.
  destruct (OnUpdate_path_fields s simTime Hm)
    as [s' [s1 [pos1 [E [C [Hmv [Hp [_ [Hl' [Hi' [Ht [Hty [Hlu [_ [_ [_ Hab]]]]]]]]]]]]]]]].
  apply target_case_keep_inv in C; auto. destruct C as [-> ->].
  destruct (OnUpdate_frame s s' simTime E) as [Hpar _].
  exists s'. cbn in Hl', Hi', Ht, Hty. rewrite Ha in Hab. auto 12.
Qed.

Lemma to_target_components (s : State) :
  Vector2d.X (to_target s)
  = Vector3d.X (target_pose_ s) - Vector3d.X (position_of s) /\
  Vector2d.Y (to_target s)
  = Vector3d.Y (target_pose_ s) - Vector3d.Y (position_of s).
Proof. split; reflexivity. Qed.

Lemma angular_error_unfold (s : State) :
  Vector2d.Length (motion_vector s) <> 0 ->
  angular_error s
  = Normalize (atan2 (Vector2d.Y (motion_vector s))
                     (Vector2d.X (motion_vector s))
               + default_rotation_ s - heading_of s).
Proof.
  intros H. unfold angular_error, OnUpdate_path_yaw.
  destruct (Req_dec_T _ 0); [tauto | reflexivity].
Qed.

(** X9: a tick that turns in place turns towards the target.  For a
    non-aborted actor farther from its target than [lin_tolerance_], with
    an angular error above [ang_tolerance_], a tick whose turn
    [ang_velocity_ * dt] is between 0 and the absolute angular error keeps
    position and target, and the angular error of the next tick is the
    old one moved towards 0 by exactly that turn. *)
Theorem turning_reduces_angular_error (s : State) (simTime : R) :
  follow_mode_ s = "path"%string ->
  abort_ s = false ->
  target_poses_ s <> [] ->
  ~ distance_to_target s < lin_tolerance_ s ->
  0 < distance_to_target s ->
  Rabs (angular_error s) > ang_tolerance_ s ->
  0 <= ang_velocity_ s * (simTime - last_update_ s)
    <= Rabs (angular_error s) ->
  exists s',
    OnUpdate s simTime = Some s' /\
    position_of s' = position_of s /\
    target_pose_ s' = target_pose_ s /\
    angular_error s'
    = angular_error s
      - rot_sign (angular_error s)
        * (ang_velocity_ s * (simTime - last_update_ s)) /\
    Rabs (angular_error s')
    = Rabs (angular_error s)
      - ang_velocity_ s * (simTime - last_update_ s).
Proof.
  intros Hm Ha Hl Hd Hpos Herr Hstep.
  destruct (OnUpdate_keep s simTime Hm Ha Hl Hd)
    as [s' [E [Hp [Hmv [Ht [Hl' [_ [Ha' [_ [_ Hpar]]]]]]]]]].
  destruct Hpar as [Hm' [Hlt [_ [_ [_ [_ Hdr]]]]]].
  unfold path_tick_pose in Hp.
  destruct (Rgt_dec _ _) as [_ | H]; [|tauto].
  assert (HP : position_of s' = position_of s)
    by (unfold position_of at 1; rewrite Hp; reflexivity).
  assert (HH : heading_of s'
               = heading_of s
                 + rot_sign (angular_error s) * ang_velocity_ s
                   * (simTime - last_update_ s))
    by (unfold heading_of at 1; rewrite Hp; reflexivity).
  assert (HT : to_target s' = to_target s)
    by (unfold to_target; rewrite Ht, HP; reflexivity).
  assert (Hmv' : motion_vector s' = motion_vector s).
  { rewrite Hmv. rewrite motion_vector_keep.
    - rewrite HT. reflexivity.
    - exact Ha'.
    - rewrite Hl'. exact Hl.
    - unfold distance_to_target. rewrite HT, Hlt. exact Hd. }
  assert (Hn : Vector2d.Length (motion_vector s) <> 0).
  { rewrite Hmv, direction_nonzero, Length_div;
      change (Vector2d.Length (to_target s)) with (distance_to_target s);
      lra. }
  exists s'. split; [exact E|]. split; [exact HP|]. split; [exact Ht|].
  assert (He : angular_error s'
               = angular_error s
                 - rot_sign (angular_error s)
                   * (ang_velocity_ s * (simTime - last_update_ s))).
  { rewrite (angular_error_unfold s') by (rewrite Hmv'; exact Hn).
    rewrite Hmv', Hdr, HH.
    set (a := atan2 (Vector2d.Y (motion_vector s))
                    (Vector2d.X (motion_vector s))
              + default_rotation_ s - heading_of s).
    assert (Hea : angular_error s = Normalize a)
      by (apply angular_error_unfold; exact Hn).
    rewrite Hea in *.
    set (d := rot_sign (Normalize a)
              * (ang_velocity_ s * (simTime - last_update_ s))).
    destruct (Normalize_cos_sin a) as [Hc Hs].
    transitivity (Normalize (Normalize a - d)).
    - apply Normalize_ext.
      + replace (atan2 (Vector2d.Y (motion_vector s))
                       (Vector2d.X (motion_vector s))
                 + default_rotation_ s
                 - (heading_of s
                    + rot_sign (Normalize a) * ang_velocity_ s
                      * (simTime - last_update_ s)))
          with (a - d) by (unfold d, a; ring).
        rewrite !cos_minus, Hc, Hs. reflexivity.
      + replace (atan2 (Vector2d.Y (motion_vector s))
                       (Vector2d.X (motion_vector s))
                 + default_rotation_ s
                 - (heading_of s
                    + rot_sign (Normalize a) * ang_velocity_ s
                      * (simTime - last_update_ s)))
          with (a - d) by (unfold d, a; ring).
        rewrite !sin_minus, Hc, Hs. reflexivity.
    - apply Normalize_id.
      pose proof (Normalize_range a) as Hr.
      unfold d, rot_sign.
      destruct (Rlt_dec (Normalize a) 0) as [Hneg | Hneg].
      + rewrite Rabs_left in Hstep by exact Hneg. lra.
      + rewrite Rabs_right in Hstep by lra. lra. }
  split; [exact He|].
  rewrite He. unfold rot_sign.
  destruct (Rlt_dec (angular_error s) 0) as [Hneg | Hneg].
  - rewrite (Rabs_left (angular_error s)) in * by exact Hneg.
    rewrite Rabs_left1 by lra. ring.
  - rewrite (Rabs_right (angular_error s)) in * by lra.
    rewrite Rabs_right by lra. ring.
Qed.

Lemma Normalize_0 : Normalize 0 = 0.
Proof. apply Normalize_small. pose proof PI2_RGT_0. lra. Qed.

(** A moving tick that stops short of the tolerance: the actor advances
    along the unit direction, which stays the direction of the next tick,
    and the heading it snaps to leaves no angular error. *)
Lemma OnUpdate_move_short (s : State) (simTime : R) :
  follow_mode_ s = "path"%string ->
  abort_ s = false ->
  target_poses_ s <> [] ->
  Rabs (angular_error s) <= ang_tolerance_ s ->
  let d := distance_to_target s in
  let step := lin_velocity_ s * (simTime - last_update_ s) in
  0 <= step < d ->
  ~ d - step < lin_tolerance_ s ->
  exists s',
    OnUpdate s simTime = Some s' /\
    Vector3d.X (position_of s')
    = Vector3d.X (position_of s) + Vector2d.X (motion_vector s) * step /\
    Vector3d.Y (position_of s')
    = Vector3d.Y (position_of s) + Vector2d.Y (motion_vector s) * step /\
    distance_to_target s' = d - step /\
    motion_vector s' = motion_vector s /\
    angular_error s' = 0 /\
    cos (reported_heading s') = Vector2d.X (motion_vector s) /\
    sin (reported_heading s') = Vector2d.Y (motion_vector s) /\
    target_pose_ s' = target_pose_ s /\
    target_poses_ s' = target_poses_ s /\
    idx_ s' = idx_ s /\
    abort_ s' = false /\
    trajectoryInfo_type s' = WALKING_ANIMATION /\
    last_update_ s' = simTime /\
    same_parameters s s'.
Proof.
  intros Hm Ha Hl Herr d step Hstep Hshort.
  assert (Hd : ~ distance_to_target s < lin_tolerance_ s)
    by (fold d; lra).
  destruct (OnUpdate_keep s simTime Hm Ha Hl Hd)
    as [s' [E [Hp [Hmv [Ht [Hl' [Hi' [Ha' [Hty [Hlu Hpar]]]]]]]]]].
  pose proof Hpar as [Hm' [Hlt [_ [_ [_ [_ Hdr]]]]]].
  unfold path_tick_pose in Hp.
  destruct (Rgt_dec _ _) as [H | _]; [lra|].
  assert (Hn : Vector2d.Length (to_target s) <> 0)
    by (change (d <> 0); lra).
  assert (Hu : Vector2d.Length (motion_vector s) = 1)
    by (rewrite Hmv, direction_nonzero by exact Hn; apply Length_div;
        exact Hn).
  assert (Hux : Vector2d.X (motion_vector s) = Vector2d.X (to_target s) / d)
    by (rewrite Hmv, direction_nonzero by exact Hn; reflexivity).
  assert (Huy : Vector2d.Y (motion_vector s) = Vector2d.Y (to_target s) / d)
    by (rewrite Hmv, direction_nonzero by exact Hn; reflexivity).
  assert (HX : Vector3d.X (position_of s')
               = Vector3d.X (position_of s)
                 + Vector2d.X (motion_vector s) * step)
    by (unfold position_of at 1; rewrite Hp; unfold step; cbn; ring).
  assert (HY : Vector3d.Y (position_of s')
               = Vector3d.Y (position_of s)
                 + Vector2d.Y (motion_vector s) * step)
    by (unfold position_of at 1; rewrite Hp; unfold step; cbn; ring).
  assert (HH : heading_of s' = heading_of s + angular_error s)
    by (unfold heading_of at 1; rewrite Hp; reflexivity).
  destruct (to_target_components s) as [Htx Hty0].
  destruct (to_target_components s') as [Htx' Hty'].
  assert (Hkx : Vector2d.X (to_target s')
                = (1 - step / d) * Vector2d.X (to_target s)).
  { rewrite Htx', Ht, HX, Hux, Htx. field. lra. }
  assert (Hky : Vector2d.Y (to_target s')
                = (1 - step / d) * Vector2d.Y (to_target s)).
  { rewrite Hty', Ht, HY, Huy, Hty0. field. lra. }
  assert (Hk : 0 < 1 - step / d).
  { assert (step / d < 1); [|lra].
    apply (Rmult_lt_reg_r d); [lra|]. unfold Rdiv.
    rewrite Rmult_assoc, Rinv_l by lra. lra. }
  assert (Hd' : distance_to_target s' = d - step).
  { unfold distance_to_target.
    rewrite (Length_scaled (to_target s) (to_target s') (1 - step / d));
      [| lra | exact Hkx | exact Hky].
    change (Vector2d.Length (to_target s)) with d. field. lra. }
  assert (Hmv' : motion_vector s' = motion_vector s).
  { rewrite Hmv. rewrite motion_vector_keep.
    - apply (direction_scaled (to_target s) (to_target s') (1 - step / d));
        assumption.
    - exact Ha'.
    - rewrite Hl'. exact Hl.
    - rewrite Hd', Hlt. exact Hshort. }
  assert (Hn1 : Vector2d.Length (motion_vector s) <> 0) by lra.
  assert (He : angular_error s' = 0).
  { rewrite (angular_error_unfold s') by (rewrite Hmv'; exact Hn1).
    rewrite Hmv', Hdr, HH, (angular_error_unfold s Hn1).
    set (a := atan2 (Vector2d.Y (motion_vector s))
                    (Vector2d.X (motion_vector s))
              + default_rotation_ s - heading_of s).
    destruct (Normalize_cos_sin a) as [Hc Hs].
    pose proof (sin2_cos2 a) as H1. unfold Rsqr in H1.
    transitivity (Normalize 0); [|exact Normalize_0]. apply Normalize_ext.
    - replace (atan2 (Vector2d.Y (motion_vector s))
                     (Vector2d.X (motion_vector s))
               + default_rotation_ s - (heading_of s + Normalize a))
        with (a - Normalize a) by (unfold a; ring).
      rewrite cos_minus, Hc, Hs, cos_0. lra.
    - replace (atan2 (Vector2d.Y (motion_vector s))
                     (Vector2d.X (motion_vector s))
               + default_rotation_ s - (heading_of s + Normalize a))
        with (a - Normalize a) by (unfold a; ring).
      rewrite sin_minus, Hc, Hs, sin_0. ring. }
  assert (Hb : cos (reported_heading s') = Vector2d.X (motion_vector s) /\
               sin (reported_heading s') = Vector2d.Y (motion_vector s)).
  { unfold reported_heading. rewrite HH, Hdr.
    apply (snapped_heading_is_bearing s (tick_rpy s) (motion_vector s) Hu). }
  destruct Hb as [Hb1 Hb2].
  exists s'. auto 20.
Qed.

Lemma nondecreasing_last (times : list R) :
  forall t0, nondecreasing_from t0 times -> t0 <= last times t0.
Proof.
  induction times as [|t times IH]; intros t0 H; simpl in H.
  - simpl. lra.
  - destruct H as [H1 H2]. rewrite last_cons.
    specialize (IH t H2). lra.
Qed.

(** X10: straight-line progress.  A non-aborted path-following actor whose
    angular error is within [ang_tolerance_], with a non-negative
    [lin_velocity_], ticked at non-decreasing times of total elapsed time
    [T] such that [lin_velocity_ * T] is less than the distance [d] to the
    target and leaves the actor outside [lin_tolerance_], moves by exactly
    [lin_velocity_ * T] along the unit direction to the target: it ends at
    distance [d - lin_velocity_ * T] of the same target, with the same
    index, walking, its reported heading along that direction. *)
Theorem straight_line_progress (times : list R) :
  forall s,
    follow_mode_ s = "path"%string ->
    abort_ s = false ->
    target_poses_ s <> [] ->
    Rabs (angular_error s) <= ang_tolerance_ s ->
    0 <= lin_velocity_ s ->
    nondecreasing_from (last_update_ s) times ->
    let T := last times (last_update_ s) - last_update_ s in
    lin_velocity_ s * T < distance_to_target s ->
    ~ distance_to_target s - lin_velocity_ s * T < lin_tolerance_ s ->
    exists s',
      ticks s times = Some s' /\
      Vector3d.X (position_of s')
      = Vector3d.X (position_of s)
        + Vector2d.X (motion_vector s) * (lin_velocity_ s * T) /\
      Vector3d.Y (position_of s')
      = Vector3d.Y (position_of s)
        + Vector2d.Y (motion_vector s) * (lin_velocity_ s * T) /\
      distance_to_target s' = distance_to_target s - lin_velocity_ s * T /\
      target_pose_ s' = target_pose_ s /\
      idx_ s' = idx_ s /\
      (times <> [] ->
       trajectoryInfo_type s' = WALKING_ANIMATION /\
       cos (reported_heading s') = Vector2d.X (motion_vector s) /\
       sin (reported_heading s') = Vector2d.Y (motion_vector s)).
Proof.
  induction times as [|t times IH]; intros s Hm Ha Hl Herr Hv Hs T HT Hshort.
  - exists s. unfold T. simpl.
    replace (last_update_ s - last_update_ s) with 0 by ring.
    repeat split; try ring; try reflexivity; congruence.
  - destruct Hs as [Hs1 Hs2].
    pose proof (nondecreasing_last times t Hs2) as Hlast.
    unfold T in *. rewrite last_cons in *.
    set (lu := last_update_ s) in *. set (tn := last times t) in *.
    set (v := lin_velocity_ s) in *. set (d := distance_to_target s) in *.
    assert (Hstep : 0 <= v * (t - lu) <= v * (tn - lu)) by nra.
    destruct (OnUpdate_move_short s t Hm Ha Hl Herr)
      as [s1 [E [HX [HY [Hd1 [Hmv1 [He1 [Hc1 [Hs1' [Ht1 [Hl1 [Hi1 [Ha1
         [Hty1 [Hlu1 Hpar]]]]]]]]]]]]]]].
    { fold v lu d. lra. }
    { fold v lu d. lra. }
    destruct Hpar as [Hm1 [Hlt1 [Hlv1 [Hat1 _]]]].
    fold v lu d in HX, HY, Hd1.
    destruct (IH s1) as [s' [E' [HX' [HY' [Hd' [Ht' [Hi' Hne]]]]]]].
    + congruence.
    + exact Ha1.
    + rewrite Hl1. exact Hl.
    + rewrite He1, Rabs_R0, Hat1. pose proof (Rabs_pos (angular_error s)).
      lra.
    + rewrite Hlv1. exact Hv.
    + rewrite Hlu1. exact Hs2.
    + rewrite Hlu1, Hlv1, Hd1. fold v tn. nra.
    + rewrite Hlu1, Hlv1, Hd1, Hlt1. fold v tn. nra.
    + rewrite Hlu1, Hlv1, Hmv1 in HX', HY'. rewrite Hlu1, Hlv1 in Hd'.
      fold v tn in HX', HY', Hd'.
      exists s'. simpl ticks. rewrite E.
      split; [exact E'|].
      split; [rewrite HX', HX; ring|].
      split; [rewrite HY', HY; ring|].
      split; [rewrite Hd', Hd1; ring|].
      split; [congruence|]. split; [congruence|].
      intros _. destruct times as [|t' times'].
      * simpl in E'. injection E' as <-. auto.
      * destruct Hne as [H1 [H2 H3]]; [discriminate|].
        rewrite Hmv1 in H2, H3. auto.
Qed.

(** ** The travelled distance and the animation clock *)

Lemma planar_move_length (p : Vector3d.t) (a b : R) :
  Vector3d.Length
    (Vector3d.sub
       (Vector3d.mk (Vector3d.X p + a) (Vector3d.Y p + b) (Vector3d.Z p)) p)
  = sqrt (a * a + b * b).
Proof.
  unfold Vector3d.Length, Vector3d.sub. cbn. f_equal. ring.
Qed.

Lemma scaled_length (x y k : R) :
  sqrt (x * k * (x * k) + y * k * (y * k))
  = sqrt (x * x + y * y) * Rabs k.
Proof.
  replace (x * k * (x * k) + y * k * (y * k))
    with ((x * x + y * y) * (k * k)) by ring.
  rewrite sqrt_mult; [|nra|nra].
  f_equal. change (k * k) with (Rsqr k). apply sqrt_Rsqr_abs.
Qed.

(** X11: the animation clock advances by the travelled distance times
    [animation_factor_], so it never goes back when the factor is not
    negative.  The travelled distance of a velocity tick is
    [|speed * dt|]; that of a path tick is 0 when it turns in place and
    [|lin_velocity_ * dt|] when it moves along a motion vector; that of a
    tick in any other follow mode is 0. *)
Theorem animation_clock_of_tick (s : State) (simTime : R) :
  exists s',
    OnUpdate s simTime = Some s' /\
    let dt := simTime - last_update_ s in
    ScriptTime (actor_ s')
    = ScriptTime (actor_ s) + distanceTraveled s s' * animation_factor_ s /\
    (0 <= animation_factor_ s ->
     ScriptTime (actor_ s) <= ScriptTime (actor_ s')) /\
    (follow_mode_ s = "velocity"%string ->
     distanceTraveled s s' = Rabs (held_linear s * dt)) /\
    (follow_mode_ s = "path"%string ->
     (Rabs (angular_error s) > ang_tolerance_ s ->
      distanceTraveled s s' = 0) /\
     (Rabs (angular_error s) <= ang_tolerance_ s ->
      Vector2d.Length (motion_vector s) <> 0 ->
      distanceTraveled s s' = Rabs (lin_velocity_ s * dt))) /\
    (follow_mode_ s <> "velocity"%string ->
     follow_mode_ s <> "path"%string ->
     distanceTraveled s s' = 0).
Proof.
  destruct (OnUpdate_position s simTime) as [s' [E [Hst Hpos]]].
  exists s'. split; [exact E|]. cbv zeta. split; [exact Hst|].
  split.
  { intros Hf. rewrite Hst.
    assert (0 <= distanceTraveled s s') by apply sqrt_pos. nra. }
  unfold distanceTraveled. rewrite Hpos.
  destruct (String.eqb_spec (follow_mode_ s) "path") as [Hp | Hp].
  - split; [intros Hv; congruence|]. split; [|tauto].
    intros _. unfold path_tick_pose.
    destruct (Rgt_dec _ _) as [H | H]; (split; [intros H'|intros H' Hn]);
      try lra; cbn [Pose3d.Pos].
    + apply Length3_self.
    + replace (Vector2d.X (motion_vector s) * lin_velocity_ s
               * (simTime - last_update_ s))
        with (Vector2d.X (motion_vector s)
              * (lin_velocity_ s * (simTime - last_update_ s))) by ring.
      replace (Vector2d.Y (motion_vector s) * lin_velocity_ s
               * (simTime - last_update_ s))
        with (Vector2d.Y (motion_vector s)
              * (lin_velocity_ s * (simTime - last_update_ s))) by ring.
      rewrite planar_move_length, scaled_length.
      change (sqrt (Vector2d.X (motion_vector s) * Vector2d.X (motion_vector s)
                    + Vector2d.Y (motion_vector s)
                      * Vector2d.Y (motion_vector s)))
        with (Vector2d.Length (motion_vector s)).
      unfold motion_vector in *.
      destruct (OnUpdate_path_target _ _ _ _) as [[s1 pos1]|].
      * destruct (Length_direction pos1 Hn) as [_ ->]. ring.
      * destruct (Hn Length_zero).
  - destruct (String.eqb_spec (follow_mode_ s) "velocity") as [Hv | Hv].
    + split; [|split; [intros; congruence | tauto]].
      intros _.
      replace (held_linear s * cos (reported_heading s)
               * (simTime - last_update_ s))
        with (cos (reported_heading s)
              * (held_linear s * (simTime - last_update_ s))) by ring.
      replace (held_linear s * sin (reported_heading s)
               * (simTime - last_update_ s))
        with (sin (reported_heading s)
              * (held_linear s * (simTime - last_update_ s))) by ring.
      rewrite planar_move_length, scaled_length.
      replace (cos (reported_heading s) * cos (reported_heading s)
               + sin (reported_heading s) * sin (reported_heading s))
        with 1.
      * rewrite sqrt_1. ring.
      * pose proof (sin2_cos2 (reported_heading s)) as H.
        unfold Rsqr in H. lra.
    + split; [intros; congruence|]. split; [intros; congruence|].
      intros _ _. apply Length3_self.
Qed.

(** ** Edge cases of the configuration *)

(** X12: with a follow mode that is neither "path" nor "velocity" a tick
    does not control the actor: pose, animation clock, clip, command
    queue, held velocity and waypoint state are unchanged; the tick still
    publishes the actor's pose with a zero twist and records the update
    time. *)
Theorem unknown_follow_mode_tick (s : State) (simTime : R) :
  follow_mode_ s <> "path"%string ->
  follow_mode_ s <> "velocity"%string ->
  exists s',
    OnUpdate s simTime = Some s' /\
    tick_pose s' = tick_pose s /\
    ScriptTime (actor_ s') = ScriptTime (actor_ s) /\
    actor_pub_ s'
    = mkOdometry "map" (Vector3d.X (position_of s))
                 (Vector3d.Y (position_of s))
                 (setRPY 0 0 (reported_heading s)) 0 0 (Finite 0)
        :: actor_pub_ s /\
    last_update_ s' = simTime /\
    trajectoryInfo_type s' = trajectoryInfo_type s /\
    cmd_queue_ s' = cmd_queue_ s /\
    target_vel_ s' = target_vel_ s /\
    abort_ s' = abort_ s /\
    idx_ s' = idx_ s /\
    target_poses_ s' = target_poses_ s /\
    target_pose_ s' = target_pose_ s.
Proof.
  intros Hp Hv. eexists. split; [apply OnUpdate_other_eq; assumption|].
  split; [reflexivity|]. split.
  - cbn. change (WorldPose (actor_ s)) with (tick_pose s).
    rewrite Length3_self. ring.
  - cbn. repeat split.
Qed.

(** X13: with a negative [ang_tolerance_] every path tick turns in place:
    the position is unchanged and the heading changes by the signed
    [ang_velocity_ * dt].  The sign is positive for an angular error of 0
    or more, so an aborted actor, or one without waypoints, whose angular
    error is 0, keeps turning in the positive direction. *)
Theorem negative_angular_tolerance_spins (s : State) (simTime : R) :
  follow_mode_ s = "path"%string ->
  ang_tolerance_ s < 0 ->
  exists s',
    OnUpdate s simTime = Some s' /\
    position_of s' = position_of s /\
    heading_of s'
    = heading_of s
      + rot_sign (angular_error s) * ang_velocity_ s
        * (simTime - last_update_ s) /\
    (0 <= angular_error s ->
     heading_of s'
     = heading_of s + ang_velocity_ s * (simTime - last_update_ s)) /\
    (abort_ s = true \/ target_poses_ s = [] -> angular_error s = 0).
Proof.
  intros Hm Htol.
  destruct (OnUpdate_path_fields s simTime Hm)
    as [s' [s1 [pos1 [E [_ [_ [Hp _]]]]]]].
  exists s'. split; [exact E|].
  unfold path_tick_pose in Hp.
  pose proof (Rabs_pos (angular_error s)) as Habs.
  destruct (Rgt_dec _ _) as [_ | H]; [|lra].
  assert (HH : heading_of s'
               = heading_of s
                 + rot_sign (angular_error s) * ang_velocity_ s
                   * (simTime - last_update_ s))
    by (unfold heading_of at 1; rewrite Hp; reflexivity).
  split; [unfold position_of at 1; rewrite Hp; reflexivity|].
  split; [exact HH|]. split.
  - intros H0. rewrite HH. unfold rot_sign.
    destruct (Rlt_dec (angular_error s) 0); [lra | ring].
  - intros Hg. apply angular_error_zero_vector, motion_vector_hold.
    exact Hg.
Qed.

(** X14: in both follow modes a tick writes the actor's orientation with
    roll [default_rotation_] and pitch 0, whatever they were, and leaves
    the height (z) of the actor unchanged. *)
Theorem tick_writes_roll_and_pitch (s : State) (simTime : R) :
  follow_mode_ s = "path"%string \/ follow_mode_ s = "velocity"%string ->
  exists s',
    OnUpdate s simTime = Some s' /\
    Quaterniond.Roll (Pose3d.Rot (tick_pose s')) = default_rotation_ s /\
    Quaterniond.Pitch (Pose3d.Rot (tick_pose s')) = 0 /\
    Vector3d.Z (position_of s') = Vector3d.Z (position_of s).
Proof.
  intros [Hm | Hm].
  - destruct (OnUpdate_path_fields s simTime Hm)
      as [s' [s1 [pos1 [E [_ [_ [Hp _]]]]]]].
    exists s'. split; [exact E|].
    unfold position_of at 1. rewrite Hp. unfold path_tick_pose.
    destruct (Rgt_dec _ _); cbn; auto.
  - destruct (OnUpdate_velocity_fields s simTime Hm) as [s' [E [Hp _]]].
    exists s'. split; [exact E|].
    unfold position_of at 1. rewrite Hp. cbn. auto.
Qed.

(** ** [Load] *)

Lemma override_frame {A B : Type} (f : State -> B) (element : option A)
      (set : A -> State -> State) (s : State) :
  (forall v s, f (set v s) = f s) ->
  f (override element set s) = f s.
Proof. intros H. destruct element; simpl; [apply H | reflexivity]. Qed.

Lemma Load_result (ros_isInitialized : bool) (_model : Actor)
        (skelAnims : list string) (_sdf : SDF) (s : State) :
  exists s',
    Load ros_isInitialized _model skelAnims _sdf s = Some s' /\
    follow_mode_ s' = configured (sdf_follow_mode _sdf) "velocity"%string /\
    lin_tolerance_ s' = configured (sdf_linear_tolerance _sdf) (1 / 10) /\
    lin_velocity_ s' = configured (sdf_linear_velocity _sdf) 1 /\
    ang_tolerance_ s' = configured (sdf_angular_tolerance _sdf) (IGN_DTOR 5) /\
    ang_velocity_ s' = configured (sdf_angular_velocity _sdf) (IGN_DTOR 10) /\
    animation_factor_ s' = configured (sdf_animation_factor _sdf) 4 /\
    default_rotation_ s'
    = configured (sdf_default_rotation _sdf) (default_rotation_ s) /\
    abort_ s' = false /\
    cmd_queue_ s' = cmd_queue_ s /\
    actor_pub_ s' = actor_pub_ s /\
    (ros_isInitialized = false ->
     actor_ s' = actor_ s /\ idx_ s' = idx_ s /\
     target_poses_ s' = target_poses_ s /\
     target_pose_ s' = target_pose_ s /\
     last_update_ s' = last_update_ s /\
     trajectoryInfo_type s' = trajectoryInfo_type s) /\
    (ros_isInitialized = true ->
     actor_ s' = _model /\ idx_ s' = 0%nat /\
     target_poses_ s' = target_poses_ s ++ [pose_target _model] /\
     target_pose_ s' = hd (pose_target _model) (target_poses_ s) /\
     last_update_ s' = 0 /\
     trajectoryInfo_type s'
     = if existsb (String.eqb WALKING_ANIMATION) skelAnims
          && existsb (String.eqb STANDING_ANIMATION) skelAnims
       then STANDING_ANIMATION else trajectoryInfo_type s).
Proof.
  unfold Load. cbv zeta.
  destruct _sdf as [e1 e2 e3 e4 e5 e6 e7].
  cbn [sdf_follow_mode sdf_linear_tolerance sdf_linear_velocity
       sdf_angular_tolerance sdf_angular_velocity sdf_animation_factor
       sdf_default_rotation].
  destruct ros_isInitialized; cbn [negb].
  - match goal with
    | |- context [Reset skelAnims ?s0] =>
        destruct (Reset_result skelAnims s0)
          as [s' [E [Hi [Hlu [Hl [Ht [Hty [Ha [Hq Hac]]]]]]]]];
        exists s'; split; [exact E|]
    end.
    assert (Hpar : forall (A : Type) (f : State -> A),
               (forall v s, f (set_trajectoryInfo_type v s) = f s) ->
               (forall v s, f (set_target_pose_ v s) = f s) ->
               (forall v s, f (set_target_poses_ v s) = f s) ->
               (forall v s, f (set_idx_ v s) = f s) ->
               (forall v s, f (set_last_update_ v s) = f s) ->
               forall s0 s1, Reset skelAnims s0 = Some s1 -> f s1 = f s0).
    { intros A f F1 F2 F3 F4 F5 s0 s1. unfold Reset. cbv zeta.
      destruct (nth_error _ _); [|discriminate].
      destruct (negb _); [|destruct (negb _)]; intros H; injection H as <-;
        rewrite ?F1, F2, F3, F4, F5; reflexivity. }
    rewrite (Hpar _ follow_mode_ ltac:(reflexivity) ltac:(reflexivity)
                  ltac:(reflexivity) ltac:(reflexivity) ltac:(reflexivity)
                  _ _ E).
    rewrite (Hpar _ lin_tolerance_ ltac:(reflexivity) ltac:(reflexivity)
                  ltac:(reflexivity) ltac:(reflexivity) ltac:(reflexivity)
                  _ _ E).
    rewrite (Hpar _ lin_velocity_ ltac:(reflexivity) ltac:(reflexivity)
                  ltac:(reflexivity) ltac:(reflexivity) ltac:(reflexivity)
                  _ _ E).
    rewrite (Hpar _ ang_tolerance_ ltac:(reflexivity) ltac:(reflexivity)
                  ltac:(reflexivity) ltac:(reflexivity) ltac:(reflexivity)
                  _ _ E).
    rewrite (Hpar _ ang_velocity_ ltac:(reflexivity) ltac:(reflexivity)
                  ltac:(reflexivity) ltac:(reflexivity) ltac:(reflexivity)
                  _ _ E).
    rewrite (Hpar _ animation_factor_ ltac:(reflexivity) ltac:(reflexivity)
                  ltac:(reflexivity) ltac:(reflexivity) ltac:(reflexivity)
                  _ _ E).
    rewrite (Hpar _ default_rotation_ ltac:(reflexivity) ltac:(reflexivity)
                  ltac:(reflexivity) ltac:(reflexivity) ltac:(reflexivity)
                  _ _ E).
    rewrite (Hpar _ actor_pub_ ltac:(reflexivity) ltac:(reflexivity)
                  ltac:(reflexivity) ltac:(reflexivity) ltac:(reflexivity)
                  _ _ E).
    rewrite Ha, Hq, Hac, Hi, Hlu, Hl, Ht, Hty.
    destruct e1, e2, e3, e4, e5, e6, e7; cbn;
      repeat (split; [reflexivity|]);
      (split; [intros H; discriminate H | intros _; auto 10]).
  - eexists. split; [reflexivity|].
    destruct e1, e2, e3, e4, e5, e6, e7; cbn;
      repeat (split; [reflexivity|]);
      (split; [intros _; auto 10 | intros H; discriminate H]).
Qed.

(** ** An actor that has arrived *)

Lemma OnUpdate_done (s : State) (simTime : R) :
  follow_mode_ s = "path"%string ->
  abort_ s = false -> target_poses_ s <> [] ->
  distance_to_target s < lin_tolerance_ s ->
  ~ (idx_ s < List.length (target_poses_ s) - 1)%nat ->
  exists s',
    OnUpdate s simTime = Some s' /\
    position_of s' = position_of s /\
    target_pose_ s' = target_pose_ s /\
    target_poses_ s' = target_poses_ s /\
    idx_ s' = idx_ s /\
    abort_ s' = false /\
    trajectoryInfo_type s' = STANDING_ANIMATION /\
    same_parameters s s'.
Proof.
  intros Hm Ha Hl Hd Hi.
  destruct (OnUpdate_path_fields s simTime Hm)
    as [s' [s1 [pos1 [E [C [Hmv [Hp [_ [Hl' [Hi' [Ht [Hty [_ [_ [_ [_ Hab]]]]]]]]]]]]]]]].
  apply target_case_done_inv in C; auto. destruct C as [-> ->].
  destruct (OnUpdate_frame s s' simTime E) as [Hpar _].
  exists s'. cbn in Hl', Hi', Ht, Hty. rewrite Ha in Hab.
  split; [exact E|]. split; [|auto 10].
  unfold position_of at 1. rewrite Hp. unfold path_tick_pose.
  rewrite Hmv, direction_zero.
  destruct (Rgt_dec _ _); cbn; [reflexivity|].
  apply Vector3d_eta; ring.
Qed.

Lemma done_ticks (times : list R) :
  forall s,
    follow_mode_ s = "path"%string ->
    abort_ s = false -> target_poses_ s <> [] ->
    distance_to_target s < lin_tolerance_ s ->
    ~ (idx_ s < List.length (target_poses_ s) - 1)%nat ->
    exists s',
      ticks s times = Some s' /\
      position_of s' = position_of s /\
      target_pose_ s' = target_pose_ s /\
      target_poses_ s' = target_poses_ s /\
      idx_ s' = idx_ s /\
      (times <> [] -> trajectoryInfo_type s' = STANDING_ANIMATION).
Proof.
  induction times as [|t times IH]; intros s Hm Ha Hl Hd Hi.
  - exists s. simpl. repeat split; auto. congruence.
  - destruct (OnUpdate_done s t Hm Ha Hl Hd Hi)
      as [s1 [E [Hp [Ht [Hl1 [Hi1 [Ha1 [Hty Hpar]]]]]]]].
    destruct Hpar as [Hm1 [Hlt _]].
    destruct (IH s1) as [s' [E' [Hp' [Ht' [Hl' [Hi' Hty']]]]]].
    + congruence.
    + exact Ha1.
    + rewrite Hl1. exact Hl.
    + rewrite (distance_same_place s s1 Ht Hp), Hlt. exact Hd.
    + rewrite Hi1, Hl1. exact Hi.
    + exists s'. simpl. rewrite E.
      split; [exact E'|]. split; [congruence|]. split; [congruence|].
      split; [congruence|]. split; [congruence|].
      intros _. destruct times as [|t' times'].
      * simpl in E'. injection E' as <-. exact Hty.
      * apply Hty'. discriminate.
Qed.

(** X15: a freshly loaded path-following actor stands still.  The actor has
    both the "walking" and the "standing" clip, so that [Reset] (lines
    162-175) installs the trajectory the ticks write to.  After [Load] with
    ROS initialised on a plugin without waypoints, with follow mode "path"
    and a positive linear tolerance, the target and the only waypoint are
    the actor's own pose, and any sequence of ticks leaves the actor at that
    position, with the "standing" clip selected. *)
Theorem loaded_path_actor_stands (_model : Actor) (skelAnims : list string)
        (_sdf : SDF) (s : State) (times : list R) :
  existsb (String.eqb WALKING_ANIMATION) skelAnims = true ->
  existsb (String.eqb STANDING_ANIMATION) skelAnims = true ->
  target_poses_ s = [] ->
  sdf_follow_mode _sdf = Some "path"%string ->
  0 < configured (sdf_linear_tolerance _sdf) (1 / 10) ->
  exists s1 s',
    Load true _model skelAnims _sdf s = Some s1 /\
    target_pose_ s1 = pose_target _model /\
    target_poses_ s1 = [pose_target _model] /\
    trajectoryInfo_type s1 = STANDING_ANIMATION /\
    ticks s1 times = Some s' /\
    position_of s' = Pose3d.Pos (WorldPose _model) /\
    trajectoryInfo_type s' = STANDING_ANIMATION.
Proof.
  intros Hwalk Hstand Hl Hmode Htol.
  destruct (Load_result true _model skelAnims _sdf s)
    as [s1 [E [Hm [Hlt [_ [_ [_ [_ [_ [Ha [_ [_ [_ H]]]]]]]]]]]]].
  destruct (H eq_refl) as [Hac [Hi [Hl1 [Ht [_ Hty1]]]]].
  rewrite Hwalk, Hstand in Hty1. cbn [andb] in Hty1.
  rewrite Hl in Hl1, Ht. simpl in Hl1, Ht. rewrite Hmode in Hm. simpl in Hm.
  assert (Hp1 : position_of s1 = Pose3d.Pos (WorldPose _model))
    by (unfold position_of, tick_pose; rewrite Hac; reflexivity).
  assert (Hd : distance_to_target s1 < lin_tolerance_ s1).
  { unfold distance_to_target, to_target, Vector2d.Length, Vector2d.sub.
    rewrite Ht, Hp1, Hlt. cbn.
    match goal with |- sqrt ?e < _ => replace e with 0 by ring end.
    rewrite sqrt_0. exact Htol. }
  destruct (done_ticks times s1) as [s' [E' [Hp' [_ [_ [_ Hty]]]]]].
  - exact Hm.
  - exact Ha.
  - rewrite Hl1. discriminate.
  - exact Hd.
  - rewrite Hi, Hl1. simpl. lia.
  - exists s1, s'. split; [exact E|]. split; [exact Ht|].
    split; [exact Hl1|]. split; [exact Hty1|]. split; [exact E'|].
    split; [congruence|].
    destruct times as [|t times].
    + simpl in E'. injection E' as <-. exact Hty1.
    + apply Hty. discriminate.
Qed.

(** ** A new path while the actor is at its target *)

(** X16: a path received while the actor is within [lin_tolerance_] of its
    current target is followed from its second waypoint: the first tick
    after [PathCallback] sets the index to 1 and the target to the second
    waypoint, and heads for it, passing over the first waypoint. *)
Theorem path_first_waypoint_is_skipped getRPY_yaw (s : State) (msg : Path)
        (p0 p1 : Pose) (rest : list Pose) (simTime : R) :
  follow_mode_ s = "path"%string ->
  distance_to_target s < lin_tolerance_ s ->
  poses msg = p0 :: p1 :: rest ->
  exists s',
    OnUpdate (PathCallback getRPY_yaw s msg) simTime = Some s' /\
    idx_ s' = 1%nat /\
    target_pose_ s' = PathCallback_target getRPY_yaw p1 /\
    target_poses_ s'
    = map (PathCallback_target getRPY_yaw) (p0 :: p1 :: rest) /\
    motion_vector (PathCallback getRPY_yaw s msg)
    = OnUpdate_path_direction
        (Vector2d.mk
           (Vector3d.X (PathCallback_target getRPY_yaw p1)
            - Vector3d.X (position_of s))
           (Vector3d.Y (PathCallback_target getRPY_yaw p1)
            - Vector3d.Y (position_of s))).
Proof.
  intros Hm Hd Hp.
  destruct (PathCallback_fields getRPY_yaw s msg) as [Hl [Hi [Ha Ht]]].
  rewrite Hp in Hl.
  assert (Hm' : follow_mode_ (PathCallback getRPY_yaw s msg)
                = "path"%string)
    by (rewrite PathCallback_frame; auto).
  assert (Hpos : position_of (PathCallback getRPY_yaw s msg)
                 = position_of s)
    by (apply PathCallback_frame; reflexivity).
  assert (Htol : lin_tolerance_ (PathCallback getRPY_yaw s msg)
                 = lin_tolerance_ s)
    by (apply PathCallback_frame; reflexivity).
  destruct (OnUpdate_next (PathCallback getRPY_yaw s msg) simTime)
    as [s' [p [E [Hn [Hi' [Ht' [Hl' [_ Hmv]]]]]]]].
  - exact Hm'.
  - exact Ha.
  - rewrite (distance_same_place s _ Ht Hpos), Htol. exact Hd.
  - rewrite Hi, Hl. simpl. lia.
  - rewrite Hi, Hl in Hn. simpl in Hn. injection Hn as <-.
    exists s'. split; [exact E|]. split; [congruence|].
    split; [exact Ht'|]. split; [congruence|].
    rewrite Hmv, Hpos. reflexivity.
Qed.

(** ** [Reset], [Load], the waypoint advance and the actor at rest *)

(** X17: [Reset] never throws.  It sets the index and the update time to
    0, leaves the abort flag and the command queue alone, and appends the
    actor's pose to the waypoint list without clearing it: the target it
    selects is the first element of the resulting list, which is the
    actor's pose only when the list was empty, and the first waypoint of
    the old list otherwise.  The clip becomes "standing" when the actor has
    both clips and is unchanged when it lacks one. *)
Theorem Reset_retargets (skelAnims : list string) (s : State) :
  exists s',
    Reset skelAnims s = Some s' /\
    idx_ s' = 0%nat /\
    last_update_ s' = 0 /\
    target_poses_ s' = target_poses_ s ++ [pose_target (actor_ s)] /\
    target_pose_ s' = hd (pose_target (actor_ s)) (target_poses_ s) /\
    (target_poses_ s = [] -> target_pose_ s' = pose_target (actor_ s)) /\
    (forall p l, target_poses_ s = p :: l -> target_pose_ s' = p) /\
    trajectoryInfo_type s'
    = (if existsb (String.eqb WALKING_ANIMATION) skelAnims
          && existsb (String.eqb STANDING_ANIMATION) skelAnims
       then STANDING_ANIMATION else trajectoryInfo_type s) /\
    abort_ s' = abort_ s /\
    cmd_queue_ s' = cmd_queue_ s /\
    actor_ s' = actor_ s.
Proof.
  destruct (Reset_result skelAnims s)
    as [s' [E [Hi [Hlu [Hl [Ht [Hty [Ha [Hq Hac]]]]]]]]].
  exists s'. split; [exact E|]. split; [exact Hi|]. split; [exact Hlu|].
  split; [exact Hl|]. split; [exact Ht|].
  split; [intros H0; rewrite Ht, H0; reflexivity|].
  split; [intros p l H0; rewrite Ht, H0; reflexivity|].
  auto.
Qed.

(** X18: [Load] never throws and leaves every parameter at the value of
    its SDF element when there is one and at its default otherwise (follow
    mode "velocity", tolerance 0.1, speed 1, 5 and 10 degrees, factor 4);
    [default_rotation_] has no default and keeps the value it had.  The
    abort flag is cleared.  When ROS is not initialised [Load] stops there:
    actor, index, waypoints, target, update time and clip are untouched.
    Otherwise the plugin takes the model as its actor and is left as
    [Reset] leaves it. *)
Theorem Load_configures (ros_isInitialized : bool) (_model : Actor)
        (skelAnims : list string) (_sdf : SDF) (s : State) :
  exists s',
    Load ros_isInitialized _model skelAnims _sdf s = Some s' /\
    follow_mode_ s' = configured (sdf_follow_mode _sdf) "velocity"%string /\
    lin_tolerance_ s' = configured (sdf_linear_tolerance _sdf) (1 / 10) /\
    lin_velocity_ s' = configured (sdf_linear_velocity _sdf) 1 /\
    ang_tolerance_ s' = configured (sdf_angular_tolerance _sdf) (IGN_DTOR 5) /\
    ang_velocity_ s' = configured (sdf_angular_velocity _sdf) (IGN_DTOR 10) /\
    animation_factor_ s' = configured (sdf_animation_factor _sdf) 4 /\
    default_rotation_ s'
    = configured (sdf_default_rotation _sdf) (default_rotation_ s) /\
    abort_ s' = false /\
    cmd_queue_ s' = cmd_queue_ s /\
    actor_pub_ s' = actor_pub_ s /\
    (ros_isInitialized = false ->
     actor_ s' = actor_ s /\ idx_ s' = idx_ s /\
     target_poses_ s' = target_poses_ s /\
     target_pose_ s' = target_pose_ s /\
     last_update_ s' = last_update_ s /\
     trajectoryInfo_type s' = trajectoryInfo_type s) /\
    (ros_isInitialized = true ->
     actor_ s' = _model /\ idx_ s' = 0%nat /\
     target_poses_ s' = target_poses_ s ++ [pose_target _model] /\
     target_pose_ s' = hd (pose_target _model) (target_poses_ s) /\
     last_update_ s' = 0 /\
     trajectoryInfo_type s'
     = if existsb (String.eqb WALKING_ANIMATION) skelAnims
          && existsb (String.eqb STANDING_ANIMATION) skelAnims
       then STANDING_ANIMATION else trajectoryInfo_type s).
Proof.
  exact (Load_result ros_isInitialized _model skelAnims _sdf s).
Qed.

(** X19: the waypoint advance is one step per tick.  A non-aborted path
    tick within [lin_tolerance_] of its target, with a further waypoint in
    the list, moves the index to the next position, makes that waypoint
    the target, leaves the list as it is, selects "walking" and works in
    the same tick with the direction to the new target, whether or not the
    actor is within tolerance of that one too. *)
Theorem tick_advances_one_waypoint (s : State) (simTime : R) :
  follow_mode_ s = "path"%string ->
  abort_ s = false ->
  distance_to_target s < lin_tolerance_ s ->
  (idx_ s < List.length (target_poses_ s) - 1)%nat ->
  exists s' p,
    OnUpdate s simTime = Some s' /\
    nth_error (target_poses_ s) (S (idx_ s)) = Some p /\
    idx_ s' = S (idx_ s) /\
    target_pose_ s' = p /\
    target_poses_ s' = target_poses_ s /\
    trajectoryInfo_type s' = WALKING_ANIMATION /\
    motion_vector s
    = OnUpdate_path_direction
        (Vector2d.mk (Vector3d.X p - Vector3d.X (position_of s))
                     (Vector3d.Y p - Vector3d.Y (position_of s))).
Proof.
  intros Hm Ha Hd Hi. exact (OnUpdate_next s simTime Hm Ha Hd Hi).
Qed.

(** X20: an actor that has arrived stays.  A non-aborted path-following
    actor within [lin_tolerance_] of its target, at the last position of its
    waypoint list, keeps its position, target, index and list through any
    sequence of ticks, and each tick selects the "standing" clip. *)
Theorem arrived_actor_stays (s : State) (times : list R) :
  follow_mode_ s = "path"%string ->
  abort_ s = false ->
  target_poses_ s <> [] ->
  distance_to_target s < lin_tolerance_ s ->
  ~ (idx_ s < List.length (target_poses_ s) - 1)%nat ->
  exists s',
    ticks s times = Some s' /\
    position_of s' = position_of s /\
    target_pose_ s' = target_pose_ s /\
    target_poses_ s' = target_poses_ s /\
    idx_ s' = idx_ s /\
    (times <> [] -> trajectoryInfo_type s' = STANDING_ANIMATION).
Proof.
  intros Hm Ha Hl Hd Hi. exact (done_ticks times s Hm Ha Hl Hd Hi).
Qed.

(** ** The angular rate of a velocity command *)

Lemma EulerZ_range (yaw : R) : - PI < Quaterniond.EulerZ yaw <= PI.
Proof. rewrite EulerZ_Normalize. apply Normalize_range. Qed.

Lemma EulerZ_id (yaw : R) : - PI < yaw <= PI -> Quaterniond.EulerZ yaw = yaw.
Proof. intros H. rewrite EulerZ_Normalize. apply Normalize_id. exact H. Qed.

Lemma EulerZ_cos_sin (yaw : R) :
  cos (Quaterniond.EulerZ yaw) = cos yaw /\
  sin (Quaterniond.EulerZ yaw) = sin yaw.
Proof. rewrite EulerZ_Normalize. apply Normalize_cos_sin. Qed.

Lemma EulerZ_full_turn (yaw : R) :
  PI < yaw <= 3 * PI -> Quaterniond.EulerZ yaw = yaw - 2 * PI.
Proof.
  intros H. rewrite EulerZ_Normalize.
  rewrite (Normalize_ext yaw (yaw - 2 * PI)).
  - apply Normalize_id. lra.
  - rewrite cos_minus, cos_2PI, sin_2PI. ring.
  - rewrite sin_minus, cos_2PI, sin_2PI. ring.
Qed.

Lemma held_angular_range (s : State) : - PI < held_angular s <= PI.
Proof.
  unfold held_angular. destruct (cmd_queue_ s); apply EulerZ_range.
Qed.

(** X21: the angular rate of a velocity command is not applied as
    commanded.  The tick stores [angular.z] as the yaw of a quaternion
    (lines 300-301) and reads the rate back as that quaternion's Euler yaw
    (lines 318-319), which lies in (-PI, PI].  The rate the tick publishes
    and turns the actor by is therefore the commanded rate up to full turns:
    the commanded rate itself when that lies in (-PI, PI], and the commanded
    rate less [2 PI] when it lies in (PI, 3 PI]. *)
Theorem velocity_rate_is_wrapped (s : State) (msg : Twist) (simTime : R) :
  follow_mode_ s = "velocity"%string ->
  cmd_queue_ s = [] ->
  let z := Vector3d.Z (angular msg) in
  exists s' o w,
    OnUpdate (VelCallback s msg) simTime = Some s' /\
    actor_pub_ s' = o :: actor_pub_ s /\
    twist_angular_z o = Finite w /\
    heading_of s' = heading_of s + w * (simTime - last_update_ s) /\
    - PI < w <= PI /\
    cos w = cos z /\ sin w = sin z /\
    (- PI < z <= PI -> w = z) /\
    (PI < z <= 3 * PI -> w = z - 2 * PI).
Proof.
  intros Hm Hq z.
  assert (Hw : held_angular (VelCallback s msg) = Quaterniond.EulerZ z).
  { unfold held_angular, VelCallback. cbn [cmd_queue_ set_cmd_queue_].
    rewrite Hq. reflexivity. }
  destruct (OnUpdate_velocity_fields (VelCallback s msg) simTime Hm)
    as [s' [E [Hp [Hpub _]]]].
  rewrite Hw in Hp, Hpub.
  eexists s', _, (Quaterniond.EulerZ z).
  split; [exact E|]. split; [exact Hpub|]. split; [reflexivity|].
  split; [unfold heading_of at 1; rewrite Hp; reflexivity|].
  split; [apply EulerZ_range|].
  destruct (EulerZ_cos_sin z) as [Hc Hs].
  split; [exact Hc|]. split; [exact Hs|].
  split; [apply EulerZ_id | apply EulerZ_full_turn].
Qed.

(** ** Instances *)

Lemma origin_distance_zero (s : State) :
  target_pose_ s = Vector3d.mk 0 0 0 ->
  position_of s = Vector3d.Zero ->
  distance_to_target s = 0.
Proof.
  intros Ht Hp. unfold distance_to_target, to_target, Vector2d.Length.
  rewrite Ht, Hp. cbn.
  replace ((0 - 0) * (0 - 0) + (0 - 0) * (0 - 0)) with 0 by ring.
  apply sqrt_0.
Qed.

Lemma velocity_samples_fifo_witness :
  exists s',
    ticks (VelCallback cruising sample_all_axes) [1; 2] = Some s' /\
    cmd_queue_ s' = [] /\
    Vector3d.X (Pose3d.Pos (target_vel_ s')) = 1 /\
    Quaterniond.EulerZ (Quaterniond.Yaw (Pose3d.Rot (target_vel_ s')))
    = 1 / 2.
Proof.
  destruct (velocity_samples_fifo
              [1; 2] (VelCallback cruising sample_all_axes) eq_refl)
    as [s' [new [E [_ [Hq [_ [_ [Hx Hz]]]]]]]].
  exists s'. split; [exact E|]. split; [exact Hq|]. split; [exact Hx|].
  rewrite Hz. change (Quaterniond.EulerZ (1 / 2) = 1 / 2).
  apply EulerZ_small. pose proof PI2_3_2. lra.
Defined.

Lemma empty_path_holds_witness :
  exists s',
    ticks (PathCallback yaw_of_z_w walker (mkPath [])) [1; 2] = Some s' /\
    position_of s' = position_of walker /\
    target_poses_ s' = [] /\ idx_ s' = 0%nat /\ abort_ s' = false.
Proof.
  apply (empty_path_holds yaw_of_z_w walker (mkPath []) [1; 2]);
    reflexivity.
Defined.

Lemma cleared_abort_does_not_resume_witness :
  exists s1 s',
    OnUpdate aborted_walker 1 = Some s1 /\
    ticks (AbortCallback s1 false) [2; 3] = Some s' /\
    abort_ s' = false /\
    target_poses_ s' = [] /\
    position_of s' = position_of aborted_walker.
Proof.
  apply (cleared_abort_does_not_resume aborted_walker 1 [2; 3]);
    reflexivity.
Defined.

Lemma path_mode_never_reads_samples_witness :
  exists s' s'',
    run yaw_of_z_w walker samples_between_ticks = Some s' /\
    run yaw_of_z_w walker [EvUpdate 1; EvUpdate 2] = Some s'' /\
    s' = set_cmd_queue_ [vel_cmd_of unit_forward; vel_cmd_of sample_x_only]
                        s''.
Proof.
  apply (path_mode_never_reads_samples
           yaw_of_z_w samples_between_ticks walker).
  reflexivity.
Defined.

Lemma velocity_mode_ignores_goals_witness :
  exists s' s'',
    run yaw_of_z_w idle goals_between_ticks = Some s' /\
    run yaw_of_z_w idle [EvVel unit_forward; EvUpdate 1; EvUpdate 2]
    = Some s'' /\
    actor_ s' = actor_ s'' /\
    actor_pub_ s' = actor_pub_ s'' /\
    cmd_queue_ s' = cmd_queue_ s'' /\
    target_vel_ s' = target_vel_ s'' /\
    trajectoryInfo_type s' = trajectoryInfo_type s'' /\
    last_update_ s' = last_update_ s''.
Proof.
  apply (velocity_mode_ignores_goals yaw_of_z_w goals_between_ticks idle).
  reflexivity.
Defined.

Lemma turning_reduces_angular_error_witness :
  exists s',
    OnUpdate turning 1 = Some s' /\
    position_of s' = position_of turning /\
    Rabs (angular_error s')
    = Rabs (angular_error turning)
      - ang_velocity_ turning * (1 - last_update_ turning).
Proof.
  assert (He : angular_error turning = - (1 - 0)).
  { apply path_state_angular_error. pose proof PI2_1. lra. }
  assert (Habs : Rabs (angular_error turning) = 1).
  { rewrite He. replace (- (1 - 0)) with (- (1)) by ring.
    rewrite Rabs_Ropp. apply Rabs_R1. }
  pose proof IGN_DTOR_5_bounds as Hb.
  pose proof PI_RGT_0 as Hpi. pose proof PI_4 as Hpi4.
  assert (Hd : distance_to_target turning = 10)
    by apply path_state_distance.
  destruct (turning_reduces_angular_error turning 1)
    as [s' [E [Hp [_ [_ Hr]]]]].
  - reflexivity.
  - reflexivity.
  - discriminate.
  - rewrite Hd. cbn. lra.
  - rewrite Hd. lra.
  - rewrite Habs. cbn. lra.
  - rewrite Habs. cbn. unfold IGN_DTOR. lra.
  - exists s'. auto.
Defined.

Lemma straight_line_progress_witness :
  exists s',
    ticks walker [1; 2; 3] = Some s' /\
    Vector3d.X (position_of s')
    = Vector3d.X (position_of walker)
      + Vector2d.X (motion_vector walker) * (lin_velocity_ walker * (3 - 0)) /\
    distance_to_target s'
    = distance_to_target walker - lin_velocity_ walker * (3 - 0).
Proof.
  assert (He : angular_error walker = - (0 - 0)).
  { apply path_state_angular_error. pose proof PI2_RGT_0. lra. }
  pose proof IGN_DTOR_5_bounds as Hb.
  assert (Hd : distance_to_target walker = 10)
    by apply path_state_distance.
  destruct (straight_line_progress [1; 2; 3] walker)
    as [s' [E [HX [_ [Hd' _]]]]].
  - reflexivity.
  - reflexivity.
  - discriminate.
  - rewrite He. replace (- (0 - 0)) with 0 by ring. rewrite Rabs_R0.
    cbn. lra.
  - cbn. lra.
  - cbn. lra.
  - rewrite Hd. cbn. lra.
  - rewrite Hd. cbn. lra.
  - exists s'. auto.
Defined.

Lemma unknown_follow_mode_tick_witness :
  exists s',
    OnUpdate misconfigured 1 = Some s' /\
    tick_pose s' = tick_pose misconfigured /\
    last_update_ s' = 1.
Proof.
  destruct (unknown_follow_mode_tick misconfigured 1)
    as [s' [E [Hp [_ [_ [Ht _]]]]]].
  - discriminate.
  - discriminate.
  - exists s'. auto.
Defined.

Lemma negative_angular_tolerance_spins_witness :
  exists s',
    OnUpdate spinner 1 = Some s' /\
    position_of s' = position_of spinner /\
    heading_of s'
    = heading_of spinner + ang_velocity_ spinner * (1 - last_update_ spinner).
Proof.
  destruct (negative_angular_tolerance_spins spinner 1)
    as [s' [E [Hp [_ [Hh Hz]]]]].
  - reflexivity.
  - cbn. lra.
  - exists s'. split; [exact E|]. split; [exact Hp|].
    apply Hh. rewrite Hz; [lra | left; reflexivity].
Defined.

Lemma tick_writes_roll_and_pitch_witness :
  exists s',
    OnUpdate idle 1 = Some s' /\
    Quaterniond.Roll (Pose3d.Rot (tick_pose s')) = default_rotation_ idle /\
    Quaterniond.Pitch (Pose3d.Rot (tick_pose s')) = 0 /\
    Vector3d.Z (position_of s') = Vector3d.Z (position_of idle).
Proof.
  apply (tick_writes_roll_and_pitch idle 1). right. reflexivity.
Defined.

Lemma loaded_path_actor_stands_witness :
  exists s1 s',
    Load true (mkActor origin 0) both_clips sdf_path_only idle = Some s1 /\
    target_pose_ s1 = pose_target (mkActor origin 0) /\
    target_poses_ s1 = [pose_target (mkActor origin 0)] /\
    trajectoryInfo_type s1 = STANDING_ANIMATION /\
    ticks s1 [1; 2] = Some s' /\
    position_of s' = Pose3d.Pos origin /\
    trajectoryInfo_type s' = STANDING_ANIMATION.
Proof.
  apply (loaded_path_actor_stands
           (mkActor origin 0) both_clips sdf_path_only idle [1; 2]).
  - reflexivity.
  - reflexivity.
  - reflexivity.
  - reflexivity.
  - cbn. lra.
Defined.

Lemma path_first_waypoint_is_skipped_witness :
  exists s',
    OnUpdate (PathCallback yaw_of_z_w path_actor_loaded path_via_5) 1
    = Some s' /\
    idx_ s' = 1%nat /\
    Vector3d.X (target_pose_ s') = 10.
Proof.
  destruct (path_first_waypoint_is_skipped
              yaw_of_z_w path_actor_loaded path_via_5
              (mkPose (Vector3d.mk 5 0 0) (mkQuaternion 0 0 0 1))
              (mkPose (Vector3d.mk 10 0 0) (mkQuaternion 0 0 0 1))
              [] 1)
    as [s' [E [Hi [Ht _]]]].
  - reflexivity.
  - rewrite origin_distance_zero by reflexivity. cbn. lra.
  - reflexivity.
  - exists s'. split; [exact E|]. split; [exact Hi|].
    rewrite Ht. reflexivity.
Defined.

Lemma tick_advances_one_waypoint_witness :
  exists s' p,
    OnUpdate at_first_of_two 1 = Some s' /\
    nth_error (target_poses_ at_first_of_two) 1 = Some p /\
    idx_ s' = 1%nat /\
    target_pose_ s' = p.
Proof.
  destruct (tick_advances_one_waypoint at_first_of_two 1)
    as [s' [p [E [Hn [Hi [Ht _]]]]]].
  - reflexivity.
  - reflexivity.
  - rewrite origin_distance_zero by reflexivity. cbn. lra.
  - cbn. lia.
  - exists s', p. auto.
Defined.

Lemma arrived_actor_stays_witness :
  exists s',
    ticks path_actor_loaded [1; 2; 3] = Some s' /\
    position_of s' = position_of path_actor_loaded /\
    trajectoryInfo_type s' = STANDING_ANIMATION.
Proof.
  destruct (arrived_actor_stays path_actor_loaded [1; 2; 3])
    as [s' [E [Hp [_ [_ [_ Hty]]]]]].
  - reflexivity.
  - reflexivity.
  - discriminate.
  - rewrite origin_distance_zero by reflexivity. cbn. lra.
  - cbn. lia.
  - exists s'. split; [exact E|]. split; [exact Hp|].
    apply Hty. discriminate.
Defined.

Lemma animation_clock_of_tick_witness :
  exists s',
    OnUpdate cruising 1 = Some s' /\
    distanceTraveled cruising s'
    = Rabs (held_linear cruising * (1 - last_update_ cruising)) /\
    ScriptTime (actor_ cruising) <= ScriptTime (actor_ s').
Proof.
  destruct (animation_clock_of_tick cruising 1)
    as [s' [E [_ [Hmono [Hvel _]]]]].
  exists s'. split; [exact E|].
  split; [apply Hvel; reflexivity | apply Hmono; cbn; lra].
Defined.

Lemma Load_configures_witness :
  exists s',
    Load false (mkActor origin 0) both_clips sdf_path_only walker = Some s' /\
    follow_mode_ s' = "path"%string /\
    lin_tolerance_ s' = 1 / 10 /\
    default_rotation_ s' = default_rotation_ walker /\
    target_poses_ s' = target_poses_ walker.
Proof.
  destruct (Load_configures false (mkActor origin 0) both_clips
                            sdf_path_only walker)
    as [s' [E [Hm [Hlt [_ [_ [_ [_ [Hdr [_ [_ [_ [Hf _]]]]]]]]]]]]].
  destruct (Hf eq_refl) as [_ [_ [Hl _]]].
  exists s'. auto.
Defined.

Lemma velocity_rate_is_wrapped_witness :
  exists s' o,
    OnUpdate (VelCallback idle (mkTwist (Vector3d.mk 1 0 0)
                                        (Vector3d.mk 0 0 5))) 1
    = Some s' /\
    actor_pub_ s' = [o] /\
    twist_angular_z o = Finite (5 - 2 * PI) /\
    heading_of s' = 5 - 2 * PI.
Proof.
  destruct (velocity_rate_is_wrapped
              idle (mkTwist (Vector3d.mk 1 0 0) (Vector3d.mk 0 0 5)) 1
              eq_refl eq_refl)
    as [s' [o [w [E [Hpub [Htw [Hh [_ [_ [_ [_ Hturn]]]]]]]]]]].
  assert (Hw : w = 5 - 2 * PI).
  { apply Hturn. cbn. pose proof PI_4. pose proof PI2_3_2. lra. }
  exists s', o. split; [exact E|]. split; [exact Hpub|].
  split; [rewrite Htw, Hw; reflexivity|].
  rewrite Hh, Hw. cbn. ring.
Defined.
